(** * MyLife data layer: the offline store and its sync engine

    A shallow embedding of [data.js] (the [DataStore] object): the
    positional row codec, the IndexedDB object stores, the sync queue, the
    push phase and the pull-merge of [syncNow], and the CRUD facade.

    JavaScript values are modelled by [JsVal]; numbers are the integers
    (time stamps, keys, counters and row positions are all integral).
    Objects are finite maps from property names to values.  Code that
    awaits storage or the network is written in a state-and-exception
    monad over a [World]: the object stores, the queue, the log of gateway
    requests, the clock and the fire-and-forget tasks that were launched. *)

From stdpp Require Import gmap strings list fin_maps sorting.
From Stdlib Require Import ZArith Lia DecimalString.

Local Open Scope Z_scope.

(* ====================================================================== *)
(** ** JavaScript values and operators *)
(* ====================================================================== *)

(** The part of the language the data layer relies on: the primitive
    values, truthiness, [||], [===], [>], [String(v)] and
    [Object.assign], as ECMAScript defines them. *)

Module Js.

Inductive JsVal : Type :=
  | VUndef
  | VNull
  | VBool (b : bool)
  | VNum (n : Z)
  | VStr (s : string).

#[global] Instance JsVal_eq_dec : EqDecision JsVal.
Proof. solve_decision. Defined.

(** A plain object: own properties by name. *)
Abbreviation Obj := (gmap string JsVal).

(** [o[k]]: a missing property reads as [undefined]. *)
Definition prop (o : Obj) (k : string) : JsVal := default VUndef (o !! k).

(** ToBoolean. *)
Definition truthy (v : JsVal) : bool :=
  match v with
  | VUndef | VNull => false
  | VBool b => b
  | VNum n => negb (n =? 0)
  | VStr s => negb (String.eqb s "")
  end.

(** [a || b] and [a && b] (value-returning). *)
Definition js_or (a b : JsVal) : JsVal := if truthy a then a else b.
Definition js_and (a b : JsVal) : JsVal := if truthy a then b else a.

(** [a === b]. *)
Definition strict_eq (a b : JsVal) : bool := bool_decide (a = b).

(** [v !== undefined && v !== null]. *)
Definition present (v : JsVal) : bool :=
  negb (strict_eq v VUndef) && negb (strict_eq v VNull).

(** [String(v)]. *)
Definition js_String (v : JsVal) : string :=
  match v with
  | VUndef => "undefined"
  | VNull => "null"
  | VBool true => "true"
  | VBool false => "false"
  | VNum n => NilZero.string_of_int (Z.to_int n)
  | VStr s => s
  end.

(** [Object.assign({}, a, b)]: the properties of [b] override those of [a]. *)
Definition assign (a b : Obj) : Obj := b ∪ a.

Section Relational.
(** StringToNumber of the language runtime ([None] is NaN). *)
Variable StringToNumber : string -> option Z.

(** ToNumber; [None] is NaN. *)
Definition to_number (v : JsVal) : option Z :=
  match v with
  | VUndef => None
  | VNull => Some 0
  | VBool b => Some (if b then 1 else 0)
  | VNum n => Some n
  | VStr s => StringToNumber s
  end.

(** [a > b]: two strings compare as strings, anything else as numbers,
    and a NaN operand makes the comparison false. *)
Definition js_gt (a b : JsVal) : bool :=
  match a, b with
  | VStr s, VStr t => String.ltb t s
  | _, _ =>
      match to_number a, to_number b with
      | Some x, Some y => y <? x
      | _, _ => false
      end
  end.
End Relational.

End Js.
Import Js.

(* ====================================================================== *)
(** ** Column definitions and the row codec *)
(* ====================================================================== *)

Definition COLUMNS : list (string * list string) :=
  [ ("health",       ["date"; "weight_kg"; "bmi"; "bp_systolic"; "bp_diastolic"; "heart_rate"; "blood_sugar"; "notes"]);
    ("medications",  ["date"; "name"; "dosage"; "time"; "category"; "taken"]);
    ("appointments", ["date"; "time"; "doctor"; "specialty"; "location"; "notes"]);
    ("fitness",      ["date"; "type"; "exercise"; "duration_min"; "sets"; "reps"; "weight_kg"; "calories_burned"; "notes"]);
    ("nutrition",    ["date"; "meal"; "food"; "calories"; "protein_g"; "carbs_g"; "fat_g"; "fiber_g"; "notes"]);
    ("water",        ["date"; "time"; "amount_ml"]);
    ("sleep",        ["date"; "bedtime"; "wake_time"; "hours"; "quality"; "notes"]);
    ("mood",         ["date"; "time"; "mood"; "stress"; "energy"; "gratitude"; "notes"]);
    ("meditation",   ["date"; "duration_min"; "type"; "notes"]);
    ("habits",       ["date"; "habit_id"; "completed"]);
    ("habit_defs",   ["id"; "name"; "icon"; "category"; "target"; "active"]);
    ("goals",        ["id"; "type"; "title"; "target"; "current"; "deadline"; "status"]);
    ("profile",      ["key"; "value"]) ].

Definition DATE_INDEXED_STORES : list string :=
  [ "health"; "medications"; "appointments"; "fitness"; "nutrition";
    "water"; "sleep"; "mood"; "meditation"; "habits" ].

(** The object stores that hold records (every store but [sync_queue]). *)
Definition DATA_STORES : list string :=
  DATE_INDEXED_STORES ++ [ "habit_defs"; "goals"; "profile" ].

Definition MAX_RETRIES : Z := 3.
Definition STALE_THRESHOLD_MS : Z := 5 * 60 * 1000.

(** [table[name]] for an object literal used as a lookup table. *)
Fixpoint lookup_table {A} (name : string) (t : list (string * A)) : option A :=
  match t with
  | [] => None
  | (k, v) :: t' => if String.eqb k name then Some v else lookup_table name t'
  end.

(** [list.includes(name)]. *)
Definition includes (name : string) (l : list string) : bool :=
  existsb (String.eqb name) l.

(** The loop of [rowArrayToObject]: [obj[cols[i]] = i < arr.length ? arr[i] : null]. *)
Fixpoint fill_columns (cols : list string) (i : nat) (arr : list JsVal) (obj : Obj) : Obj :=
  match cols with
  | [] => obj
  | c :: cs =>
      fill_columns cs (S i) arr
        (<[c := match arr !! i with Some v => v | None => VNull end]> obj)
  end.

Definition rowArrayToObject (sheet : string) (arr : list JsVal) : option Obj :=
  match lookup_table sheet COLUMNS with
  | None => None
  | Some cols => Some (fill_columns cols 0%nat arr ∅)
  end.

Definition objectToRowArray (sheet : string) (obj : Obj) : list JsVal :=
  match lookup_table sheet COLUMNS with
  | None => []
  | Some cols =>
      map (fun c => if present (prop obj c) then prop obj c else VStr "") cols
  end.

(* ====================================================================== *)
(** ** IndexedDB object stores *)
(* ====================================================================== *)

(** The browser's object stores as [data.js] uses them, after the Indexed
    Database API: valid keys and their order, in-line keys with a key
    path, key generators, [get] / [getAll] / [add] / [put] / [delete] with
    the exceptions they raise, and the ['date'] index. *)

Module Idb.

(** The valid keys among the modelled values: numbers and strings.  Every
    number sorts before every string. *)
Inductive Key : Type :=
  | KNum (n : Z)
  | KStr (s : string).

#[global] Instance Key_eq_dec : EqDecision Key.
Proof. solve_decision. Defined.

#[global] Instance Key_countable : Countable Key.
Proof.
  refine (inj_countable'
    (fun k => match k with KNum n => inl n | KStr s => inr s end)
    (fun x => match x with inl n => KNum n | inr s => KStr s end) _).
  intros []; reflexivity.
Defined.

Definition to_key (v : JsVal) : option Key :=
  match v with
  | VNum n => Some (KNum n)
  | VStr s => Some (KStr s)
  | _ => None
  end.

Definition key_val (k : Key) : JsVal :=
  match k with
  | KNum n => VNum n
  | KStr s => VStr s
  end.

Definition key_leb (a b : Key) : bool :=
  match a, b with
  | KNum x, KNum y => x <=? y
  | KNum _, KStr _ => true
  | KStr _, KNum _ => false
  | KStr s, KStr t => String.leb s t
  end.

(** The order of the records of a store. *)
Definition entry_le (a b : Key * Obj) : Prop := key_leb a.1 b.1 = true.

#[global] Instance entry_le_dec : RelDecision entry_le.
Proof. intros a b. unfold entry_le. apply _. Defined.

(** The exceptions that reach the data layer. *)
Inductive Exn : Type :=
  | DataError
  | ConstraintError
  | NotFoundError
  | NetworkError.

(** An object store: the current number of its key generator and its
    records by key. *)
Record Store : Type := mkStore {
  keygen : Z;
  recs : gmap Key Obj
}.

Definition empty_store : Store := mkStore 1 ∅.

(** Outcome of evaluating the key path on a value. *)
Inductive Extracted : Type :=
  | KFailure
  | KInvalid
  | KValid (k : Key).

(** The ['date'] index: a record is listed under its [date] when that is
    a valid key, in ascending order of date, then of primary key. *)
Definition index_key (r : Obj) : option Key := to_key (prop r "date").

Definition in_range (lo hi : Key) (r : Obj) : bool :=
  match index_key r with
  | Some d => key_leb lo d && key_leb d hi
  | None => false
  end.

Definition index_leb (a b : Key * Obj) : bool :=
  match index_key a.2, index_key b.2 with
  | Some da, Some db =>
      if bool_decide (da = db) then key_leb a.1 b.1 else key_leb da db
  | _, _ => true
  end.

Definition index_le (a b : Key * Obj) : Prop := index_leb a b = true.

#[global] Instance index_le_dec : RelDecision index_le.
Proof. intros a b. unfold index_le. apply _. Defined.

Section ObjectStore.
(** Options given to [createObjectStore]. *)
Variable keyPath : string.
Variable autoIncrement : bool.

(** Keys are in-line: the record stored under [k] carries [k] at the key
    path, and that is how it reads back. *)
Definition stored (k : Key) (r : Obj) : Obj := <[keyPath := key_val k]> r.

Definition extract_key (r : Obj) : Extracted :=
  match r !! keyPath with
  | None | Some VUndef => KFailure
  | Some v =>
      match to_key v with
      | Some k => KValid k
      | None => KInvalid
      end
  end.

(** An explicit numeric key at or above the generator moves it past the key. *)
Definition bump (gen : Z) (k : Key) : Z :=
  match k with
  | KNum n => if autoIncrement && (gen <=? n) then n + 1 else gen
  | KStr _ => gen
  end.

(** [store.get(key)]. *)
Definition store_get (s : Store) (v : JsVal) : Exn + option Obj :=
  match to_key v with
  | None => inl DataError
  | Some k => inr (stored k <$> recs s !! k)
  end.

(** Records in ascending key order. *)
Definition entries (s : Store) : list (Key * Obj) :=
  merge_sort entry_le (map_to_list (recs s)).

(** [store.getAll()]. *)
Definition store_getAll (s : Store) : list Obj :=
  (fun kr => stored kr.1 kr.2) <$> entries s.

(** [store.add(r)] when [no_overwrite], [store.put(r)] otherwise; the
    result is the key of the record. *)
Definition store_write (no_overwrite : bool) (s : Store) (r : Obj) : Exn + (Key * Store) :=
  let write k gen :=
    if no_overwrite && bool_decide (is_Some (recs s !! k))
    then inl ConstraintError
    else inr (k, mkStore gen (<[k := stored k r]> (recs s))) in
  match extract_key r with
  | KInvalid => inl DataError
  | KFailure =>
      if autoIncrement
      then write (KNum (keygen s)) (keygen s + 1)
      else inl DataError
  | KValid k => write k (bump (keygen s) k)
  end.

Definition store_add := store_write true.
Definition store_put := store_write false.

(** [store.delete(key)]. *)
Definition store_delete (s : Store) (v : JsVal) : Exn + Store :=
  match to_key v with
  | None => inl DataError
  | Some k => inr (mkStore (keygen s) (delete k (recs s)))
  end.

(** [index.getAll(IDBKeyRange.bound(lo, hi))]. *)
Definition index_getAll (s : Store) (lo hi : JsVal) : Exn + list Obj :=
  match to_key lo, to_key hi with
  | Some l, Some h =>
      if key_leb l h
      then inr ((fun kr => stored kr.1 kr.2) <$>
                merge_sort index_le
                  (List.filter (fun kr => in_range l h (stored kr.1 kr.2))
                     (map_to_list (recs s))))
      else inl DataError
  | _, _ => inl DataError
  end.
End ObjectStore.

(** A record lies in the range of the ['date'] index between two values. *)
Definition in_range_of (lo hi : JsVal) (r : Obj) : Prop :=
  match to_key lo, to_key hi with
  | Some l, Some h => in_range l h r = true
  | _, _ => False
  end.

End Idb.
Import Idb.

(* ====================================================================== *)
(** ** The sync queue store, the gateway and the world *)
(* ====================================================================== *)

(** An entry as [_enqueue] builds it; the store adds the auto-increment
    [id], so an item read back is the pair of its id and the entry. *)
Record QueueEntry : Type := mkEntry {
  q_sheet : string;
  q_action : string;
  q_data : Obj;
  q_rowIndex : JsVal;
  q_timestamp : Z;
  q_retries : Z
}.

Abbreviation QueueItem := (Z * QueueEntry)%type.

Definition with_retries (n : Z) (e : QueueEntry) : QueueEntry :=
  mkEntry (q_sheet e) (q_action e) (q_data e) (q_rowIndex e) (q_timestamp e) n.

(** The [sync_queue] object store ([keyPath: 'id', autoIncrement: true]). *)
Record QueueStore : Type := mkQueue {
  q_keygen : Z;
  q_recs : gmap Z QueueEntry
}.

Definition item_le (a b : QueueItem) : Prop := a.1 <= b.1.

#[global] Instance item_le_dec : RelDecision item_le.
Proof. intros a b. unfold item_le. apply _. Defined.

Definition queue_add (q : QueueStore) (e : QueueEntry) : Exn + (Z * QueueStore) :=
  let k := q_keygen q in
  if bool_decide (is_Some (q_recs q !! k))
  then inl ConstraintError
  else inr (k, mkQueue (k + 1) (<[k := e]> (q_recs q))).

Definition queue_getAll (q : QueueStore) : list QueueItem :=
  merge_sort item_le (map_to_list (q_recs q)).

Definition queue_get (q : QueueStore) (id : Z) : option QueueItem :=
  (fun e => (id, e)) <$> q_recs q !! id.

Definition queue_put (q : QueueStore) (item : QueueItem) : QueueStore :=
  mkQueue (if q_keygen q <=? item.1 then item.1 + 1 else q_keygen q)
          (<[item.1 := item.2]> (q_recs q)).

Definition queue_delete (q : QueueStore) (id : Z) : QueueStore :=
  mkQueue (q_keygen q) (delete id (q_recs q)).

(** Request bodies of the write protocol. *)
Inductive Body : Type :=
  | BodyRows (sheet : string) (rows : list (list JsVal))
  | BodyRow (sheet : string) (rowIndex : JsVal) (row : list JsVal)
  | BodyIndex (sheet : string) (rowIndex : JsVal).

(** A request to the Apps Script gateway: the read URL with its optional
    [from] and [to] parameters, or a POST with its action. *)
Inductive Request : Type :=
  | Read (sheet : string) (from to : option string)
  | Post (action : string) (body : Body).

(** What [fetch] and [resp.json()] produce: a JSON body, of which the code
    reads [success] and [data] ([Some] when it is an array of rows), or a
    failure of the transport. *)
Inductive Response : Type :=
  | Json (success : JsVal) (data : option (list (list JsVal)))
  | Failure.

(** One line of the gateway log.  [c_item] is the id of the queue item on
    whose behalf the request was sent ([None] for a pull). *)
Record Call : Type := mkCall {
  c_item : option Z;
  c_req : Request;
  c_resp : Response
}.

(** Work launched without being awaited. *)
Inductive Task : Type :=
  | TaskSync
  | TaskPull (sheet : string) (from to : JsVal).

Record World : Type := mkWorld {
  stores : gmap string Store;      (* object stores with records, by name *)
  queue : QueueStore;              (* the sync_queue store *)
  calls : list Call;               (* gateway requests so far, oldest first *)
  ticks : nat;                     (* readings of the clock so far *)
  lastPull : gmap string Z;        (* _lastPullTimestamps *)
  spawned : list Task;             (* fire-and-forget work, oldest first *)
  online : bool;                   (* navigator.onLine *)
  scriptUrl : JsVal                (* this._scriptUrl *)
}.

Definition set_stores (f : gmap string Store -> gmap string Store) (w : World) : World :=
  mkWorld (f (stores w)) (queue w) (calls w) (ticks w) (lastPull w) (spawned w) (online w) (scriptUrl w).
Definition set_queue (f : QueueStore -> QueueStore) (w : World) : World :=
  mkWorld (stores w) (f (queue w)) (calls w) (ticks w) (lastPull w) (spawned w) (online w) (scriptUrl w).
Definition set_calls (f : list Call -> list Call) (w : World) : World :=
  mkWorld (stores w) (queue w) (f (calls w)) (ticks w) (lastPull w) (spawned w) (online w) (scriptUrl w).
Definition set_ticks (f : nat -> nat) (w : World) : World :=
  mkWorld (stores w) (queue w) (calls w) (f (ticks w)) (lastPull w) (spawned w) (online w) (scriptUrl w).
Definition set_lastPull (f : gmap string Z -> gmap string Z) (w : World) : World :=
  mkWorld (stores w) (queue w) (calls w) (ticks w) (f (lastPull w)) (spawned w) (online w) (scriptUrl w).
Definition set_spawned (f : list Task -> list Task) (w : World) : World :=
  mkWorld (stores w) (queue w) (calls w) (ticks w) (lastPull w) (f (spawned w)) (online w) (scriptUrl w).

(** [_openDB]: every store exists; only [profile] has key path ['key'] and
    no key generator. *)
Definition keyPath_of (sheet : string) : string :=
  if String.eqb sheet "profile" then "key" else "id".
Definition autoIncrement_of (sheet : string) : bool :=
  negb (String.eqb sheet "profile").

Definition table (w : World) (sheet : string) : Store :=
  default empty_store (stores w !! sheet).

(* ====================================================================== *)
(** ** The state-and-exception monad of asynchronous code *)
(* ====================================================================== *)

Inductive Result (A : Type) : Type :=
  | Ret (a : A)
  | Throw (e : Exn).
Arguments Ret {A} a.
Arguments Throw {A} e.

Definition M (A : Type) : Type := World -> Result A * World.

Definition ret {A} (a : A) : M A := fun w => (Ret a, w).
Definition throw {A} (e : Exn) : M A := fun w => (Throw e, w).
Definition bind {A B} (m : M A) (k : A -> M B) : M B :=
  fun w => match m w with
           | (Ret a, w') => k a w'
           | (Throw e, w') => (Throw e, w')
           end.
(** [try { m } catch (err) { h }]: what [m] did before it threw stays done. *)
Definition try_catch {A} (m : M A) (h : Exn -> M A) : M A :=
  fun w => match m w with
           | (Ret a, w') => (Ret a, w')
           | (Throw e, w') => h e w'
           end.
Definition lift {A} (r : Exn + A) : M A :=
  match r with
  | inl e => throw e
  | inr a => ret a
  end.
Definition reads {A} (f : World -> A) : M A := fun w => (Ret (f w), w).
Definition modify (f : World -> World) : M unit := fun w => (Ret tt, f w).

Declare Scope js_scope.
Delimit Scope js_scope with js.
Notation "x <~ m ;; k" := (bind m (fun x => k))
  (at level 100, m at next level, right associativity) : js_scope.
Notation "m ;;; k" := (bind m (fun _ => k))
  (at level 100, right associativity) : js_scope.
Local Open Scope js_scope.

(** [db.transaction(sheet, mode).objectStore(sheet)]. *)
Definition open_store (sheet : string) : M Store :=
  fun w => if includes sheet DATA_STORES
           then (Ret (table w sheet), w)
           else (Throw NotFoundError, w).

Definition commit (sheet : string) (s : Store) : M unit :=
  modify (set_stores <[sheet := s]>).

Definition idb_get (sheet : string) (key : JsVal) : M (option Obj) :=
  s <~ open_store sheet ;;
  lift (store_get (keyPath_of sheet) s key).

Definition idb_write (no_overwrite : bool) (sheet : string) (r : Obj) : M Key :=
  s <~ open_store sheet ;;
  ks <~ lift (store_write (keyPath_of sheet) (autoIncrement_of sheet) no_overwrite s r) ;;
  commit sheet ks.2 ;;;
  ret ks.1.

Definition idb_add := idb_write true.
Definition idb_put := idb_write false.

Definition idb_delete (sheet : string) (key : JsVal) : M unit :=
  s <~ open_store sheet ;;
  s' <~ lift (store_delete s key) ;;
  commit sheet s'.

(* ====================================================================== *)
(** ** DataStore *)
(* ====================================================================== *)

(** The [options] argument of [get]. *)
Record Options : Type := mkOptions {
  o_from : JsVal;
  o_to : JsVal;
  o_date : JsVal;
  o_limit : JsVal
}.

(** The natural-key columns per sheet, as in [_findMatchingRecord]. *)
Definition naturalKeys : list (string * list string) :=
  [ ("health",       ["date"]);
    ("medications",  ["date"; "name"; "time"]);
    ("appointments", ["date"; "time"; "doctor"]);
    ("fitness",      ["date"; "type"; "exercise"]);
    ("nutrition",    ["date"; "meal"; "food"]);
    ("water",        ["date"; "time"]);
    ("sleep",        ["date"]);
    ("mood",         ["date"; "time"]);
    ("meditation",   ["date"; "type"]);
    ("habits",       ["date"; "habit_id"]) ].

(** The callback of [keys.every(...)]. *)
Definition key_field_matches (cand obj : Obj) (k : string) : bool :=
  let a := if present (prop cand k) then js_String (prop cand k) else "" in
  let b := if present (prop obj k) then js_String (prop obj k) else "" in
  String.eqb a b.

Definition natural_key_matches (sheet : string) (cand obj : Obj) : bool :=
  let keys := default ["date"] (lookup_table sheet naturalKeys) in
  forallb (key_field_matches cand obj) keys.

(** The sync metadata [save] stamps on a new record. *)
Definition fresh_meta (now : Z) : Obj :=
  {[ "_synced" := VBool false; "_modified" := VNum now; "_deleted" := VBool false ]}.

(* ====================================================================== *)
(** ** Sample data *)
(* ====================================================================== *)

Module Examples.

(** A runtime whose strings never parse as numbers, a clock that starts at
    500 and advances by one at each reading, and a fixed calendar day. *)
Definition no_number (s : string) : option Z := None.
Definition ex_clock (n : nat) : Z := 500 + Z.of_nat n.
Definition ex_date (t : Z) : string := "2026-02-12".

(** Gateways.  Every one answers a read with no rows. *)
Definition gw_accepts (log : list Call) (req : Request) : Response :=
  match req with
  | Read _ _ _ => Json (VBool true) (Some [])
  | Post _ _ => Json (VBool true) None
  end.

Definition gw_rejects (log : list Call) (req : Request) : Response :=
  match req with
  | Read _ _ _ => Json (VBool true) (Some [])
  | Post _ _ => Json (VBool false) None
  end.

(** Rejects the first write it sees, then loses the connection. *)
Definition gw_flaky (log : list Call) (req : Request) : Response :=
  match req with
  | Read _ _ _ => Json (VBool true) (Some [])
  | Post _ _ => match log with [] => Json (VBool false) None | _ => Failure end
  end.

Definition water (id amount : Z) : Obj :=
  {[ "id" := VNum id; "date" := VStr "2026-02-12"; "time" := VStr "08:00";
     "amount_ml" := VNum amount;
     "_synced" := VBool false; "_modified" := VNum 100; "_deleted" := VBool false ]}.

Definition append_water (id : Z) (retries : Z) : QueueEntry :=
  mkEntry "water" "append" (water id 250) VNull 100 retries.

Definition water_store : Store :=
  mkStore 4 {[ KNum 1 := water 1 250; KNum 2 := water 2 250; KNum 3 := water 3 250 ]}.

(** Three pending appends. *)
Definition three_pending : World :=
  mkWorld {[ "water" := water_store ]}
          (mkQueue 4 {[ 1 := append_water 1 0; 2 := append_water 2 0; 3 := append_water 3 0 ]})
          [] 0%nat ∅ [] true (VStr "https://script.example/exec").

Definition append_request (id : Z) : Request :=
  Post "append" (BodyRows "water" [objectToRowArray "water" (water id 250)]).

Definition accepted (id : Z) : Call :=
  mkCall (Some id) (append_request id) (Json (VBool true) None).

(** A queue whose first entry has used up its retries. *)
Definition one_exhausted : World :=
  mkWorld {[ "water" := water_store ]}
          (mkQueue 3 {[ 1 := append_water 1 3; 2 := append_water 2 0 ]})
          [] 0%nat ∅ [] true (VStr "https://script.example/exec").

(** A queue with one new entry. *)
Definition one_pending : World :=
  mkWorld {[ "water" := water_store ]}
          (mkQueue 2 {[ 1 := append_water 1 0 ]})
          [] 0%nat ∅ [] true (VStr "https://script.example/exec").

(** A local [health] record of key 5 and a pulled row for the same day. *)
Definition health (weight modified : Z) (synced deleted : bool) : Obj :=
  {[ "id" := VNum 5; "date" := VStr "2026-02-12"; "weight_kg" := VNum weight;
     "_synced" := VBool synced; "_modified" := VNum modified;
     "_deleted" := VBool deleted ]}.

Definition health_world (r : Obj) : World :=
  mkWorld {[ "health" := mkStore 6 {[ KNum 5 := r ]} ]} (mkQueue 1 ∅)
          [] 0%nat ∅ [] true (VStr "https://script.example/exec").

Definition pulled_row : list JsVal := [VStr "2026-02-12"; VNum 71].

Definition pulled_obj : Obj := default ∅ (rowArrayToObject "health" pulled_row).

Definition health_columns : list string :=
  ["date"; "weight_kg"; "bmi"; "bp_systolic"; "bp_diastolic"; "heart_rate";
   "blood_sugar"; "notes"].

(** Three stored water records and an empty queue. *)
Definition three_stored : World :=
  mkWorld {[ "water" := water_store ]} (mkQueue 1 ∅)
          [] 0%nat ∅ [] true (VStr "https://script.example/exec").

Definition new_water : Obj :=
  {[ "date" := VStr "2026-02-12"; "time" := VStr "09:30"; "amount_ml" := VNum 500 ]}.


(** A fresh database, online, with a script URL. *)
Definition empty_world : World :=
  mkWorld ∅ (mkQueue 1 ∅) [] 0%nat ∅ [] true (VStr "https://script.example/exec").

(** A clock far enough from zero for a first pull to be due. *)
Definition late_clock (n : nat) : Z := 1000000 + Z.of_nat n.

(** A gateway that takes every write and loses every read. *)
Definition gw_reads_fail (log : list Call) (req : Request) : Response :=
  match req with
  | Read _ _ _ => Failure
  | Post _ _ => Json (VBool true) None
  end.

(** A change of the amount of a water record. *)
Definition more_water : Obj := {[ "amount_ml" := VNum 300 ]}.

End Examples.

Section Engine.
(** The environment: the runtime's StringToNumber, the successive
    readings of [Date.now()], the calendar date of a time stamp
    ([toISOString().split('T')[0]]) and the gateway, whose answer may
    depend on everything it was sent before. *)
Variable StringToNumber : string -> option Z.
Variable clock : nat -> Z.
Variable iso_date : Z -> string.
Variable gateway : list Call -> Request -> Response.

Definition Date_now : M Z :=
  fun w => (Ret (clock (ticks w)), set_ticks S w).

Definition isOnline : M bool := reads online.

(** [fetch(...)] followed by [resp.json()].  [who] only labels the log. *)
Definition fetch (who : option Z) (req : Request) : M (JsVal * option (list (list JsVal))) :=
  fun w =>
    let resp := gateway (calls w) req in
    let w' := set_calls (fun l => l ++ [mkCall who req resp]) w in
    match resp with
    | Json success data => (Ret (success, data), w')
    | Failure => (Throw NetworkError, w')
    end.

(** [if (this.isOnline() && this._scriptUrl) this.syncNow().catch(...)]:
    the cycle is launched, not awaited. *)
Definition trigger_sync : M unit :=
  on <~ isOnline ;;
  url <~ reads scriptUrl ;;
  if on && truthy url
  then modify (set_spawned (fun l => l ++ [TaskSync]))
  else ret tt.

(* -------------------------------------------------------------------- *)
(** *** Sync queue helpers *)

Definition _enqueue (sheet action : string) (data : Obj) (rowIndex : JsVal) : M unit :=
  now <~ Date_now ;;
  let entry := mkEntry sheet action data (js_or rowIndex VNull) now 0 in
  q <~ reads queue ;;
  kq <~ lift (queue_add q entry) ;;
  modify (set_queue (fun _ => kq.2)).

Definition _removeFromQueue (queueId : Z) : M unit :=
  modify (set_queue (fun q => queue_delete q queueId)).

(** [item.retries = (currentRetries || 0) + 1], when the item is still there. *)
Definition _incrementRetries (queueId : Z) (currentRetries : Z) : M unit :=
  q <~ reads queue ;;
  match queue_get q queueId with
  | Some item =>
      let retries := (if currentRetries =? 0 then 0 else currentRetries) + 1 in
      modify (set_queue (fun q => queue_put q (item.1, with_retries retries item.2)))
  | None => ret tt
  end.

(** [(sheet === 'profile') ? data.key : data.id]. *)
Definition record_key (sheet : string) (data : Obj) : JsVal :=
  if String.eqb sheet "profile" then prop data "key" else prop data "id".

Definition _markSynced (sheet : string) (data : Obj) : M unit :=
  if strict_eq (prop data "id") VUndef then ret tt
  else
    try_catch
      (rec <~ idb_get sheet (record_key sheet data) ;;
       match rec with
       | Some rec => idb_put sheet (<["_synced" := VBool true]> rec) ;;; ret tt
       | None => ret tt
       end)
      (fun _ => ret tt).

Definition _purgeDeleted (sheet : string) (data : Obj) : M unit :=
  let key := record_key sheet data in
  if strict_eq key VUndef then ret tt
  else try_catch (idb_delete sheet key) (fun _ => ret tt).

(* -------------------------------------------------------------------- *)
(** *** Push to Sheets *)

Definition _postToSheets (who : option Z) (action : string) (body : Body) : M bool :=
  json <~ fetch who (Post action body) ;;
  ret (strict_eq json.1 (VBool true)).

(** [rowIndex || data._rowIndex || data._sheetRowIndex || null]. *)
Definition push_rowIndex (e : QueueEntry) : JsVal :=
  js_or (js_or (js_or (q_rowIndex e) (prop (q_data e) "_rowIndex"))
               (prop (q_data e) "_sheetRowIndex")) VNull.

Definition _pushToSheets (queueItem : QueueItem) : M bool :=
  let who := Some queueItem.1 in
  let e := queueItem.2 in
  let sheet := q_sheet e in
  if String.eqb (q_action e) "append" then
    _postToSheets who "append" (BodyRows sheet [objectToRowArray sheet (q_data e)])
  else if String.eqb (q_action e) "update" then
    if String.eqb sheet "profile"
    then _postToSheets who "write" (BodyRows sheet [objectToRowArray sheet (q_data e)])
    else _postToSheets who "update"
           (BodyRow sheet (push_rowIndex e) (objectToRowArray sheet (q_data e)))
  else if String.eqb (q_action e) "delete" then
    _postToSheets who "delete" (BodyIndex sheet (push_rowIndex e))
  else ret false.

(* -------------------------------------------------------------------- *)
(** *** Pull from Sheets *)

Definition _findMatchingRecord (sheet : string) (obj : Obj) : M (option Obj) :=
  if String.eqb sheet "profile" then idb_get sheet (prop obj "key")
  else if String.eqb sheet "habit_defs" || String.eqb sheet "goals" then
    if truthy (prop obj "id") then idb_get sheet (prop obj "id") else ret None
  else if truthy (prop obj "date") && includes sheet DATE_INDEXED_STORES then
    s <~ open_store sheet ;;
    candidates <~ lift (index_getAll (keyPath_of sheet) s (prop obj "date") (prop obj "date")) ;;
    ret (List.find (fun cand => natural_key_matches sheet cand obj) candidates)
  else ret None.

(** The test under "keep whichever is newer". *)
Definition local_wins (m obj : Obj) : bool :=
  strict_eq (prop m "_synced") (VBool false) &&
  js_gt StringToNumber (prop m "_modified") (prop obj "_modified").

(** [Object.assign({}, match, obj, { id: match.id, _rowIndex: obj._sheetRowIndex })]. *)
Definition merged_record (m obj : Obj) : Obj :=
  assign (assign m obj)
    {[ "id" := prop m "id"; "_rowIndex" := prop obj "_sheetRowIndex" ]}.

(** The pulled row [i], decoded and stamped. *)
Definition stamp_row (i : nat) (now : Z) (obj : Obj) : Obj :=
  <["_deleted" := VBool false]>
    (<["_modified" := VNum now]>
       (<["_synced" := VBool true]>
          (<["_sheetRowIndex" := VNum (Z.of_nat i)]> obj))).

(** One turn of the loop of [_pullFromSheets]; the result tells whether
    [merged] is incremented. *)
Definition merge_row (sheet : string) (i : nat) (rowArr : list JsVal) : M bool :=
  match rowArrayToObject sheet rowArr with
  | None => ret false
  | Some obj =>
      now <~ Date_now ;;
      let obj := stamp_row i now obj in
      found <~ _findMatchingRecord sheet obj ;;
      match found with
      | None =>
          (if String.eqb sheet "profile" || String.eqb sheet "habit_defs"
              || String.eqb sheet "goals"
           then idb_put sheet obj
           else idb_add sheet obj) ;;;
          ret true
      | Some m =>
          if local_wins m obj then ret false
          else idb_put sheet (merged_record m obj) ;;; ret true
      end
  end.

Fixpoint pull_rows (sheet : string) (rows : list (list JsVal)) (i : nat) (merged : Z) : M Z :=
  match rows with
  | [] => ret merged
  | rowArr :: rest =>
      m <~ merge_row sheet i rowArr ;;
      pull_rows sheet rest (S i) (if m then merged + 1 else merged)
  end.

Definition url_param (v : JsVal) : option string :=
  if truthy v then Some (js_String v) else None.

Definition _pullFromSheets (sheet : string) (from to : JsVal) : M Z :=
  url <~ reads scriptUrl ;;
  if negb (truthy url) then ret 0
  else
    json <~ fetch None (Read sheet (url_param from) (url_param to)) ;;
    match json with
    | (success, Some data) =>
        if truthy success then pull_rows sheet data 0%nat 0 else ret 0
    | (_, None) => ret 0
    end.

(* -------------------------------------------------------------------- *)
(** *** CRUD: get / save / update / delete *)

Definition not_deleted (r : Obj) : bool := negb (truthy (prop r "_deleted")).

(** [results.slice(0, options.limit)] under [options.limit && options.limit > 0]. *)
Definition apply_limit (limit : JsVal) (results : list Obj) : list Obj :=
  if truthy limit && js_gt StringToNumber limit (VNum 0)
  then take (Z.to_nat (default 0 (to_number StringToNumber limit))) results
  else results.

(** The staleness gate of [get]: the background pull is launched, not
    awaited, and the time stamp of the range is refreshed at once. *)
Definition pull_if_stale (sheet : string) (from to : JsVal) : M unit :=
  on <~ isOnline ;;
  url <~ reads scriptUrl ;;
  if on && truthy url then
    let pullKey := sheet +:+ "|" +:+ js_String (js_or from (VStr ""))
                         +:+ "|" +:+ js_String (js_or to (VStr "")) in
    last <~ reads (fun w => default 0 (lastPull w !! pullKey)) ;;
    now <~ Date_now ;;
    if STALE_THRESHOLD_MS <? now - last then
      modify (set_spawned (fun l => l ++ [TaskPull sheet from to])) ;;;
      now' <~ Date_now ;;
      modify (set_lastPull <[pullKey := now']>)
    else ret tt
  else ret tt.

Definition get (sheet : string) (options : Options) : M (list Obj) :=
  store <~ open_store sheet ;;
  let from := js_or (js_or (o_date options) (o_from options)) VNull in
  let to := js_or (js_or (o_date options) (o_to options)) VNull in
  results <~ (if truthy from && truthy to && includes sheet DATE_INDEXED_STORES
              then lift (index_getAll (keyPath_of sheet) store from to)
              else ret (store_getAll (keyPath_of sheet) store)) ;;
  let results := List.filter not_deleted results in
  let results := apply_limit (o_limit options) results in
  pull_if_stale sheet from to ;;;
  ret results.

Definition save (sheet : string) (row : Obj) : M Obj :=
  now <~ Date_now ;;
  let record := assign row (fresh_meta now) in
  id <~ idb_add sheet record ;;
  let record := <["id" := key_val id]> record in
  _enqueue sheet "append" record VUndef ;;;
  trigger_sync ;;;
  ret record.

Definition update (sheet : string) (id : JsVal) (updates : Obj) : M (option Obj) :=
  existing <~ idb_get sheet id ;;
  match existing with
  | None => ret None
  | Some existing =>
      now <~ Date_now ;;
      let updated :=
        assign (assign existing updates)
               {[ "_synced" := VBool false; "_modified" := VNum now ]} in
      idb_put sheet updated ;;;
      _enqueue sheet "update" updated (js_or (prop updated "_rowIndex") VNull) ;;;
      trigger_sync ;;;
      ret (Some updated)
  end.

Definition soft_deleted (now : Z) (existing : Obj) : Obj :=
  assign existing
    {[ "_deleted" := VBool true; "_synced" := VBool false; "_modified" := VNum now ]}.

Definition delete (sheet : string) (id : JsVal) : M bool :=
  existing <~ idb_get sheet id ;;
  match existing with
  | None => ret false
  | Some existing =>
      now <~ Date_now ;;
      let deleted := soft_deleted now existing in
      idb_put sheet deleted ;;;
      _enqueue sheet "delete" deleted (js_or (prop deleted "_rowIndex") VNull) ;;;
      trigger_sync ;;;
      ret true
  end.

(* -------------------------------------------------------------------- *)
(** *** The sync cycle *)

(** The counters of [syncNow]. *)
Record Counters : Type := mkCounters { pushed : Z; errors : Z }.

(** The [try] block of the push loop for one item: the counters after it. *)
Definition push_attempt (item : QueueItem) (c : Counters) : M Counters :=
  success <~ _pushToSheets item ;;
  if success then
    _markSynced (q_sheet item.2) (q_data item.2) ;;;
    _removeFromQueue item.1 ;;;
    (if String.eqb (q_action item.2) "delete"
     then _purgeDeleted (q_sheet item.2) (q_data item.2)
     else ret tt) ;;;
    ret (mkCounters (pushed c + 1) (errors c))
  else
    _incrementRetries item.1 (q_retries item.2) ;;;
    ret (mkCounters (pushed c) (errors c + 1)).

(** One turn of the push loop: the counters and whether the loop goes on
    ([false] is the [break] of the [catch] block). *)
Definition push_item (item : QueueItem) (c : Counters) : M (Counters * bool) :=
  if MAX_RETRIES <=? q_retries item.2 then
    _removeFromQueue item.1 ;;;
    ret (mkCounters (pushed c) (errors c + 1), true)
  else
    try_catch
      (c' <~ push_attempt item c ;; ret (c', true))
      (fun _ =>
         _incrementRetries item.1 (q_retries item.2) ;;;
         ret (mkCounters (pushed c) (errors c + 1), false)).

Fixpoint push_loop (items : list QueueItem) (c : Counters) : M (Counters * bool) :=
  match items with
  | [] => ret (c, true)
  | item :: rest =>
      r <~ push_item item c ;;
      if r.2 then push_loop rest r.1 else ret r
  end.

(** Steps 1 and 2 of [syncNow]: read the queue, sort it by id, drain it. *)
Definition push_phase : M (Counters * bool) :=
  queueItems <~ reads (fun w => queue_getAll (queue w)) ;;
  push_loop (merge_sort item_le queueItems) (mkCounters 0 0).

Definition _today : M string :=
  now <~ Date_now ;; ret (iso_date now).

(** Step 3: pull today's rows of each date-indexed store; a pull that
    throws is swallowed. *)
Fixpoint pull_phase (pullStores : list string) (today : string) (pulled : Z) : M Z :=
  match pullStores with
  | [] => ret pulled
  | sheet :: rest =>
      pulled' <~ try_catch
                   (count <~ _pullFromSheets sheet (VStr today) (VStr today) ;;
                    ret (pulled + count))
                   (fun _ => ret pulled) ;;
      pull_phase rest today pulled'
  end.

(** The result [{ pushed, pulled, errors }]; the ['mylife-sync'] event
    dispatched to listeners carries the same value. *)
Record SyncResult : Type := mkResult { r_pushed : Z; r_pulled : Z; r_errors : Z }.

Definition syncNow : M SyncResult :=
  on <~ isOnline ;;
  url <~ reads scriptUrl ;;
  if negb on || negb (truthy url) then ret (mkResult 0 0 0)
  else
    c <~ push_phase ;;
    today <~ _today ;;
    pulled <~ pull_phase DATE_INDEXED_STORES today 0 ;;
    ret (mkResult (pushed c.1) pulled (errors c.1)).


(* -------------------------------------------------------------------- *)
(** *** The pending count *)


(* -------------------------------------------------------------------- *)
(** *** Profile (key-value) *)



Definition saveProfile (key value : JsVal) : M Obj :=
  now <~ Date_now ;;
  let record : Obj :=
    {[ "key" := key; "value" := value; "_synced" := VBool false;
       "_modified" := VNum now; "_deleted" := VBool false ]} in
  idb_put "profile" record ;;;
  _enqueue "profile" "update" record VUndef ;;;
  trigger_sync ;;;
  ret record.

(* ==================================================================== *)
(** ** Vocabulary of the statements *)
(* ==================================================================== *)

(** The request [_pushToSheets] sends for an entry, if any. *)
Definition push_request (e : QueueEntry) : option Request :=
  let sheet := q_sheet e in
  if String.eqb (q_action e) "append" then
    Some (Post "append" (BodyRows sheet [objectToRowArray sheet (q_data e)]))
  else if String.eqb (q_action e) "update" then
    if String.eqb sheet "profile"
    then Some (Post "write" (BodyRows sheet [objectToRowArray sheet (q_data e)]))
    else Some (Post "update"
                 (BodyRow sheet (push_rowIndex e) (objectToRowArray sheet (q_data e))))
  else if String.eqb (q_action e) "delete" then
    Some (Post "delete" (BodyIndex sheet (push_rowIndex e)))
  else None.

(** The world once [req] was sent on behalf of [who]. *)
Definition sent (who : option Z) (req : Request) (w : World) : World :=
  set_calls (fun l => l ++ [mkCall who req (gateway (calls w) req)]) w.

(** The queue once [_incrementRetries id current] ran. *)
Definition retried (id current : Z) (q : QueueStore) : QueueStore :=
  match queue_get q id with
  | Some item =>
      queue_put q (item.1, with_retries ((if current =? 0 then 0 else current) + 1) item.2)
  | None => q
  end.

(** Code that only writes object stores. *)
Definition stores_only {A} (m : M A) : Prop :=
  forall w, exists a st, m w = (Ret a, set_stores (fun _ => st) w).

(** What a drain of the items with ids [ids] may change: queue entries
    of those ids only, never adding one, and the gateway log grows by
    requests sent on behalf of those ids. *)
Definition push_frame (ids : list Z) (w w' : World) : Prop :=
  (forall k, k ∉ ids -> q_recs (queue w') !! k = q_recs (queue w) !! k) /\
  (forall k, is_Some (q_recs (queue w') !! k) -> is_Some (q_recs (queue w) !! k)) /\
  (exists new, calls w' = calls w ++ new /\
               Forall (fun c => exists k, c_item c = Some k /\ k ∈ ids) new) /\
  online w' = online w /\ scriptUrl w' = scriptUrl w.

(** Order of two lines of the gateway log that were sent for queue items. *)
Definition call_lt (a b : Call) : Prop :=
  match c_item a, c_item b with
  | Some x, Some y => x < y
  | _, _ => True
  end.

(** The items of the queue in the order of the push loop. *)
Definition snapshot (w : World) : list QueueItem :=
  merge_sort item_le (queue_getAll (queue w)).

(** [m] relates the world before to the world after by [P], whatever its
    outcome. *)
Definition preserves (P : World -> World -> Prop) {A} (m : M A) : Prop :=
  forall w r w', m w = (r, w') -> P w w'.

(** What a pull may change: the object stores and the clock; the queue is
    left alone and the log grows by requests sent for no queue item. *)
Definition pull_frame (w w' : World) : Prop :=
  queue w' = queue w /\
  (exists new, calls w' = calls w ++ new /\ Forall (fun c => c_item c = None) new) /\
  online w' = online w /\ scriptUrl w' = scriptUrl w.

(** The world a cycle leaves behind. *)
Definition next_world (w : World) : World := (syncNow w).2.

(** The drain of the cycle started in [w] gets to the entry [id]. *)
Definition drain_reaches (w : World) (id : Z) : Prop :=
  exists pre e post c1 w1,
    snapshot w = pre ++ (id, e) :: post /\
    push_loop pre (mkCounters 0 0) w = (Ret (c1, true), w1).

(** The drain of the cycle started in [w] gets to the entry [id], which
    has retries left, and its push does not succeed: the action is
    unknown, the transport fails, or the answer is not [success: true]. *)
Definition attempt_fails (w : World) (id : Z) : Prop :=
  exists pre e post c1 w1,
    snapshot w = pre ++ (id, e) :: post /\
    push_loop pre (mkCounters 0 0) w = (Ret (c1, true), w1) /\
    q_retries e < MAX_RETRIES /\
    match push_request e with
    | None => True
    | Some req =>
        match gateway (calls w1) req with
        | Failure => True
        | Json success _ => success <> VBool true
        end
    end.

Definition meta_fields : list string :=
  [ "_sheetRowIndex"; "_synced"; "_modified"; "_deleted"; "_rowIndex" ].

(** The queue once [_enqueue] added [e]. *)
Definition enqueued (e : QueueEntry) (q : QueueStore) : QueueStore :=
  mkQueue (q_keygen q + 1) (<[q_keygen q := e]> (q_recs q)).

(** Every id in the queue is below the generator: the next [add] gets a
    free id. *)
Definition queue_ahead (q : QueueStore) : Prop :=
  forall k, is_Some (q_recs q !! k) -> k < q_keygen q.


(** Two states of a queue entry that differ at most in [retries], which
    did not decrease. *)
Definition same_payload (e e' : QueueEntry) : Prop :=
  q_sheet e' = q_sheet e /\ q_action e' = q_action e /\ q_data e' = q_data e /\
  q_rowIndex e' = q_rowIndex e /\ q_timestamp e' = q_timestamp e /\
  q_retries e <= q_retries e'.

(** The requests a computation appended to the gateway log. *)
Definition new_calls (w w' : World) : list Call :=
  drop (length (calls w)) (calls w').

(** The key of [_lastPullTimestamps] for a sheet and a range. *)
Definition pull_key (sheet : string) (from to : JsVal) : string :=
  sheet +:+ "|" +:+ js_String (js_or from (VStr ""))
        +:+ "|" +:+ js_String (js_or to (VStr "")).

(** What reading code may change: the clock, the launched tasks and the
    pull time stamps, not the stores, the queue or the gateway log. *)
Definition read_only (w w' : World) : Prop :=
  stores w' = stores w /\ queue w' = queue w /\ calls w' = calls w /\
  online w' = online w /\ scriptUrl w' = scriptUrl w.

(** Every stored record is still there, unchanged. *)
Definition keeps_records (w w' : World) : Prop :=
  forall sheet k r, recs (table w sheet) !! k = Some r ->
                    recs (table w' sheet) !! k = Some r.

(* ==================================================================== *)
(** ** Facts about the row codec *)
(* ==================================================================== *)

Lemma fill_columns_lookup (f : string -> JsVal) cols :
  forall (pre : list JsVal) (obj : Obj) (c : string),
    fill_columns cols (length pre) (pre ++ map f cols) obj !! c =
    if bool_decide (c ∈ cols) then Some (f c) else obj !! c.
Proof.
  induction cols as [|d cs IH]; intros pre obj c.
  - rewrite bool_decide_eq_false_2; [done | apply not_elem_of_nil].
  - cbn [map fill_columns].
    replace (pre ++ f d :: map f cs) with ((pre ++ [f d]) ++ map f cs)
      by (rewrite <- app_assoc; reflexivity).
    replace (S (length pre)) with (length (pre ++ [f d]))
      by (rewrite length_app; simpl; lia).
    rewrite IH.
    destruct (decide (c ∈ cs)) as [Hin|Hnin].
    + rewrite !bool_decide_eq_true_2; [done | by apply list_elem_of_further | done].
    + rewrite (bool_decide_eq_false_2 (c ∈ cs)) by done.
      rewrite <- app_assoc; simpl.
      rewrite lookup_app_r by lia. rewrite Nat.sub_diag; simpl.
      destruct (decide (c = d)) as [->|Hne].
      * rewrite lookup_insert_eq.
        rewrite bool_decide_eq_true_2; [done | apply list_elem_of_here].
      * rewrite lookup_insert_ne by done.
        rewrite bool_decide_eq_false_2; [done |].
        intros Hc. apply elem_of_cons in Hc as [?|?]; done.
Qed.

(** C10. For every sheet of the column table and every object whose value
    at each column of the sheet is neither [undefined] nor [null], decoding
    the encoded row gives an object that agrees with the original on every
    column of the sheet. *)
Theorem row_codec_roundtrip (sheet : string) (cols : list string) (obj : Obj) :
  lookup_table sheet COLUMNS = Some cols ->
  (forall c, c ∈ cols -> prop obj c <> VUndef /\ prop obj c <> VNull) ->
  exists obj', rowArrayToObject sheet (objectToRowArray sheet obj) = Some obj' /\
               forall c, c ∈ cols -> prop obj' c = prop obj c.
Proof.
  intros Hcols Hdef.
  unfold rowArrayToObject, objectToRowArray. rewrite Hcols.
  eexists; split; [reflexivity|].
  intros c Hc. unfold prop at 1.
  pose proof (fill_columns_lookup
    (fun c => if present (prop obj c) then prop obj c else VStr "") cols [] ∅ c) as E.
  simpl in E. rewrite E.
  rewrite bool_decide_eq_true_2 by done. simpl.
  destruct (Hdef c Hc) as [Hu Hn].
  unfold present, strict_eq.
  rewrite !bool_decide_eq_false_2 by done. reflexivity.
Qed.

(* ==================================================================== *)
(** ** Facts about the push phase *)
(* ==================================================================== *)

Lemma _pushToSheets_request id e w :
  _pushToSheets (id, e) w =
  match push_request e with
  | Some req =>
      match gateway (calls w) req with
      | Json success _ => (Ret (strict_eq success (VBool true)), sent (Some id) req w)
      | Failure => (Throw NetworkError, sent (Some id) req w)
      end
  | None => (Ret false, w)
  end.
Proof.
  unfold _pushToSheets, push_request, _postToSheets, bind, fetch, ret, sent; simpl.
  repeat case_match; simplify_eq; try reflexivity.
Qed.

Lemma _incrementRetries_retried id current w :
  _incrementRetries id current w = (Ret tt, set_queue (retried id current) w).
Proof.
  unfold _incrementRetries, retried, bind, reads, modify, ret, set_queue; simpl.
  destruct (queue_get (queue w) id); simpl; [reflexivity|].
  destruct w; reflexivity.
Qed.

Lemma set_stores_id w : set_stores (fun _ => stores w) w = w.
Proof. destruct w; reflexivity. Qed.

Ltac close_stores_only :=
  match goal with
  | |- exists _ _, (Ret _, ?v) = (Ret _, set_stores _ ?v) =>
      exists tt, (stores v); by rewrite set_stores_id
  | |- _ => by eexists tt, _
  end.

Lemma _markSynced_stores_only sheet data : stores_only (_markSynced sheet data).
Proof.
  intros w. unfold _markSynced.
  unfold idb_get, idb_put, idb_write, open_store, commit, lift.
  unfold try_catch, bind, modify, ret, throw.
  repeat (case_match; simplify_eq); close_stores_only.
Qed.

Lemma _purgeDeleted_stores_only sheet data : stores_only (_purgeDeleted sheet data).
Proof.
  intros w. unfold _purgeDeleted.
  unfold idb_delete, open_store, commit, lift.
  unfold try_catch, bind, modify, ret, throw.
  repeat (case_match; simplify_eq); close_stores_only.
Qed.

(* -------------------------------------------------------------------- *)
(** *** One turn of the push loop, case by case *)

Lemma set_queue_set_stores f g w :
  set_queue f (set_stores g w) = set_stores g (set_queue f w).
Proof. destruct w; reflexivity. Qed.

Lemma set_stores_set_stores (a b : gmap string Store) w :
  set_stores (fun _ => a) (set_stores (fun _ => b) w) = set_stores (fun _ => a) w.
Proof. destruct w; reflexivity. Qed.

Lemma push_item_exhausted id e c w :
  MAX_RETRIES <= q_retries e ->
  push_item (id, e) c w =
  (Ret (mkCounters (pushed c) (errors c + 1), true),
   set_queue (fun q => queue_delete q id) w).
Proof.
  intros H. unfold push_item; simpl.
  destruct (Z.leb_spec MAX_RETRIES (q_retries e)); [reflexivity | lia].
Qed.

Lemma push_item_fault id e c w req :
  q_retries e < MAX_RETRIES ->
  push_request e = Some req ->
  gateway (calls w) req = Failure ->
  push_item (id, e) c w =
  (Ret (mkCounters (pushed c) (errors c + 1), false),
   set_queue (retried id (q_retries e)) (sent (Some id) req w)).
Proof.
  intros Hr Hreq Hgw. unfold push_item; simpl.
  destruct (Z.leb_spec MAX_RETRIES (q_retries e)); [lia|].
  unfold try_catch, push_attempt, bind at 1 2.
  rewrite _pushToSheets_request, Hreq, Hgw.
  unfold bind. rewrite _incrementRetries_retried. reflexivity.
Qed.

Lemma push_item_rejected id e c w req success data :
  q_retries e < MAX_RETRIES ->
  push_request e = Some req ->
  gateway (calls w) req = Json success data ->
  success <> VBool true ->
  push_item (id, e) c w =
  (Ret (mkCounters (pushed c) (errors c + 1), true),
   set_queue (retried id (q_retries e)) (sent (Some id) req w)).
Proof.
  intros Hr Hreq Hgw Hs. unfold push_item; simpl.
  destruct (Z.leb_spec MAX_RETRIES (q_retries e)); [lia|].
  unfold try_catch, push_attempt, bind at 1 2.
  rewrite _pushToSheets_request, Hreq, Hgw.
  unfold strict_eq. rewrite bool_decide_eq_false_2 by done.
  unfold bind. rewrite _incrementRetries_retried. reflexivity.
Qed.

Lemma push_item_unknown_action id e c w :
  q_retries e < MAX_RETRIES ->
  push_request e = None ->
  push_item (id, e) c w =
  (Ret (mkCounters (pushed c) (errors c + 1), true),
   set_queue (retried id (q_retries e)) w).
Proof.
  intros Hr Hreq. unfold push_item; simpl.
  destruct (Z.leb_spec MAX_RETRIES (q_retries e)); [lia|].
  unfold try_catch, push_attempt, bind at 1 2.
  rewrite _pushToSheets_request, Hreq.
  unfold bind. rewrite _incrementRetries_retried. reflexivity.
Qed.

Lemma push_item_accepted id e c w req data :
  q_retries e < MAX_RETRIES ->
  push_request e = Some req ->
  gateway (calls w) req = Json (VBool true) data ->
  exists st,
    push_item (id, e) c w =
    (Ret (mkCounters (pushed c + 1) (errors c), true),
     set_stores (fun _ => st)
       (set_queue (fun q => queue_delete q id) (sent (Some id) req w))).
Proof.
  intros Hr Hreq Hgw. unfold push_item; simpl.
  destruct (Z.leb_spec MAX_RETRIES (q_retries e)); [lia|].
  unfold try_catch, push_attempt, bind at 1 2.
  rewrite _pushToSheets_request, Hreq, Hgw.
  unfold strict_eq. rewrite bool_decide_eq_true_2 by done.
  cbn [fst snd]. unfold bind at 1.
  destruct (_markSynced_stores_only (q_sheet e) (q_data e) (sent (Some id) req w))
    as ([] & st1 & ->).
  unfold bind at 1. unfold _removeFromQueue at 1, modify at 1.
  rewrite set_queue_set_stores.
  unfold bind at 1.
  destruct (String.eqb (q_action e) "delete").
  - destruct (_purgeDeleted_stores_only (q_sheet e) (q_data e)
      (set_stores (fun _ => st1)
         (set_queue (fun q => queue_delete q id) (sent (Some id) req w))))
      as ([] & st2 & ->).
    rewrite set_stores_set_stores. by exists st2.
  - by exists st1.
Qed.

Lemma push_item_cases id e c w :
  (MAX_RETRIES <= q_retries e /\
   push_item (id, e) c w =
     (Ret (mkCounters (pushed c) (errors c + 1), true),
      set_queue (fun q => queue_delete q id) w)) \/
  (q_retries e < MAX_RETRIES /\ push_request e = None /\
   push_item (id, e) c w =
     (Ret (mkCounters (pushed c) (errors c + 1), true),
      set_queue (retried id (q_retries e)) w)) \/
  (exists req, q_retries e < MAX_RETRIES /\ push_request e = Some req /\
     ((gateway (calls w) req = Failure /\
       push_item (id, e) c w =
         (Ret (mkCounters (pushed c) (errors c + 1), false),
          set_queue (retried id (q_retries e)) (sent (Some id) req w))) \/
      (exists success data,
          gateway (calls w) req = Json success data /\ success <> VBool true /\
          push_item (id, e) c w =
            (Ret (mkCounters (pushed c) (errors c + 1), true),
             set_queue (retried id (q_retries e)) (sent (Some id) req w))) \/
      (exists data st,
          gateway (calls w) req = Json (VBool true) data /\
          push_item (id, e) c w =
            (Ret (mkCounters (pushed c + 1) (errors c), true),
             set_stores (fun _ => st)
               (set_queue (fun q => queue_delete q id) (sent (Some id) req w)))))).
Proof.
  destruct (Z.le_gt_cases MAX_RETRIES (q_retries e)) as [Hge|Hlt].
  { left. split; [done|]. by apply push_item_exhausted. }
  right. destruct (push_request e) as [req|] eqn:Hreq.
  2:{ left. repeat split; try done. by apply push_item_unknown_action. }
  right. exists req. repeat split; try done.
  destruct (gateway (calls w) req) as [success data|] eqn:Hgw.
  - destruct (decide (success = VBool true)) as [->|Hne].
    + right; right.
      destruct (push_item_accepted id e c w req data) as [st Hst]; try done.
      by exists data, st.
    + right; left. exists success, data. repeat split; try done.
      by eapply push_item_rejected.
  - left. split; [done|]. by apply push_item_fault.
Qed.

(** [_incrementRetries] rewrites the one entry, when it is still queued. *)
Lemma retried_lookup id current q k :
  q_recs (retried id current q) !! k =
  if decide (k = id) then with_retries (current + 1) <$> q_recs q !! id
  else q_recs q !! k.
Proof.
  unfold retried, queue_get.
  replace ((if current =? 0 then 0 else current) + 1) with (current + 1)
    by (destruct (Z.eqb_spec current 0); lia).
  destruct (q_recs q !! id) as [e|] eqn:He; simpl.
  - destruct (decide (k = id)) as [->|Hne].
    + by rewrite lookup_insert_eq.
    + by rewrite lookup_insert_ne.
  - destruct (decide (k = id)) as [->|Hne]; done.
Qed.

Lemma push_frame_refl ids w : push_frame ids w w.
Proof.
  repeat split; try done. exists []. by rewrite app_nil_r.
Qed.

Lemma push_frame_trans ids1 ids2 w1 w2 w3 :
  push_frame ids1 w1 w2 -> push_frame ids2 w2 w3 ->
  push_frame (ids1 ++ ids2) w1 w3.
Proof.
  intros (Ha1 & Ha2 & (n1 & Hn1 & Hf1) & Ho1 & Hu1)
         (Hb1 & Hb2 & (n2 & Hn2 & Hf2) & Ho2 & Hu2).
  repeat split.
  - intros k Hk. rewrite Hb1, Ha1; [done | |];
      intros ?; apply Hk, elem_of_app; auto.
  - intros k Hk. auto.
  - exists (n1 ++ n2). split; [by rewrite Hn2, Hn1, app_assoc|].
    apply Forall_app; split.
    + eapply Forall_impl; [exact Hf1|]. intros c (k & ? & ?). exists k.
      split; [done|]. apply elem_of_app; auto.
    + eapply Forall_impl; [exact Hf2|]. intros c (k & ? & ?). exists k.
      split; [done|]. apply elem_of_app; auto.
  - congruence.
  - congruence.
Qed.

Lemma queue_delete_lookup q id k :
  q_recs (queue_delete q id) !! k =
  if decide (k = id) then None else q_recs q !! k.
Proof.
  unfold queue_delete; simpl. destruct (decide (k = id)) as [->|?].
  - by rewrite lookup_delete_eq.
  - by rewrite lookup_delete_ne.
Qed.

Lemma push_item_frame item c w r w' :
  push_item item c w = (r, w') ->
  (exists a, r = Ret a) /\ push_frame [item.1] w w'.
Proof.
  destruct item as [id e]. intros Hrun.
  assert (Hone : forall req : Request,
    exists new, calls w ++ [mkCall (Some id) req (gateway (calls w) req)] = calls w ++ new /\
      Forall (fun c => exists k, c_item c = Some k /\ k ∈ [id]) new).
  { intros req. eexists; split; [reflexivity|].
    apply Forall_singleton. exists id. split; [done | apply list_elem_of_here]. }
  assert (Hnone : exists new, calls w = calls w ++ new /\
      Forall (fun c => exists k, c_item c = Some k /\ k ∈ [id]) new).
  { exists []. by rewrite app_nil_r. }
  assert (Hdel : forall k, k ∉ [id] ->
    q_recs (queue_delete (queue w) id) !! k = q_recs (queue w) !! k).
  { intros k Hk. rewrite queue_delete_lookup.
    destruct (decide (k = id)) as [->|]; [|done].
    exfalso; apply Hk, list_elem_of_here. }
  assert (Hdel' : forall k, is_Some (q_recs (queue_delete (queue w) id) !! k) ->
    is_Some (q_recs (queue w) !! k)).
  { intros k. rewrite queue_delete_lookup.
    destruct (decide (k = id)); [by intros [? ?] | done]. }
  assert (Hret : forall k, k ∉ [id] ->
    q_recs (retried id (q_retries e) (queue w)) !! k = q_recs (queue w) !! k).
  { intros k Hk. rewrite retried_lookup.
    destruct (decide (k = id)) as [->|]; [|done].
    exfalso; apply Hk, list_elem_of_here. }
  assert (Hret' : forall k, is_Some (q_recs (retried id (q_retries e) (queue w)) !! k) ->
    is_Some (q_recs (queue w) !! k)).
  { intros k. rewrite retried_lookup.
    destruct (decide (k = id)) as [->|]; [|done].
    destruct (q_recs (queue w) !! id); [eauto | by intros [? ?]]. }
  destruct (push_item_cases id e c w)
    as [[_ E] | [(_ & _ & E) | (req & _ & _ &
          [[_ E] | [(s & d & _ & _ & E) | (d & st & _ & E)]])]];
    rewrite E in Hrun; simplify_eq; (split; [eauto|]);
    unfold push_frame; cbn; repeat split; auto.
Qed.

(* -------------------------------------------------------------------- *)
(** *** The push loop *)

Lemma push_loop_total items : forall c w, exists a w', push_loop items c w = (Ret a, w').
Proof.
  induction items as [|item rest IH]; intros c w; simpl.
  - by eexists _, _.
  - unfold bind. destruct (push_item item c w) as [r w1] eqn:E.
    destruct (push_item_frame _ _ _ _ _ E) as [[[c1 go] ->] _].
    simpl. destruct go; [apply IH | by eexists _, _].
Qed.

Lemma push_loop_frame items : forall c w r w',
  push_loop items c w = (r, w') -> push_frame (items.*1) w w'.
Proof.
  induction items as [|item rest IH]; intros c w r w' Hrun; simpl in *.
  - unfold ret in Hrun. simplify_eq. apply push_frame_refl.
  - unfold bind in Hrun. destruct (push_item item c w) as [r1 w1] eqn:E.
    destruct (push_item_frame _ _ _ _ _ E) as [[[c1 go] ->] Hf].
    simpl in Hrun. destruct go.
    + apply (push_frame_trans [item.1] (rest.*1) w w1 w'); [done|].
      by eapply IH.
    + unfold ret in Hrun. simplify_eq.
      apply (push_frame_trans [item.1] (rest.*1) w w' w'); [done|].
      apply push_frame_refl.
Qed.

(** A drain that went through a prefix without a [break] goes on with
    the rest. *)
Lemma push_loop_app pre rest : forall c w c1 w1,
  push_loop pre c w = (Ret (c1, true), w1) ->
  push_loop (pre ++ rest) c w = push_loop rest c1 w1.
Proof.
  induction pre as [|item pre IH]; intros c w c1 w1 Hrun; simpl in *.
  - unfold ret in Hrun. by simplify_eq.
  - unfold bind in *. destruct (push_item item c w) as [r w2] eqn:E.
    destruct (push_item_frame _ _ _ _ _ E) as [[[c2 go] ->] _].
    simpl in *. destruct go.
    + by apply IH.
    + unfold ret in Hrun. simplify_eq.
Qed.

Lemma push_loop_calls_sorted items :
  StronglySorted Z.lt (items.*1) ->
  forall c w r w',
    push_loop items c w = (r, w') ->
    exists new, calls w' = calls w ++ new /\
                Forall (fun c => exists k, c_item c = Some k /\ k ∈ items.*1) new /\
                StronglySorted call_lt new.
Proof.
  induction items as [|item rest IH]; intros Hs c w r w' Hrun; simpl in *.
  - unfold ret in Hrun. simplify_eq. exists []. rewrite app_nil_r.
    repeat split; constructor.
  - apply StronglySorted_inv in Hs as [Hs Hall].
    unfold bind in Hrun. destruct (push_item item c w) as [r1 w1] eqn:E.
    destruct (push_item_frame _ _ _ _ _ E)
      as [[[c1 go] ->] (_ & _ & (n1 & Hn1 & Hf1) & _)].
    assert (Hn1s : StronglySorted call_lt n1).
    { destruct item as [id e].
      destruct (push_item_cases id e c w)
        as [[_ E'] | [(_ & _ & E') | (req & _ & _ &
              [[_ E'] | [(s & d & _ & _ & E') | (d & st & _ & E')]])]];
        rewrite E' in E; simplify_eq; cbn in Hn1;
        first [ apply app_inv_head in Hn1
              | (assert (n1 = []) as ->
                   by (apply (app_inv_head (calls w)); by rewrite app_nil_r)) ];
        subst; repeat constructor. }
    simpl in Hrun. destruct go.
    + destruct (IH Hs _ _ _ _ Hrun) as (n2 & Hn2 & Hf2 & Hs2).
      exists (n1 ++ n2). split; [by rewrite Hn2, Hn1, app_assoc|]. split.
      * apply Forall_app; split.
        -- eapply Forall_impl; [exact Hf1|]. intros x (k & ? & Hk).
           exists k. split; [done|]. apply list_elem_of_singleton in Hk as ->.
           apply list_elem_of_here.
        -- eapply Forall_impl; [exact Hf2|]. intros x (k & ? & Hk).
           exists k. split; [done|]. by apply list_elem_of_further.
      * apply StronglySorted_app_2; [|done|done].
        intros x1 x2 Hx1 Hx2. unfold call_lt.
        rewrite Forall_forall in Hf1, Hf2.
        destruct (Hf1 _ Hx1) as (k1 & -> & Hk1).
        destruct (Hf2 _ Hx2) as (k2 & -> & Hk2).
        apply list_elem_of_singleton in Hk1 as ->.
        rewrite Forall_forall in Hall. by apply Hall.
    + unfold ret in Hrun. simplify_eq. exists n1. repeat split; [done| |done].
      eapply Forall_impl; [exact Hf1|]. intros x (k & ? & Hk).
      exists k. split; [done|]. apply list_elem_of_singleton in Hk as ->.
      apply list_elem_of_here.
Qed.

(* -------------------------------------------------------------------- *)
(** *** The queue as [syncNow] reads it *)

Lemma snapshot_perm w : snapshot w ≡ₚ map_to_list (q_recs (queue w)).
Proof.
  unfold snapshot, queue_getAll. by rewrite !merge_sort_Permutation.
Qed.

Lemma snapshot_elem_of w id e :
  (id, e) ∈ snapshot w <-> q_recs (queue w) !! id = Some e.
Proof. rewrite snapshot_perm. apply elem_of_map_to_list. Qed.

Lemma snapshot_NoDup w : NoDup ((snapshot w).*1).
Proof. rewrite snapshot_perm. apply NoDup_fst_map_to_list. Qed.

#[local] Instance item_le_trans : Transitive item_le.
Proof. intros a b c; unfold item_le; lia. Qed.

#[local] Instance item_le_total : Total item_le.
Proof. intros a b; unfold item_le; lia. Qed.

Lemma sorted_nodup_strict (l : list Z) :
  StronglySorted Z.le l -> NoDup l -> StronglySorted Z.lt l.
Proof.
  induction 1 as [|a l Hs IH Hall]; intros Hnd; [constructor|].
  apply NoDup_cons in Hnd as [Hnin Hnd].
  constructor; [by apply IH|].
  rewrite Forall_forall in Hall |- *. intros x Hx.
  specialize (Hall x Hx).
  assert (x <> a) by (intros ->; done). lia.
Qed.

Lemma snapshot_sorted w : StronglySorted Z.lt ((snapshot w).*1).
Proof.
  apply sorted_nodup_strict; [|apply snapshot_NoDup].
  apply (StronglySorted_fmap fst item_le Z.le); [by intros x y|].
  apply StronglySorted_merge_sort; apply _.
Qed.

(* ==================================================================== *)
(** ** Facts about the pull phase *)
(* ==================================================================== *)

Section Preserves.
Context (P : World -> World -> Prop) `{!Reflexive P} `{!Transitive P}.

Lemma preserves_ret {A} (a : A) : preserves P (ret a).
Proof. intros w r w' E. unfold ret in E. by simplify_eq. Qed.

Lemma preserves_throw {A} e : preserves P (@throw A e).
Proof. intros w r w' E. unfold throw in E. by simplify_eq. Qed.

Lemma preserves_lift {A} (x : Exn + A) : preserves P (lift x).
Proof. destruct x; [apply preserves_throw | apply preserves_ret]. Qed.

Lemma preserves_reads {A} (f : World -> A) : preserves P (reads f).
Proof. intros w r w' E. unfold reads in E. by simplify_eq. Qed.

Lemma preserves_bind {A B} (m : M A) (k : A -> M B) :
  preserves P m -> (forall a, preserves P (k a)) -> preserves P (bind m k).
Proof.
  intros Hm Hk w r w' E. unfold bind in E.
  destruct (m w) as [[a|e] w1] eqn:E1.
  - etrans; [by eapply Hm | by eapply Hk].
  - simplify_eq. by eapply Hm.
Qed.

Lemma preserves_try_catch {A} (m : M A) (h : Exn -> M A) :
  preserves P m -> (forall e, preserves P (h e)) -> preserves P (try_catch m h).
Proof.
  intros Hm Hh w r w' E. unfold try_catch in E.
  destruct (m w) as [[a|e] w1] eqn:E1.
  - simplify_eq. by eapply Hm.
  - etrans; [by eapply Hm | by eapply Hh].
Qed.

Lemma preserves_open_store sheet : preserves P (open_store sheet).
Proof.
  intros w r w' E. unfold open_store in E. case_match; by simplify_eq.
Qed.
End Preserves.

#[local] Instance pull_frame_refl : Reflexive pull_frame.
Proof. intros w. repeat split; try done. exists []. by rewrite app_nil_r. Qed.

#[local] Instance pull_frame_trans : Transitive pull_frame.
Proof.
  intros w1 w2 w3 (Hq1 & (n1 & Hn1 & Hf1) & Ho1 & Hu1) (Hq2 & (n2 & Hn2 & Hf2) & Ho2 & Hu2).
  repeat split; try congruence.
  exists (n1 ++ n2). split; [by rewrite Hn2, Hn1, app_assoc | by apply Forall_app].
Qed.

Lemma pull_frame_Date_now : preserves pull_frame Date_now.
Proof.
  intros w r w' E. unfold Date_now in E. simplify_eq.
  repeat split; try done. exists []. simpl. by rewrite app_nil_r.
Qed.

Lemma pull_frame_commit sheet s : preserves pull_frame (commit sheet s).
Proof.
  intros w r w' E. unfold commit, modify in E. simplify_eq.
  repeat split; try done. exists []. simpl. by rewrite app_nil_r.
Qed.

Lemma pull_frame_fetch req : preserves pull_frame (fetch None req).
Proof.
  intros w r w' E. unfold fetch in E.
  assert (w' = sent None req w) as ->.
  { unfold sent. cbv zeta in E. destruct (gateway (calls w) req); by simplify_eq. }
  repeat split; try done. eexists; split; [reflexivity|]. by apply Forall_singleton.
Qed.

Ltac pull_frame_with known :=
  repeat first
    [ known
    | apply preserves_ret; apply _
    | apply preserves_throw; apply _
    | apply preserves_lift; apply _
    | apply preserves_reads; apply _
    | apply preserves_open_store; apply _
    | apply pull_frame_Date_now
    | apply pull_frame_commit
    | apply pull_frame_fetch
    | apply preserves_bind; [apply _ | | intros ?]
    | apply preserves_try_catch; [apply _ | | intros ?]
    | case_match ].

Ltac pull_frame_tac := pull_frame_with fail.

Lemma pull_frame_idb_get sheet key : preserves pull_frame (idb_get sheet key).
Proof. unfold idb_get. pull_frame_tac. Qed.

Lemma pull_frame_idb_write b sheet r : preserves pull_frame (idb_write b sheet r).
Proof. unfold idb_write. pull_frame_tac. Qed.

Lemma pull_frame_findMatchingRecord sheet obj :
  preserves pull_frame (_findMatchingRecord sheet obj).
Proof.
  unfold _findMatchingRecord.
  pull_frame_with ltac:(apply pull_frame_idb_get).
Qed.

Lemma pull_frame_merge_row sheet i rowArr :
  preserves pull_frame (merge_row sheet i rowArr).
Proof.
  unfold merge_row, idb_put, idb_add.
  pull_frame_with ltac:(first [ apply pull_frame_idb_write
                              | apply pull_frame_findMatchingRecord ]).
Qed.

Lemma pull_frame_pull_rows sheet rows :
  forall i merged, preserves pull_frame (pull_rows sheet rows i merged).
Proof.
  induction rows as [|row rest IH]; intros i merged; simpl.
  - pull_frame_tac.
  - apply preserves_bind; [apply _ | apply pull_frame_merge_row | intros ?; apply IH].
Qed.

Lemma pull_frame_pullFromSheets sheet from to :
  preserves pull_frame (_pullFromSheets sheet from to).
Proof.
  unfold _pullFromSheets.
  pull_frame_with ltac:(apply pull_frame_pull_rows).
Qed.

Lemma pull_frame_pull_phase pullStores today :
  forall pulled, preserves pull_frame (pull_phase pullStores today pulled).
Proof.
  induction pullStores as [|sheet rest IH]; intros pulled; simpl.
  - pull_frame_tac.
  - apply preserves_bind; [apply _ | | intros ?; apply IH].
    pull_frame_with ltac:(apply pull_frame_pullFromSheets).
Qed.

Lemma pull_phase_total pullStores today :
  forall pulled w, exists n w', pull_phase pullStores today pulled w = (Ret n, w').
Proof.
  induction pullStores as [|sheet rest IH]; intros pulled w; simpl.
  - by eexists _, _.
  - unfold bind at 1, try_catch, bind at 1.
    destruct (_pullFromSheets _ _ _ w) as [[n|e] w1]; simpl; apply IH.
Qed.

(* -------------------------------------------------------------------- *)
(** *** A whole cycle in terms of its push loop *)

Lemma bind_run {A B} (m : M A) (k : A -> M B) w a w1 :
  m w = (Ret a, w1) -> bind m k w = k a w1.
Proof. intros E. unfold bind. by rewrite E. Qed.

Lemma syncNow_run w c go w1 :
  online w = true -> truthy (scriptUrl w) = true ->
  push_loop (snapshot w) (mkCounters 0 0) w = (Ret (c, go), w1) ->
  exists pulled w',
    syncNow w = (Ret (mkResult (pushed c) pulled (errors c)), w') /\
    pull_frame w1 w'.
Proof.
  intros Hon Hurl Hpush.
  destruct (pull_phase_total DATE_INDEXED_STORES (iso_date (clock (ticks w1))) 0
              (set_ticks S w1)) as (n & w' & E).
  exists n, w'. split.
  - unfold syncNow.
    erewrite bind_run by reflexivity.
    erewrite bind_run by reflexivity.
    rewrite Hon, Hurl. cbn [negb orb].
    erewrite bind_run; [| unfold push_phase; erewrite bind_run by reflexivity;
                          fold (snapshot w); exact Hpush ].
    erewrite bind_run; [| unfold _today; erewrite bind_run by reflexivity;
                          reflexivity ].
    erewrite bind_run by exact E. reflexivity.
  - transitivity (set_ticks S w1).
    + eapply pull_frame_Date_now. reflexivity.
    + eapply pull_frame_pull_phase. exact E.
Qed.

(* ==================================================================== *)
(** ** The push phase: halting, continuing, giving up, ordering *)
(* ==================================================================== *)

Lemma snapshot_split w pre id e post :
  snapshot w = pre ++ (id, e) :: post ->
  (id ∉ pre.*1) /\ (id ∉ post.*1) /\
  q_recs (queue w) !! id = Some e /\
  (forall x, x ∈ post ->
     (x.1 ∉ pre.*1) /\ x.1 <> id /\ q_recs (queue w) !! x.1 = Some x.2).
Proof.
  intros Hs. pose proof (snapshot_NoDup w) as Hnd.
  rewrite Hs, fmap_app, fmap_cons in Hnd. simpl in Hnd.
  apply NoDup_app in Hnd as (_ & Hdisj & Hnd').
  apply NoDup_cons in Hnd' as [Hid _].
  split; [|split; [done|split]].
  - intros Hin. apply (Hdisj _ Hin), list_elem_of_here.
  - apply snapshot_elem_of. rewrite Hs. apply elem_of_app; right.
    apply list_elem_of_here.
  - intros [k x] Hx; simpl. split; [|split].
    + intros Hin. apply (Hdisj _ Hin), list_elem_of_further.
      by apply (list_elem_of_fmap_2 fst) in Hx.
    + intros ->. apply Hid. by apply (list_elem_of_fmap_2 fst) in Hx.
    + apply snapshot_elem_of. rewrite Hs. apply elem_of_app; right.
      by apply list_elem_of_further.
Qed.

(** C1. A drain reaches entry [e] (everything before it in id order was
    processed without a halt) and sending it fails in the transport.
    Then the cycle counts one more error, the entry stays queued, with
    [retries] one more than before and every other field as it was,
    every later entry stays queued as it was, and after the failed
    request the log of the cycle holds pull requests only: nothing is
    sent for a later entry. *)
Theorem syncNow_halts_on_network_fault w pre id e post c1 w1 req :
  online w = true -> truthy (scriptUrl w) = true ->
  snapshot w = pre ++ (id, e) :: post ->
  push_loop pre (mkCounters 0 0) w = (Ret (c1, true), w1) ->
  q_retries e < MAX_RETRIES ->
  push_request e = Some req ->
  gateway (calls w1) req = Failure ->
  exists res w' pulls,
    syncNow w = (Ret res, w') /\
    r_errors res = errors c1 + 1 /\ r_pushed res = pushed c1 /\
    (exists e', q_recs (queue w') !! id = Some e' /\
                q_retries e' = q_retries e + 1 /\
                q_sheet e' = q_sheet e /\ q_action e' = q_action e /\
                q_data e' = q_data e /\ q_rowIndex e' = q_rowIndex e /\
                q_timestamp e' = q_timestamp e) /\
    (forall x, x ∈ post -> q_recs (queue w') !! x.1 = Some x.2) /\
    calls w' = calls w1 ++ mkCall (Some id) req Failure :: pulls /\
    Forall (fun c => c_item c = None) pulls /\
    (forall x c, x ∈ post -> c ∈ drop (length (calls w)) (calls w') ->
                 c_item c <> Some x.1).
Proof.
  intros Hon Hurl Hsnap Hpre Hr Hreq Hgw.
  destruct (snapshot_split _ _ _ _ _ Hsnap) as (Hpre_id & Hpost_id & Hq & Hpost).
  pose proof (push_loop_frame _ _ _ _ _ Hpre) as (Hf1 & _ & (n1 & Hn1 & Hall1) & _ & _).
  assert (Hloop : push_loop (snapshot w) (mkCounters 0 0) w =
    (Ret (mkCounters (pushed c1) (errors c1 + 1), false),
     set_queue (retried id (q_retries e)) (sent (Some id) req w1))).
  { rewrite Hsnap, (push_loop_app _ _ _ _ _ _ Hpre). simpl.
    erewrite bind_run by (by apply push_item_fault). reflexivity. }
  destruct (syncNow_run _ _ _ _ Hon Hurl Hloop)
    as (pulled & w' & Hsync & Hq' & (pulls & Hcalls & Hpulls) & _ & _).
  exists (mkResult (pushed c1) pulled (errors c1 + 1)), w', pulls.
  split; [exact Hsync|]. split; [done|]. split; [done|].
  assert (Hlog : calls w' = calls w1 ++ mkCall (Some id) req Failure :: pulls).
  { rewrite Hcalls. cbn. rewrite Hgw, <- app_assoc. reflexivity. }
  split; [|split; [|split; [exact Hlog|split; [exact Hpulls|]]]].
  - exists (with_retries (q_retries e + 1) e). split; [|by repeat split].
    rewrite Hq'. cbn. rewrite retried_lookup, decide_True by done.
    rewrite (Hf1 _ Hpre_id), Hq. reflexivity.
  - intros x Hx. destruct (Hpost x Hx) as (Hx1 & Hx2 & Hx3).
    rewrite Hq'. cbn. rewrite retried_lookup, decide_False by done.
    by rewrite (Hf1 _ Hx1).
  - intros x c Hx Hc Htag. destruct (Hpost x Hx) as (Hx1 & Hx2 & _).
    rewrite Hlog, Hn1, <- app_assoc, drop_app_length in Hc.
    apply elem_of_app in Hc as [Hc|Hc].
    + rewrite Forall_forall in Hall1. destruct (Hall1 _ Hc) as (k & Hk & Hin).
      rewrite Hk in Htag. by simplify_eq.
    + apply elem_of_cons in Hc as [->|Hc]; [simpl in Htag; by simplify_eq|].
      rewrite Forall_forall in Hpulls. rewrite (Hpulls _ Hc) in Htag. done.
Qed.

(** The world after a whole cycle whose push loop ended in [wp]. *)
Lemma syncNow_after_push w r wp :
  online w = true -> truthy (scriptUrl w) = true ->
  push_loop (snapshot w) (mkCounters 0 0) w = (r, wp) ->
  exists c go pulled w',
    r = Ret (c, go) /\
    syncNow w = (Ret (mkResult (pushed c) pulled (errors c)), w') /\
    pull_frame wp w'.
Proof.
  intros Hon Hurl Hloop.
  destruct (push_loop_total (snapshot w) (mkCounters 0 0) w) as ([c go] & wp' & E).
  rewrite E in Hloop. simplify_eq.
  destruct (syncNow_run _ _ _ _ Hon Hurl E) as (pulled & w' & ? & ?).
  by exists c, go, pulled, w'.
Qed.

Lemma push_loop_errors_mono items : forall c w c' go w',
  push_loop items c w = (Ret (c', go), w') -> errors c <= errors c'.
Proof.
  induction items as [|[k x] rest IH]; intros c w c' go w' Hrun; simpl in Hrun.
  - unfold ret in Hrun. simplify_eq. lia.
  - unfold bind in Hrun.
    destruct (push_item_cases k x c w)
      as [[_ E] | [(_ & _ & E) | (rq & _ & _ &
            [[_ E] | [(s & d & _ & _ & E) | (d & st & _ & E)]])]];
      rewrite E in Hrun; simpl in Hrun;
      first [ apply IH in Hrun; simpl in Hrun; lia
            | unfold ret in Hrun; simplify_eq; simpl; lia ].
Qed.

(** C6. A drain reaches entry [e] and the gateway answers its request
    with a JSON body whose [success] is not [true].  Then the entry
    stays queued, with [retries] one more than before and every other
    field as it was (right after its turn and when the cycle ends), one
    error is counted, and the drain goes on with the entries after it in
    the same cycle: the request of the next entry that still has retries
    left is sent. *)
Theorem syncNow_continues_after_rejection w pre id e post c1 w1 req success data :
  online w = true -> truthy (scriptUrl w) = true ->
  snapshot w = pre ++ (id, e) :: post ->
  push_loop pre (mkCounters 0 0) w = (Ret (c1, true), w1) ->
  q_retries e < MAX_RETRIES ->
  push_request e = Some req ->
  gateway (calls w1) req = Json success data ->
  success <> VBool true ->
  let w2 := set_queue (retried id (q_retries e)) (sent (Some id) req w1) in
  push_loop (snapshot w) (mkCounters 0 0) w =
    push_loop post (mkCounters (pushed c1) (errors c1 + 1)) w2 /\
  exists e',
    q_retries e' = q_retries e + 1 /\
    q_sheet e' = q_sheet e /\ q_action e' = q_action e /\
    q_data e' = q_data e /\ q_rowIndex e' = q_rowIndex e /\
    q_timestamp e' = q_timestamp e /\
    q_recs (queue w2) !! id = Some e' /\
  exists res w',
    syncNow w = (Ret res, w') /\
    q_recs (queue w') !! id = Some e' /\
    errors c1 + 1 <= r_errors res /\
    (forall id2 e2 post' req2,
       post = (id2, e2) :: post' ->
       q_retries e2 < MAX_RETRIES ->
       push_request e2 = Some req2 ->
       mkCall (Some id2) req2 (gateway (calls w2) req2) ∈ calls w').
Proof.
  intros Hon Hurl Hsnap Hpre Hr Hreq Hgw Hne w2.
  destruct (snapshot_split _ _ _ _ _ Hsnap) as (Hpre_id & Hpost_id & Hq & Hpost).
  pose proof (push_loop_frame _ _ _ _ _ Hpre) as (Hf1 & _).
  assert (Hloop : push_loop (snapshot w) (mkCounters 0 0) w =
                  push_loop post (mkCounters (pushed c1) (errors c1 + 1)) w2).
  { rewrite Hsnap, (push_loop_app _ _ _ _ _ _ Hpre). simpl.
    erewrite bind_run by (by eapply push_item_rejected). reflexivity. }
  assert (Hq2 : q_recs (queue w2) !! id = Some (with_retries (q_retries e + 1) e)).
  { subst w2. cbn. rewrite retried_lookup, decide_True by done.
    by rewrite (Hf1 _ Hpre_id), Hq. }
  split; [exact Hloop|].
  exists (with_retries (q_retries e + 1) e).
  do 6 (split; [reflexivity|]). split; [exact Hq2|].
  destruct (push_loop post (mkCounters (pushed c1) (errors c1 + 1)) w2)
    as [r wp] eqn:Hrest.
  destruct (syncNow_after_push _ _ _ Hon Hurl Hloop)
    as (c & go & pulled & w' & -> & Hsync & Hq' & (pulls & Hpulls & _) & _).
  pose proof (push_loop_frame _ _ _ _ _ Hrest) as (Hf2 & _ & (n2 & Hn2 & _) & _).
  exists (mkResult (pushed c) pulled (errors c)), w'.
  split; [exact Hsync|]. split; [|split].
  - by rewrite Hq', (Hf2 _ Hpost_id).
  - simpl. apply push_loop_errors_mono in Hrest. simpl in Hrest. lia.
  - intros id2 e2 post' req2 -> Hr2 Hreq2.
    assert (Hin : mkCall (Some id2) req2 (gateway (calls w2) req2) ∈ calls wp).
    { simpl in Hrest. unfold bind in Hrest.
      destruct (push_item (id2, e2) (mkCounters (pushed c1) (errors c1 + 1)) w2)
        as [r3 w3] eqn:E3.
      assert (Hw3 : mkCall (Some id2) req2 (gateway (calls w2) req2) ∈ calls w3).
      { destruct (push_item_cases id2 e2 (mkCounters (pushed c1) (errors c1 + 1)) w2)
          as [[? _] | [(_ & ? & _) | (rq & _ & Hrq &
                [[_ E] | [(s & d & _ & _ & E) | (d & st & _ & E)]])]];
          [lia | congruence | | | ];
          rewrite E in E3; simplify_eq; cbn;
          apply elem_of_app; right; apply list_elem_of_here. }
      destruct (push_item_frame _ _ _ _ _ E3) as [[[c3 go3] ->] _].
      simpl in Hrest. destruct go3.
      - pose proof (push_loop_frame _ _ _ _ _ Hrest) as (_ & _ & (n3 & -> & _) & _).
        apply elem_of_app; by left.
      - unfold ret in Hrest. by simplify_eq. }
    rewrite Hpulls. apply elem_of_app; by left.
Qed.

(** A drain reaches an entry whose retries are at least [MAX_RETRIES]:
    the entry is removed, one error is counted, and the drain goes on
    with the next entry in a world where only the queue has changed;
    when the cycle ends the entry is not in the queue and no request of
    the cycle was sent on its behalf. *)
Lemma exhausted_entry_dropped w pre id e post c1 w1 :
  online w = true -> truthy (scriptUrl w) = true ->
  snapshot w = pre ++ (id, e) :: post ->
  push_loop pre (mkCounters 0 0) w = (Ret (c1, true), w1) ->
  MAX_RETRIES <= q_retries e ->
  let w2 := set_queue (fun q => queue_delete q id) w1 in
  push_loop (snapshot w) (mkCounters 0 0) w =
    push_loop post (mkCounters (pushed c1) (errors c1 + 1)) w2 /\
  exists res w',
    syncNow w = (Ret res, w') /\
    q_recs (queue w') !! id = None /\
    online w' = true /\ truthy (scriptUrl w') = true /\
    (forall c, c ∈ drop (length (calls w)) (calls w') -> c_item c <> Some id).
Proof.
  intros Hon Hurl Hsnap Hpre Hr w2.
  destruct (snapshot_split _ _ _ _ _ Hsnap) as (Hpre_id & Hpost_id & Hq & Hpost).
  pose proof (push_loop_frame _ _ _ _ _ Hpre)
    as (Hf1 & _ & (n1 & Hn1 & Hall1) & Ho1 & Hu1).
  assert (Hloop : push_loop (snapshot w) (mkCounters 0 0) w =
                  push_loop post (mkCounters (pushed c1) (errors c1 + 1)) w2).
  { rewrite Hsnap, (push_loop_app _ _ _ _ _ _ Hpre). simpl.
    erewrite bind_run by (by eapply push_item_exhausted). reflexivity. }
  split; [exact Hloop|].
  destruct (push_loop post (mkCounters (pushed c1) (errors c1 + 1)) w2)
    as [r wp] eqn:Hrest.
  destruct (syncNow_after_push _ _ _ Hon Hurl Hloop)
    as (c & go & pulled & w' & -> & Hsync & Hq' & (pulls & Hpulls & Hnone) & Ho3 & Hu3).
  pose proof (push_loop_frame _ _ _ _ _ Hrest)
    as (Hf2 & _ & (n2 & Hn2 & Hall2) & Ho2 & Hu2).
  exists (mkResult (pushed c) pulled (errors c)), w'.
  split; [exact Hsync|]. split; [|split; [|split]].
  - rewrite Hq', (Hf2 _ Hpost_id). subst w2. cbn.
    by rewrite lookup_delete_eq.
  - rewrite Ho3, Ho2. subst w2. cbn. by rewrite Ho1.
  - rewrite Hu3, Hu2. subst w2. cbn. by rewrite Hu1.
  - intros c0 Hc Htag.
    rewrite Hpulls, Hn2 in Hc. subst w2. cbn in Hc.
    rewrite Hn1, <- !app_assoc, drop_app_length in Hc.
    rewrite Forall_forall in Hall1, Hall2, Hnone.
    apply elem_of_app in Hc as [Hc|Hc]; [|apply elem_of_app in Hc as [Hc|Hc]].
    + destruct (Hall1 _ Hc) as (k & Hk & Hin). rewrite Hk in Htag. by simplify_eq.
    + destruct (Hall2 _ Hc) as (k & Hk & Hin). rewrite Hk in Htag. by simplify_eq.
    + rewrite (Hnone _ Hc) in Htag. done.
Qed.

(** Whatever happens to the entry a drain has reached, the rest of the
    cycle leaves it as that turn of the loop left it. *)
Lemma reached_entry_settled w pre id e post c1 w1 r2 w2 :
  online w = true -> truthy (scriptUrl w) = true ->
  snapshot w = pre ++ (id, e) :: post ->
  push_loop pre (mkCounters 0 0) w = (Ret (c1, true), w1) ->
  push_item (id, e) c1 w1 = (r2, w2) ->
  q_recs (queue (next_world w)) !! id = q_recs (queue w2) !! id /\
  online (next_world w) = true /\ truthy (scriptUrl (next_world w)) = true.
Proof.
  intros Hon Hurl Hsnap Hpre Hitem.
  destruct (snapshot_split _ _ _ _ _ Hsnap) as (Hpre_id & Hpost_id & Hq & Hpost).
  pose proof (push_loop_frame _ _ _ _ _ Hpre) as (_ & _ & _ & Ho1 & Hu1).
  destruct (push_item_frame _ _ _ _ _ Hitem) as [[[c2 go] ->] (_ & _ & _ & Ho2 & Hu2)].
  destruct (push_loop (snapshot w) (mkCounters 0 0) w) as [r wp] eqn:Hloop.
  assert (Hwp : q_recs (queue wp) !! id = q_recs (queue w2) !! id /\
                online wp = online w2 /\ scriptUrl wp = scriptUrl w2).
  { rewrite Hsnap, (push_loop_app _ _ _ _ _ _ Hpre) in Hloop. simpl in Hloop.
    erewrite bind_run in Hloop by exact Hitem. simpl in Hloop. destruct go.
    - pose proof (push_loop_frame _ _ _ _ _ Hloop) as (Hf & _ & _ & ? & ?).
      by rewrite (Hf _ Hpost_id).
    - unfold ret in Hloop. by simplify_eq. }
  destruct Hwp as (Hwq & Hwo & Hwu).
  destruct (syncNow_after_push _ _ _ Hon Hurl Hloop)
    as (c & go' & pulled & w' & -> & Hsync & Hq' & _ & Ho3 & Hu3).
  unfold next_world. rewrite Hsync. simpl.
  rewrite Hq', Ho3, Hu3, Hwo, Hwu, Ho2, Hu2, Ho1, Hu1. done.
Qed.

Lemma attempt_fails_step w id e :
  online w = true -> truthy (scriptUrl w) = true ->
  q_recs (queue w) !! id = Some e ->
  attempt_fails w id ->
  q_recs (queue (next_world w)) !! id = Some (with_retries (q_retries e + 1) e) /\
  online (next_world w) = true /\ truthy (scriptUrl (next_world w)) = true.
Proof.
  intros Hon Hurl Hq (pre & e' & post & c1 & w1 & Hsnap & Hpre & Hr & Hfail).
  destruct (snapshot_split _ _ _ _ _ Hsnap) as (Hpre_id & _ & Hq0 & _).
  assert (e' = e) as -> by congruence.
  pose proof (push_loop_frame _ _ _ _ _ Hpre) as (Hf1 & _).
  assert (exists go w2, push_item (id, e) c1 w1 =
            (Ret (mkCounters (pushed c1) (errors c1 + 1), go), w2) /\
          queue w2 = retried id (q_retries e) (queue w1)) as (go & w2 & Hitem & Hq2).
  { destruct (push_request e) as [req|] eqn:Hreq.
    - destruct (gateway (calls w1) req) as [s d|] eqn:Hgw.
      + eexists _, _. split; [by eapply push_item_rejected | reflexivity].
      + eexists _, _. split; [by eapply push_item_fault | reflexivity].
    - eexists _, _. split; [by eapply push_item_unknown_action | reflexivity]. }
  destruct (reached_entry_settled _ _ _ _ _ _ _ _ _ Hon Hurl Hsnap Hpre Hitem)
    as (-> & ? & ?).
  rewrite Hq2, retried_lookup, decide_True by done.
  by rewrite (Hf1 _ Hpre_id), Hq.
Qed.

(** Three failed attempts on an entry that [_enqueue] created leave it
    queued with [retries = 3]; the next drain that reaches it removes it
    and sends nothing for it. *)
Lemma fourth_drain_drops w0 id e0 :
  online w0 = true -> truthy (scriptUrl w0) = true ->
  q_recs (queue w0) !! id = Some e0 ->
  q_retries e0 = 0 ->
  let w1 := next_world w0 in
  let w2 := next_world w1 in
  let w3 := next_world w2 in
  let w4 := next_world w3 in
  attempt_fails w0 id -> attempt_fails w1 id -> attempt_fails w2 id ->
  drain_reaches w3 id ->
  q_recs (queue w3) !! id = Some (with_retries 3 e0) /\
  q_recs (queue w4) !! id = None /\
  (forall c, c ∈ drop (length (calls w3)) (calls w4) -> c_item c <> Some id).
Proof.
  intros Hon Hurl Hq Hr0 w1 w2 w3 w4 Hf0 Hf1 Hf2 Hreach.
  destruct (attempt_fails_step _ _ _ Hon Hurl Hq Hf0) as (Hq1 & Hon1 & Hurl1).
  fold w1 in Hq1, Hon1, Hurl1.
  destruct (attempt_fails_step _ _ _ Hon1 Hurl1 Hq1 Hf1) as (Hq2 & Hon2 & Hurl2).
  fold w2 in Hq2, Hon2, Hurl2.
  destruct (attempt_fails_step _ _ _ Hon2 Hurl2 Hq2 Hf2) as (Hq3 & Hon3 & Hurl3).
  fold w3 in Hq3, Hon3, Hurl3.
  assert (Hq3' : q_recs (queue w3) !! id = Some (with_retries 3 e0)).
  { rewrite Hq3. f_equal. unfold with_retries; simpl. f_equal. lia. }
  split; [exact Hq3'|].
  destruct Hreach as (pre & e & post & c1 & wr & Hsnap & Hpre).
  destruct (snapshot_split _ _ _ _ _ Hsnap) as (_ & _ & Hqe & _).
  assert (e = with_retries 3 e0) as -> by congruence.
  destruct (exhausted_entry_dropped _ _ _ _ _ _ _ Hon3 Hurl3 Hsnap Hpre)
    as (_ & res & w' & Hsync & Hgone & _ & _ & Hcalls).
  { simpl. unfold MAX_RETRIES. lia. }
  assert (Hw4 : w4 = w') by (subst w4; unfold next_world; by rewrite Hsync).
  rewrite Hw4. by split.
Qed.

(** C3. (1) When a drain reaches an entry whose retries are at least
    [MAX_RETRIES], the cycle removes the entry from the queue, counts
    one error, sends nothing for it and goes on with the next entry.
    (2) Hence an entry created with [retries = 0] whose push failed in
    three cycles is gone from the queue after the fourth cycle whose
    drain reaches it, and that cycle sends nothing for it. *)
Theorem retry_exhaustion :
  (forall w pre id e post c1 w1,
     online w = true -> truthy (scriptUrl w) = true ->
     snapshot w = pre ++ (id, e) :: post ->
     push_loop pre (mkCounters 0 0) w = (Ret (c1, true), w1) ->
     MAX_RETRIES <= q_retries e ->
     let w2 := set_queue (fun q => queue_delete q id) w1 in
     push_loop (snapshot w) (mkCounters 0 0) w =
       push_loop post (mkCounters (pushed c1) (errors c1 + 1)) w2 /\
     exists res w',
       syncNow w = (Ret res, w') /\
       q_recs (queue w') !! id = None /\
       (forall c, c ∈ drop (length (calls w)) (calls w') -> c_item c <> Some id)) /\
  (forall w0 id e0,
     online w0 = true -> truthy (scriptUrl w0) = true ->
     q_recs (queue w0) !! id = Some e0 ->
     q_retries e0 = 0 ->
     let w1 := next_world w0 in
     let w2 := next_world w1 in
     let w3 := next_world w2 in
     let w4 := next_world w3 in
     attempt_fails w0 id -> attempt_fails w1 id -> attempt_fails w2 id ->
     drain_reaches w3 id ->
     q_recs (queue w3) !! id = Some (with_retries 3 e0) /\
     q_recs (queue w4) !! id = None /\
     (forall c, c ∈ drop (length (calls w3)) (calls w4) -> c_item c <> Some id)).
Proof.
  split.
  - intros w pre id e post c1 w1 Hon Hurl Hsnap Hpre Hr w2.
    destruct (exhausted_entry_dropped _ _ _ _ _ _ _ Hon Hurl Hsnap Hpre Hr)
      as (Hloop & res & w' & Hsync & Hgone & _ & _ & Hcalls).
    split; [exact Hloop|]. by exists res, w'.
  - apply fourth_drain_drops.
Qed.

Lemma StronglySorted_lookup_lt {A} (R : relation A) (l : list A) :
  StronglySorted R l ->
  forall (i j : nat) x y, (i < j)%nat -> l !! i = Some x -> l !! j = Some y -> R x y.
Proof.
  induction 1 as [|a l Hs IH Hall]; intros i j x y Hij Hi Hj.
  - by rewrite lookup_nil in Hi.
  - destruct j as [|j]; [lia|]. simpl in Hj.
    destruct i as [|i]; simpl in Hi.
    + simplify_eq. rewrite Forall_forall in Hall. apply Hall.
      by eapply list_elem_of_lookup_2.
    + eapply (IH i j); [lia|done|done].
Qed.

Lemma untagged_calls_sorted (l : list Call) :
  Forall (fun c => c_item c = None) l -> StronglySorted call_lt l.
Proof.
  induction 1 as [|c l Hc Hl IH]; constructor; [done|].
  eapply Forall_impl; [exact Hl|]. intros c' Hc'. unfold call_lt.
  by rewrite Hc.
Qed.

(** The requests a cycle adds to the gateway log, in the order sent:
    those of the push loop in ascending order of queue id, then pulls. *)
Lemma syncNow_calls_sorted w res w' :
  syncNow w = (res, w') ->
  exists new, calls w' = calls w ++ new /\ StronglySorted call_lt new.
Proof.
  intros Hsync.
  destruct (online w) eqn:Hon; [destruct (truthy (scriptUrl w)) eqn:Hurl|].
  - destruct (push_loop_total (snapshot w) (mkCounters 0 0) w) as ([c go] & wp & Hloop).
    destruct (push_loop_calls_sorted _ (snapshot_sorted w) _ _ _ _ Hloop)
      as (n1 & Hn1 & Hall1 & Hs1).
    destruct (syncNow_run _ _ _ _ Hon Hurl Hloop)
      as (pulled & w'' & Hsync' & _ & (pulls & Hpulls & Hnone) & _).
    rewrite Hsync' in Hsync. simplify_eq.
    exists (n1 ++ pulls). split; [by rewrite Hpulls, Hn1, app_assoc|].
    apply StronglySorted_app_2; [|done|by apply untagged_calls_sorted].
    intros x1 x2 _ Hx2. unfold call_lt.
    rewrite Forall_forall in Hnone. rewrite (Hnone _ Hx2). by destruct (c_item x1).
  - unfold syncNow in Hsync.
    erewrite bind_run in Hsync by reflexivity.
    erewrite bind_run in Hsync by reflexivity.
    rewrite Hon, Hurl in Hsync. cbn [negb orb] in Hsync. unfold ret in Hsync.
    simplify_eq. exists []. rewrite app_nil_r. split; [done|constructor].
  - unfold syncNow in Hsync.
    erewrite bind_run in Hsync by reflexivity.
    erewrite bind_run in Hsync by reflexivity.
    rewrite Hon in Hsync. cbn [negb orb] in Hsync. unfold ret in Hsync.
    simplify_eq. exists []. rewrite app_nil_r. split; [done|constructor].
Qed.

(** C2. In every cycle, of two requests sent on behalf of queue entries
    the one for the smaller id comes first in the gateway log. *)
Theorem syncNow_pushes_in_id_order w res w' (i j : nat) c1 c2 id1 id2 :
  syncNow w = (res, w') ->
  drop (length (calls w)) (calls w') !! i = Some c1 ->
  drop (length (calls w)) (calls w') !! j = Some c2 ->
  c_item c1 = Some id1 ->
  c_item c2 = Some id2 ->
  id1 < id2 ->
  (i < j)%nat.
Proof.
  intros Hsync Hi Hj H1 H2 Hlt.
  destruct (syncNow_calls_sorted _ _ _ Hsync) as (new & Hnew & Hsorted).
  rewrite Hnew, drop_app_length in Hi, Hj.
  destruct (decide (i < j)%nat) as [|Hge]; [done|]. exfalso.
  destruct (decide (i = j)) as [->|Hne].
  - rewrite Hi in Hj. injection Hj as <-. rewrite H1 in H2. injection H2 as <-. lia.
  - assert (Hji : (j < i)%nat) by lia.
    pose proof (StronglySorted_lookup_lt _ _ Hsorted _ _ _ _ Hji Hj Hi) as Hc.
    unfold call_lt in Hc. rewrite H1, H2 in Hc. lia.
Qed.

(* ==================================================================== *)
(** ** The pull-merge *)
(* ==================================================================== *)

(** [_findMatchingRecord] only reads the object stores. *)
Lemma findMatchingRecord_reads sheet obj w r w' :
  _findMatchingRecord sheet obj w = (r, w') ->
  w' = w /\
  forall w2, stores w2 = stores w -> _findMatchingRecord sheet obj w2 = (r, w2).
Proof.
  unfold _findMatchingRecord, idb_get, open_store, lift, table.
  unfold bind, ret, throw. intros E.
  repeat (case_match; simplify_eq); split; try done;
    intros w2 Hw2; rewrite ?Hw2;
    repeat (case_match; simplify_eq); done.
Qed.

Lemma to_key_val v k : to_key v = Some k -> key_val k = v.
Proof. destruct v; simpl; intros; by simplify_eq. Qed.

Lemma key_val_to_key k : to_key (key_val k) = Some k.
Proof. by destruct k. Qed.

Lemma index_getAll_from_store kp s lo hi l m :
  index_getAll kp s lo hi = inr l -> m ∈ l ->
  exists k r, recs s !! k = Some r /\ m = stored kp k r /\ in_range_of lo hi m.
Proof.
  unfold index_getAll. intros E Hm.
  destruct (to_key lo) as [a|] eqn:Ha; [|done].
  destruct (to_key hi) as [b|] eqn:Hb; [|done].
  destruct (key_leb a b); [|done]. simplify_eq.
  apply list_elem_of_fmap in Hm as ([k r] & -> & Hkr).
  rewrite merge_sort_Permutation in Hkr.
  apply list_elem_of_In, filter_In in Hkr as [Hin Hrange].
  apply list_elem_of_In, elem_of_map_to_list in Hin.
  exists k, r. repeat split; [done|]. simpl in *.
  unfold in_range_of. rewrite Ha, Hb. exact Hrange.
Qed.

(** A match comes out of the sheet's store, where it is kept under the
    key it carries; for a key-addressed sheet that key is the pulled
    row's. *)
Lemma findMatchingRecord_found sheet obj w m w' :
  _findMatchingRecord sheet obj w = (Ret (Some m), w') ->
  includes sheet DATA_STORES = true /\
  exists k r,
    recs (table w sheet) !! k = Some r /\
    m = stored (keyPath_of sheet) k r /\
    (String.eqb sheet "profile" = true -> to_key (prop obj "key") = Some k) /\
    (String.eqb sheet "habit_defs" || String.eqb sheet "goals" = true ->
     to_key (prop obj "id") = Some k).
Proof.
  unfold _findMatchingRecord, idb_get, open_store, lift.
  unfold bind, ret, throw. intros E.
  destruct (String.eqb sheet "profile") eqn:Hprof.
  - destruct (includes sheet DATA_STORES); [|done]. split; [done|].
    unfold store_get in E.
    destruct (to_key (prop obj "key")) as [k|] eqn:Hk; [|done].
    destruct (recs (table w sheet) !! k) as [r|] eqn:Hr; simpl in E; [|done].
    simplify_eq. exists k, r. repeat split; try done.
    apply String.eqb_eq in Hprof as ->. done.
  - destruct (String.eqb sheet "habit_defs" || String.eqb sheet "goals").
    + destruct (truthy (prop obj "id")); [|done].
      destruct (includes sheet DATA_STORES); [|done]. split; [done|].
      unfold store_get in E.
      destruct (to_key (prop obj "id")) as [k|] eqn:Hk; [|done].
      destruct (recs (table w sheet) !! k) as [r|] eqn:Hr; simpl in E; [|done].
      simplify_eq. by exists k, r.
    + destruct (truthy (prop obj "date") && includes sheet DATE_INDEXED_STORES); [|done].
      destruct (includes sheet DATA_STORES); [|done]. split; [done|].
      destruct (index_getAll _ _ _ _) as [e|l] eqn:Hidx; [done|].
      injection E as Hfind _.
      apply find_some in Hfind as [Hin _]. apply list_elem_of_In in Hin.
      destruct (index_getAll_from_store _ _ _ _ _ _ Hidx Hin) as (k & r & ? & ? & _).
      by exists k, r.
Qed.

(** For the sheets with a natural key, the match is a stored record of
    the pulled row's date whose natural-key fields all agree with the
    row's. *)
Lemma findMatchingRecord_natural_key sheet obj w m w' :
  includes sheet DATE_INDEXED_STORES = true ->
  _findMatchingRecord sheet obj w = (Ret (Some m), w') ->
  natural_key_matches sheet m obj = true /\
  in_range_of (prop obj "date") (prop obj "date") m.
Proof.
  intros Hdate. unfold _findMatchingRecord, open_store, lift.
  unfold bind, ret, throw. intros E.
  assert (String.eqb sheet "profile" = false /\
          String.eqb sheet "habit_defs" || String.eqb sheet "goals" = false) as [Hp Hh].
  { unfold includes, DATE_INDEXED_STORES in Hdate. simpl in Hdate.
    repeat (apply orb_true_iff in Hdate as [Hdate|Hdate];
            [apply String.eqb_eq in Hdate as ->; by split|]). done. }
  rewrite Hp, Hh in E.
  destruct (truthy (prop obj "date") && includes sheet DATE_INDEXED_STORES); [|done].
  destruct (includes sheet DATA_STORES); [|done].
  destruct (index_getAll _ _ _ _) as [e|l] eqn:Hidx; [done|].
  injection E as Hfind _.
  apply find_some in Hfind as [Hin Hmatch]. split; [done|].
  apply list_elem_of_In in Hin.
  by destruct (index_getAll_from_store _ _ _ _ _ _ Hidx Hin) as (k & r & ? & ? & ?).
Qed.

Lemma prop_lookup (o : Obj) k v : o !! k = Some v -> prop o k = v.
Proof. unfold prop. by intros ->. Qed.

Lemma prop_stored kp k r : prop (stored kp k r) kp = key_val k.
Proof. unfold stored. apply prop_lookup, lookup_insert_eq. Qed.

Lemma stored_idem kp k (r : Obj) : r !! kp = Some (key_val k) -> stored kp k r = r.
Proof. intros H. unfold stored. by apply insert_id. Qed.

Lemma open_store_run sheet w :
  includes sheet DATA_STORES = true -> open_store sheet w = (Ret (table w sheet), w).
Proof. intros H. unfold open_store. by rewrite H. Qed.

Lemma idb_write_run b sheet r w k s' :
  includes sheet DATA_STORES = true ->
  store_write (keyPath_of sheet) (autoIncrement_of sheet) b (table w sheet) r = inr (k, s') ->
  idb_write b sheet r w = (Ret k, set_stores <[sheet := s']> w).
Proof.
  intros Hs Hw. unfold idb_write.
  erewrite bind_run by (by apply open_store_run).
  rewrite Hw. reflexivity.
Qed.

Lemma idb_get_run sheet key k w :
  includes sheet DATA_STORES = true ->
  to_key key = Some k ->
  idb_get sheet key w =
    (Ret (stored (keyPath_of sheet) k <$> recs (table w sheet) !! k), w).
Proof.
  intros Hs Hk. unfold idb_get.
  erewrite bind_run by (by apply open_store_run).
  unfold store_get. by rewrite Hk.
Qed.

Lemma table_set_ticks f w sheet : table (set_ticks f w) sheet = table w sheet.
Proof. reflexivity. Qed.

(** [merge_row] up to the comparison of the match with the pulled row. *)
Lemma merge_row_matched w sheet i rowArr obj0 m :
  rowArrayToObject sheet rowArr = Some obj0 ->
  let obj := stamp_row i (clock (ticks w)) obj0 in
  _findMatchingRecord sheet obj w = (Ret (Some m), w) ->
  merge_row sheet i rowArr w =
    if local_wins m obj then (Ret false, set_ticks S w)
    else (idb_put sheet (merged_record m obj) ;;; ret true) (set_ticks S w).
Proof.
  intros Hrow obj Hfind. unfold merge_row. rewrite Hrow.
  erewrite bind_run by reflexivity. fold obj.
  destruct (findMatchingRecord_reads _ _ _ _ _ Hfind) as [_ Hany].
  erewrite bind_run by (by apply Hany).
  cbv iota. by destruct (local_wins m obj).
Qed.

(** The record [merged_record] writes goes under the key of the match. *)
Lemma merged_record_key w sheet obj m k r :
  recs (table w sheet) !! k = Some r ->
  m = stored (keyPath_of sheet) k r ->
  (String.eqb sheet "profile" = true -> to_key (prop obj "key") = Some k) ->
  merged_record m obj !! keyPath_of sheet = Some (key_val k).
Proof.
  intros Hr -> Hprof. unfold merged_record, assign, keyPath_of in *.
  destruct (String.eqb sheet "profile") eqn:E.
  - specialize (Hprof eq_refl).
    rewrite lookup_union_r by (by rewrite lookup_insert_ne, lookup_singleton_ne).
    assert (Hobj : obj !! "key" = Some (key_val k)).
    { unfold prop in Hprof. destruct (obj !! "key") as [v|]; [|done].
      simpl in Hprof. by rewrite (to_key_val _ _ Hprof). }
    by rewrite (lookup_union_Some_l _ _ _ _ Hobj).
  - erewrite lookup_union_Some_l; [reflexivity|].
    rewrite lookup_insert_eq. by rewrite (prop_stored "id").
Qed.

(** When the match does not win, the merged record replaces it under its
    key; no other record of the sheet and nothing of the queue changes. *)
Lemma merge_row_remote_wins w sheet i rowArr obj0 m :
  rowArrayToObject sheet rowArr = Some obj0 ->
  let obj := stamp_row i (clock (ticks w)) obj0 in
  _findMatchingRecord sheet obj w = (Ret (Some m), w) ->
  local_wins m obj = false ->
  exists k w',
    merge_row sheet i rowArr w = (Ret true, w') /\
    to_key (prop m (keyPath_of sheet)) = Some k /\
    is_Some (recs (table w sheet) !! k) /\
    idb_get sheet (key_val k) w' = (Ret (Some (merged_record m obj)), w') /\
    (forall k', k' <> k -> recs (table w' sheet) !! k' = recs (table w sheet) !! k') /\
    queue w' = queue w /\
    (String.eqb sheet "habit_defs" || String.eqb sheet "goals" = true ->
     prop m "id" = prop obj "id").
Proof.
  intros Hrow obj Hfind Hwins.
  rewrite (merge_row_matched _ _ _ _ _ _ Hrow Hfind). fold obj. rewrite Hwins.
  destruct (findMatchingRecord_found _ _ _ _ _ Hfind)
    as (Hstore & k & r & Hr & Hm & Hprof & Hid).
  pose proof (merged_record_key _ _ obj _ _ _ Hr Hm Hprof) as Hkey.
  set (u := merged_record m obj) in *.
  set (s := table w sheet) in *.
  set (s' := mkStore (bump (autoIncrement_of sheet) (keygen s) k) (<[k := u]> (recs s))).
  assert (Hwrite : store_write (keyPath_of sheet) (autoIncrement_of sheet) false s u =
                   inr (k, s')).
  { unfold store_write, extract_key. rewrite Hkey.
    rewrite key_val_to_key. destruct k; simpl; by rewrite stored_idem. }
  exists k, (set_stores <[sheet := s']> (set_ticks S w)).
  assert (Htab : table (set_stores <[sheet := s']> (set_ticks S w)) sheet = s').
  { unfold table. cbn. by rewrite lookup_insert_eq. }
  split; [|split; [|split; [|split; [|split; [|split]]]]].
  - unfold idb_put.
    erewrite bind_run by (by apply idb_write_run). reflexivity.
  - rewrite Hm, prop_stored. apply key_val_to_key.
  - by rewrite Hr.
  - rewrite (idb_get_run _ _ k) by (done || apply key_val_to_key).
    rewrite Htab. subst s'; cbn.
    rewrite lookup_insert_eq. cbn. by rewrite stored_idem.
  - intros k' Hne. rewrite Htab. subst s'; cbn. by rewrite lookup_insert_ne.
  - reflexivity.
  - intros Hsheet. rewrite Hm.
    assert (keyPath_of sheet = "id") as Hkp.
    { unfold keyPath_of. destruct (String.eqb sheet "profile") eqn:E; [|done].
      apply String.eqb_eq in E as ->. done. }
    rewrite Hkp, prop_stored. apply to_key_val. by apply Hid.
Qed.

(* -------------------------------------------------------------------- *)
(** *** The fields of a decoded, stamped and merged row *)

(** No sheet has a sync-metadata field as a column, and only the sheets
    matched on [id] have an [id] column. *)
Lemma columns_plain sheet cols c :
  lookup_table sheet COLUMNS = Some cols -> c ∈ cols ->
  (c ∉ meta_fields) /\
  (c = "id" -> String.eqb sheet "habit_defs" || String.eqb sheet "goals" = true).
Proof.
  intros Hcols Hc. unfold COLUMNS in Hcols. cbn [lookup_table] in Hcols.
  repeat match type of Hcols with
         | (if String.eqb ?k sheet then _ else _) = _ =>
             destruct (String.eqb_spec k sheet) as [<-|_];
             [ injection Hcols as <-;
               repeat (apply elem_of_cons in Hc as [->|Hc];
                       [split; [ apply (bool_decide_unpack _); by vm_compute
                               | intros ?; first [discriminate | reflexivity] ]|]);
               by apply elem_of_nil in Hc |]
         end.
  done.
Qed.

Lemma fill_columns_dom cols : forall i arr (obj : Obj) c,
  c ∈ cols -> is_Some (fill_columns cols i arr obj !! c).
Proof.
  assert (Hkeep : forall cols i arr (obj : Obj) c,
            is_Some (obj !! c) -> is_Some (fill_columns cols i arr obj !! c)).
  { clear. induction cols as [|d cs IH]; intros i arr obj c Hc; simpl; [done|].
    apply IH. destruct (decide (c = d)) as [->|?].
    - rewrite lookup_insert_eq. eauto.
    - by rewrite lookup_insert_ne. }
  induction cols as [|d cs IH]; intros i arr obj c Hc; simpl.
  - by apply elem_of_nil in Hc.
  - apply elem_of_cons in Hc as [->|Hc]; [|by apply IH].
    apply Hkeep. rewrite lookup_insert_eq. eauto.
Qed.

Lemma stamp_row_lookup i now (obj : Obj) c :
  c ∉ meta_fields -> stamp_row i now obj !! c = obj !! c.
Proof.
  intros Hc. unfold stamp_row.
  rewrite !lookup_insert_ne; [done | | | |];
    intros <-; apply Hc; apply (bool_decide_unpack _); by vm_compute.
Qed.

Lemma stamp_row_meta i now (obj : Obj) :
  prop (stamp_row i now obj) "_sheetRowIndex" = VNum (Z.of_nat i) /\
  prop (stamp_row i now obj) "_synced" = VBool true /\
  prop (stamp_row i now obj) "_modified" = VNum now /\
  prop (stamp_row i now obj) "_deleted" = VBool false.
Proof.
  unfold stamp_row. repeat split; apply prop_lookup;
    repeat first [ by rewrite lookup_insert_eq | rewrite lookup_insert_ne by done ].
Qed.

(** Properties of the pulled row override those of the match, except
    [id] and [_rowIndex]. *)
Lemma merged_record_lookup m (obj : Obj) c v :
  c <> "id" -> c <> "_rowIndex" -> obj !! c = Some v ->
  prop (merged_record m obj) c = v.
Proof.
  intros H1 H2 Hv. apply prop_lookup. unfold merged_record, assign.
  rewrite lookup_union_r by (by rewrite lookup_insert_ne, lookup_singleton_ne).
  by apply lookup_union_Some_l.
Qed.



(* -------------------------------------------------------------------- *)
(** *** Who wins a merge *)

(** C4. The pulled row [i] decodes and the merge locates a local match
    that is unsynced ([_synced] is [false]) with a [_modified] strictly
    greater than the stamp the row gets at merge time.  Then the merge
    writes nothing (the object stores and the queue are as before, so
    the local record reads back unchanged) and the row is not counted
    as merged. *)
Theorem merge_keeps_newer_unsynced_local w sheet i rowArr obj0 m t rest merged :
  rowArrayToObject sheet rowArr = Some obj0 ->
  let now := clock (ticks w) in
  let obj := stamp_row i now obj0 in
  _findMatchingRecord sheet obj w = (Ret (Some m), w) ->
  prop m "_synced" = VBool false ->
  prop m "_modified" = VNum t ->
  now < t ->
  exists w',
    merge_row sheet i rowArr w = (Ret false, w') /\
    stores w' = stores w /\ queue w' = queue w /\
    _findMatchingRecord sheet obj w' = (Ret (Some m), w') /\
    pull_rows sheet (rowArr :: rest) i merged w = pull_rows sheet rest (S i) merged w'.
Proof.
  intros Hrow now obj Hfind Hsynced Hmod Hlt.
  assert (Hwins : local_wins m obj = true).
  { unfold local_wins. rewrite Hsynced, Hmod.
    destruct (stamp_row_meta i now obj0) as (_ & _ & Hstamp & _).
    fold obj in Hstamp. rewrite Hstamp.
    simpl. apply Z.ltb_lt. exact Hlt. }
  pose proof (merge_row_matched _ _ _ _ _ _ Hrow Hfind) as Hrun.
  fold now in Hrun. fold obj in Hrun. rewrite Hwins in Hrun.
  exists (set_ticks S w). split; [exact Hrun|]. split; [done|]. split; [done|].
  split.
  - by apply (findMatchingRecord_reads _ _ _ _ _ Hfind).
  - cbn [pull_rows]. erewrite bind_run by exact Hrun. reflexivity.
Qed.




(* ==================================================================== *)
(** ** The facade: get, save, delete *)
(* ==================================================================== *)

Lemma key_leb_refl k : key_leb k k = true.
Proof.
  destruct k as [n|s]; simpl; [apply Z.leb_refl|].
  by destruct (String.leb_total s s).
Qed.

(** [getAll] lists exactly the records of the store, each read back
    under its key. *)
Lemma elem_of_store_getAll kp s m :
  m ∈ store_getAll kp s <-> exists k r, recs s !! k = Some r /\ m = stored kp k r.
Proof.
  unfold store_getAll, entries. rewrite list_elem_of_fmap. split.
  - intros ([k r] & -> & Hin). rewrite merge_sort_Permutation in Hin.
    apply elem_of_map_to_list in Hin. by exists k, r.
  - intros (k & r & Hr & ->). exists (k, r). split; [done|].
    rewrite merge_sort_Permutation. by apply elem_of_map_to_list.
Qed.

(** The date index lists a stored record under its date. *)
Lemma elem_of_index_getAll kp s d kd k r :
  to_key d = Some kd ->
  recs s !! k = Some r ->
  prop (stored kp k r) "date" = d ->
  exists l, index_getAll kp s d d = inr l /\ stored kp k r ∈ l.
Proof.
  intros Hd Hr Hdate. unfold index_getAll. rewrite Hd, key_leb_refl.
  eexists; split; [reflexivity|].
  apply list_elem_of_fmap. exists (k, r). split; [done|].
  rewrite merge_sort_Permutation. apply list_elem_of_In, filter_In. split.
  - by apply list_elem_of_In, elem_of_map_to_list.
  - simpl. unfold in_range, index_key. rewrite Hdate, Hd.
    by rewrite key_leb_refl.
Qed.

Lemma pull_if_stale_total sheet from to w :
  exists w', pull_if_stale sheet from to w = (Ret tt, w').
Proof.
  unfold pull_if_stale, isOnline.
  unfold bind, reads, modify, Date_now, ret.
  repeat case_match; simplify_eq; by eexists.
Qed.

(** What [get] returns: the records of the range, without the
    soft-deleted ones, cut at the limit. *)
Lemma get_run sheet options w :
  includes sheet DATA_STORES = true ->
  let from := js_or (js_or (o_date options) (o_from options)) VNull in
  let to := js_or (js_or (o_date options) (o_to options)) VNull in
  let range :=
    if truthy from && truthy to && includes sheet DATE_INDEXED_STORES
    then index_getAll (keyPath_of sheet) (table w sheet) from to
    else inr (store_getAll (keyPath_of sheet) (table w sheet)) in
  match range with
  | inl e => get sheet options w = (Throw e, w)
  | inr raw =>
      exists w', get sheet options w =
        (Ret (apply_limit (o_limit options) (List.filter not_deleted raw)), w')
  end.
Proof.
  intros Hs from to range. unfold get.
  erewrite bind_run by (by apply open_store_run).
  fold from. fold to. subst range.
  destruct (truthy from && truthy to && includes sheet DATE_INDEXED_STORES).
  - destruct (index_getAll _ _ _ _) as [e|raw]; [reflexivity|].
    erewrite bind_run by reflexivity.
    destruct (pull_if_stale_total sheet from to w) as [w' E].
    erewrite bind_run by exact E. by exists w'.
  - erewrite bind_run by reflexivity.
    destruct (pull_if_stale_total sheet from to w) as [w' E].
    erewrite bind_run by exact E. by exists w'.
Qed.

Lemma apply_limit_subset limit l r : r ∈ apply_limit limit l -> r ∈ l.
Proof.
  unfold apply_limit. case_match; [|done].
  intros Hin. rewrite <- (take_drop (Z.to_nat (default 0 (to_number StringToNumber limit))) l).
  apply elem_of_app. by left.
Qed.


Lemma idb_get_inv sheet key w m w' :
  idb_get sheet key w = (Ret (Some m), w') ->
  w' = w /\ includes sheet DATA_STORES = true /\
  exists k r, to_key key = Some k /\ recs (table w sheet) !! k = Some r /\
              m = stored (keyPath_of sheet) k r.
Proof.
  unfold idb_get, bind, open_store, lift, store_get. intros E.
  destruct (includes sheet DATA_STORES); [|done].
  destruct (to_key key) as [k|]; [|done].
  destruct (recs (table w sheet) !! k) as [r|] eqn:Hr; simpl in E; [|done].
  unfold ret in E. simplify_eq. repeat split; try done. by exists k, r.
Qed.


Lemma _enqueue_run sheet action data rowIndex w :
  q_recs (queue w) !! q_keygen (queue w) = None ->
  _enqueue sheet action data rowIndex w =
  (Ret tt,
   set_queue (enqueued (mkEntry sheet action data (js_or rowIndex VNull)
                          (clock (ticks w)) 0))
     (set_ticks S w)).
Proof.
  intros Hfresh. unfold _enqueue.
  erewrite bind_run by reflexivity.
  erewrite bind_run by reflexivity.
  unfold queue_add. cbn [queue set_ticks].
  rewrite Hfresh. rewrite bool_decide_eq_false_2 by (by intros [? ?]).
  destruct w; reflexivity.
Qed.

Lemma _enqueue_inv sheet action data rowIndex w w' :
  _enqueue sheet action data rowIndex w = (Ret tt, w') ->
  q_recs (queue w) !! q_keygen (queue w) = None.
Proof.
  unfold _enqueue. erewrite bind_run by reflexivity.
  erewrite bind_run by reflexivity.
  unfold queue_add. cbn [queue set_ticks].
  destruct (q_recs (queue w) !! q_keygen (queue w)) eqn:E; [|done].
  rewrite bool_decide_eq_true_2 by eauto. done.
Qed.

(** Launching a cycle only notes the task. *)
Lemma trigger_sync_run w :
  exists tasks, trigger_sync w = (Ret tt, set_spawned (fun _ => tasks) w).
Proof.
  unfold trigger_sync, isOnline, bind, reads, modify, ret.
  destruct (online w && truthy (scriptUrl w)); eexists; [reflexivity|].
  instantiate (1 := spawned w). by destruct w.
Qed.

Lemma soft_deleted_fields now (existing : Obj) :
  prop (soft_deleted now existing) "_deleted" = VBool true /\
  prop (soft_deleted now existing) "_synced" = VBool false /\
  prop (soft_deleted now existing) "_modified" = VNum now /\
  (forall f, f ∉ ["_deleted"; "_synced"; "_modified"] ->
             soft_deleted now existing !! f = existing !! f).
Proof.
  unfold soft_deleted, assign. repeat split.
  - apply prop_lookup, lookup_union_Some_l. by rewrite lookup_insert_eq.
  - apply prop_lookup, lookup_union_Some_l.
    rewrite lookup_insert_ne by done. by rewrite lookup_insert_eq.
  - apply prop_lookup, lookup_union_Some_l.
    rewrite !lookup_insert_ne by done. by rewrite lookup_singleton_eq.
  - intros f Hf. apply lookup_union_r.
    rewrite !lookup_insert_ne, lookup_singleton_ne; [done| | |];
      intros <-; apply Hf; apply (bool_decide_unpack _); by vm_compute.
Qed.

Lemma keyPath_not_meta sheet :
  keyPath_of sheet ∉ ["_deleted"; "_synced"; "_modified"].
Proof.
  unfold keyPath_of. destruct (String.eqb sheet "profile");
    apply (bool_decide_unpack _); by vm_compute.
Qed.

Lemma store_put_keyed kp ai s (r : Obj) k :
  r !! kp = Some (key_val k) ->
  store_write kp ai false s r =
  inr (k, mkStore (bump ai (keygen s) k) (<[k := r]> (recs s))).
Proof.
  intros Hk. unfold store_write, extract_key. rewrite Hk, key_val_to_key.
  destruct k; cbn; by rewrite (stored_idem kp).
Qed.

(** [delete] on a stored record. *)
Lemma delete_run sheet key w k r :
  includes sheet DATA_STORES = true ->
  to_key key = Some k ->
  recs (table w sheet) !! k = Some r ->
  q_recs (queue w) !! q_keygen (queue w) = None ->
  let kp := keyPath_of sheet in
  let deleted := soft_deleted (clock (ticks w)) (stored kp k r) in
  let s' := mkStore (bump (autoIncrement_of sheet) (keygen (table w sheet)) k)
                    (<[k := deleted]> (recs (table w sheet))) in
  let e := mkEntry sheet "delete" deleted
             (js_or (js_or (prop deleted "_rowIndex") VNull) VNull)
             (clock (S (ticks w))) 0 in
  exists tasks,
    delete sheet key w =
    (Ret true,
     set_spawned (fun _ => tasks)
       (set_queue (enqueued e)
          (set_ticks S (set_stores <[sheet := s']> (set_ticks S w))))).
Proof.
  intros Hs Hk Hr Hfresh kp deleted s' e.
  assert (Hdk : deleted !! kp = Some (key_val k)).
  { subst deleted. destruct (soft_deleted_fields (clock (ticks w)) (stored kp k r))
      as (_ & _ & _ & Hsame).
    rewrite Hsame by apply keyPath_not_meta.
    unfold stored. by rewrite lookup_insert_eq. }
  unfold delete.
  erewrite bind_run by (rewrite (idb_get_run _ _ k) by done; rewrite Hr; reflexivity).
  cbn [fmap option_fmap option_map].
  erewrite bind_run by reflexivity. fold kp. fold deleted.
  erewrite bind_run.
  2:{ apply idb_write_run; [done|]. rewrite table_set_ticks.
      by apply store_put_keyed. }
  erewrite bind_run by (by apply _enqueue_run).
  destruct (trigger_sync_run
    (set_queue (enqueued e)
       (set_ticks S (set_stores <[sheet := s']> (set_ticks S w))))) as [tasks Ht].
  exists tasks. erewrite bind_run by exact Ht. reflexivity.
Qed.





Lemma store_add_inv kp ai s (r : Obj) k s' :
  store_write kp ai true s r = inr (k, s') ->
  recs s !! k = None /\ recs s' = <[k := stored kp k r]> (recs s) /\
  (forall v, r !! kp = Some v -> v <> VUndef -> key_val k = v).
Proof.
  unfold store_write. intros E.
  assert (Hw : forall k0 gen,
    (if true && bool_decide (is_Some (recs s !! k0))
     then inl ConstraintError
     else inr (k0, mkStore gen (<[k0 := stored kp k0 r]> (recs s)))) = inr (k, s') ->
    k0 = k /\ recs s !! k = None /\ recs s' = <[k := stored kp k r]> (recs s)).
  { intros k0 gen E0. cbn [andb] in E0.
    destruct (bool_decide (is_Some (recs s !! k0))) eqn:Hb; [done|].
    simplify_eq. cbn. split; [done|]. split; [|done].
    apply bool_decide_eq_false_1 in Hb. by apply eq_None_not_Some. }
  unfold extract_key in E.
  destruct (r !! kp) as [v|] eqn:Hv.
  - destruct (decide (v = VUndef)) as [->|Hne].
    + destruct ai; [|done]. apply Hw in E as (_ & ? & ?).
      repeat split; try done. intros v' Hv' Hne'. by simplify_eq.
    + destruct (to_key v) as [k0|] eqn:Hk0.
      * assert (match v with VUndef => KFailure | _ => KValid k0 end = KValid k0) as Hx
          by (by destruct v).
        assert (E' : (let write := fun k1 gen =>
                   if true && bool_decide (is_Some (recs s !! k1))
                   then inl ConstraintError
                   else inr (k1, mkStore gen (<[k1 := stored kp k1 r]> (recs s))) in
                 write k0 (bump ai (keygen s) k0)) = inr (k, s')).
        { destruct v; simpl in *; simplify_eq; exact E. }
        cbv zeta in E'. apply Hw in E' as (<- & ? & ?).
        repeat split; try done. intros v' Hv' _. simplify_eq. by apply to_key_val.
      * destruct v; simpl in *; done.
  - destruct ai; [|done]. apply Hw in E as (_ & ? & ?).
    repeat split; try done.
Qed.

Lemma _enqueue_full sheet action data rowIndex w :
  is_Some (q_recs (queue w) !! q_keygen (queue w)) ->
  _enqueue sheet action data rowIndex w = (Throw ConstraintError, set_ticks S w).
Proof.
  intros Hfull. unfold _enqueue.
  erewrite bind_run by reflexivity.
  erewrite bind_run by reflexivity.
  unfold queue_add. cbn [queue set_ticks].
  by rewrite bool_decide_eq_true_2.
Qed.

(** What a [save] that resolved has done. *)
Lemma save_inv sheet row w rec w' :
  includes sheet DATA_STORES = true ->
  save sheet row w = (Ret rec, w') ->
  let record := assign row (fresh_meta (clock (ticks w))) in
  exists k s' tasks,
    rec = <["id" := key_val k]> record /\
    recs (table w sheet) !! k = None /\
    recs s' = <[k := stored (keyPath_of sheet) k record]> (recs (table w sheet)) /\
    (forall v, record !! keyPath_of sheet = Some v -> v <> VUndef -> key_val k = v) /\
    q_recs (queue w) !! q_keygen (queue w) = None /\
    w' = set_spawned (fun _ => tasks)
           (set_queue (enqueued (mkEntry sheet "append" rec VNull (clock (S (ticks w))) 0))
              (set_ticks S (set_stores <[sheet := s']> (set_ticks S w)))).
Proof.
  intros Hs Hsave record. unfold save in Hsave.
  erewrite bind_run in Hsave by reflexivity. fold record in Hsave.
  destruct (store_write (keyPath_of sheet) (autoIncrement_of sheet) true
              (table w sheet) record) as [e|[k s']] eqn:Hw.
  { unfold idb_add, idb_write in Hsave.
    unfold bind at 1 2 in Hsave. rewrite open_store_run in Hsave by done.
    rewrite table_set_ticks, Hw in Hsave. done. }
  erewrite bind_run in Hsave by (by apply idb_write_run).
  destruct (store_add_inv _ _ _ _ _ _ Hw) as (Hfree & Hrecs & Hgiven).
  cbn [fst snd] in Hsave.
  set (rec0 := <["id" := key_val k]> record) in *.
  set (w1 := set_stores <[sheet := s']> (set_ticks S w)) in *.
  destruct (q_recs (queue w) !! q_keygen (queue w)) eqn:Hq.
  { unfold bind at 1 in Hsave.
    rewrite (_enqueue_full sheet "append" rec0 VUndef w1) in Hsave; [done|].
    subst w1; cbn. rewrite Hq. eauto. }
  erewrite bind_run in Hsave by (apply _enqueue_run; subst w1; by cbn).
  match type of Hsave with
  | bind trigger_sync _ ?W = _ => destruct (trigger_sync_run W) as [tasks Ht]
  end.
  erewrite bind_run in Hsave by exact Ht.
  unfold ret in Hsave. injection Hsave as <- <-.
  exists k, s', tasks. repeat split; try done.
Qed.

Lemma fresh_meta_fields now (row : Obj) :
  let record := assign row (fresh_meta now) in
  prop record "_synced" = VBool false /\
  prop record "_modified" = VNum now /\
  prop record "_deleted" = VBool false /\
  (forall f, f ∉ ["_synced"; "_modified"; "_deleted"] -> record !! f = row !! f).
Proof.
  unfold assign, fresh_meta. repeat split.
  - apply prop_lookup, lookup_union_Some_l. by rewrite lookup_insert_eq.
  - apply prop_lookup, lookup_union_Some_l.
    rewrite lookup_insert_ne by done. by rewrite lookup_insert_eq.
  - apply prop_lookup, lookup_union_Some_l.
    rewrite !lookup_insert_ne by done. by rewrite lookup_singleton_eq.
  - intros f Hf. apply lookup_union_r.
    rewrite !lookup_insert_ne, lookup_singleton_ne; [done| | |];
      intros <-; apply Hf; apply (bool_decide_unpack _); by vm_compute.
Qed.

Lemma date_indexed_store sheet :
  includes sheet DATE_INDEXED_STORES = true ->
  includes sheet DATA_STORES = true /\ keyPath_of sheet = "id".
Proof.
  intros Hd. unfold includes, DATE_INDEXED_STORES in Hd. cbn [existsb] in Hd.
  repeat (apply orb_true_iff in Hd as [Hd|Hd];
          [apply String.eqb_eq in Hd as ->; by split|]).
  done.
Qed.

(** C8. [save] of a row into a date-indexed sheet resolved; the row's
    [date], when it is truthy, is a valid index key.  Then the returned
    record carries the key the store holds it under, has every field of
    the row (other than the three stamps, and [id] when the row leaves it
    undefined) with [_synced] and [_deleted] both [false]; [get] with
    that date returns a list that
    contains it; and the queue is the queue of before plus one [append]
    entry, at a fresh id, holding the record. *)
Theorem save_then_get_by_date w sheet row rec w1 :
  includes sheet DATE_INDEXED_STORES = true ->
  (truthy (prop row "date") = true -> is_Some (to_key (prop row "date"))) ->
  save sheet row w = (Ret rec, w1) ->
  let qid := q_keygen (queue w) in
  (exists k, prop rec "id" = key_val k /\
             recs (table w sheet) !! k = None /\
             idb_get sheet (key_val k) w1 = (Ret (Some rec), w1)) /\
  (forall f v, row !! f = Some v ->
               f ∉ ["_synced"; "_modified"; "_deleted"] ->
               (f = "id" -> v <> VUndef) ->
               rec !! f = Some v) /\
  prop rec "_synced" = VBool false /\
  prop rec "_deleted" = VBool false /\
  (exists res w2,
      get sheet (mkOptions VUndef VUndef (prop row "date") VUndef) w1 = (Ret res, w2) /\
      rec ∈ res) /\
  (exists e, q_recs (queue w) !! qid = None /\
             q_recs (queue w1) = <[qid := e]> (q_recs (queue w)) /\
             q_sheet e = sheet /\ q_action e = "append" /\
             q_data e = rec /\ q_retries e = 0).
Proof.
  intros Hdate Hkey Hsave qid.
  destruct (date_indexed_store _ Hdate) as [Hs Hkp].
  destruct (save_inv _ _ _ _ _ Hs Hsave)
    as (k & s' & tasks & Hrec & Hfree & Hrecs & Hgiven & Hq & Hw1).
  destruct (fresh_meta_fields (clock (ticks w)) row) as (Hsy & _ & Hde & Hsame).
  set (record := assign row (fresh_meta (clock (ticks w)))) in *.
  rewrite Hkp in Hrecs. unfold stored in Hrecs. rewrite <- Hrec in Hrecs.
  assert (Htab : table w1 sheet = s').
  { rewrite Hw1. unfold table. cbn. by rewrite lookup_insert_eq. }
  assert (Hstored : recs (table w1 sheet) !! k = Some rec).
  { by rewrite Htab, Hrecs, lookup_insert_eq. }
  assert (Hid : rec !! "id" = Some (key_val k)).
  { rewrite Hrec. by rewrite lookup_insert_eq. }
  assert (Hfield : forall f, f <> "id" -> f ∉ ["_synced"; "_modified"; "_deleted"] ->
                             rec !! f = row !! f).
  { intros f Hf1 Hf2. rewrite Hrec, lookup_insert_ne by done. by apply Hsame. }
  assert (Hrsy : prop rec "_synced" = VBool false).
  { unfold prop in *. rewrite Hrec, lookup_insert_ne by done. exact Hsy. }
  assert (Hrde : prop rec "_deleted" = VBool false).
  { unfold prop in *. rewrite Hrec, lookup_insert_ne by done. exact Hde. }
  assert (Hself : stored (keyPath_of sheet) k rec = rec).
  { rewrite Hkp. by apply stored_idem. }
  split; [|split; [|split; [done|split; [done|split]]]].
  - exists k. split; [by apply prop_lookup|]. split; [done|].
    rewrite (idb_get_run _ _ k) by (done || apply key_val_to_key).
    by rewrite Hstored; cbn; rewrite Hself.
  - intros f v Hv Hf Hidv. destruct (decide (f = "id")) as [->|Hne].
    + rewrite Hid. f_equal. apply Hgiven; [|by apply Hidv].
      rewrite Hkp. rewrite Hsame; [done|].
      intros Hin. by apply (bool_decide_pack _) in Hin.
    + by rewrite Hfield.
  - set (d := prop row "date") in *.
    assert (Hrd : prop rec "date" = d).
    { unfold d, prop. rewrite Hfield; [done|done|].
      intros Hin. by apply (bool_decide_pack _) in Hin. }
    pose proof (get_run sheet (mkOptions VUndef VUndef d VUndef) w1 Hs) as Hrun.
    cbv zeta in Hrun. cbn [o_date o_from o_to o_limit] in Hrun.
    assert (Hlim : forall l, apply_limit VUndef l = l) by reflexivity.
    assert (Hnd : not_deleted rec = true) by (unfold not_deleted; by rewrite Hrde).
    rewrite Hdate in Hrun.
    destruct (truthy d) eqn:Htd.
    + assert (js_or (js_or d VUndef) VNull = d) as Hfrom
        by (unfold js_or; by rewrite Htd, Htd).
      rewrite !Hfrom, Htd in Hrun. cbn [andb] in Hrun.
      destruct (Hkey eq_refl) as [kd Hkd].
      destruct (elem_of_index_getAll (keyPath_of sheet) (table w1 sheet) d kd k rec Hkd Hstored)
        as (l & Hl & Hin); [by rewrite Hself|].
      rewrite Hl in Hrun. destruct Hrun as [w2 Hrun].
      eexists _, w2. split; [exact Hrun|]. rewrite Hlim.
      apply list_elem_of_In, filter_In. split; [|done].
      apply list_elem_of_In. by rewrite Hself in Hin.
    + assert (js_or (js_or d VUndef) VNull = VNull) as Hfrom
        by (unfold js_or; by rewrite Htd).
      rewrite !Hfrom in Hrun. cbn [truthy andb] in Hrun.
      destruct Hrun as [w2 Hrun].
      eexists _, w2. split; [exact Hrun|]. rewrite Hlim.
      apply list_elem_of_In, filter_In. split; [|done].
      apply list_elem_of_In, elem_of_store_getAll. exists k, rec.
      by rewrite Hself.
  - eexists. split; [exact Hq|]. rewrite Hw1. cbn. repeat split.
Qed.

(* -------------------------------------------------------------------- *)
(** *** The key generator of the queue stays ahead of its keys *)

Lemma queue_ahead_fresh q : queue_ahead q -> q_recs q !! q_keygen q = None.
Proof.
  intros H. apply eq_None_not_Some. intros Hs. specialize (H _ Hs). lia.
Qed.

Lemma queue_ahead_enqueued e q : queue_ahead q -> queue_ahead (enqueued e q).
Proof.
  intros H k. unfold enqueued; cbn. destruct (decide (k = q_keygen q)) as [->|Hne].
  - intros _. lia.
  - rewrite lookup_insert_ne by done. intros Hs. specialize (H _ Hs). lia.
Qed.

Lemma queue_ahead_delete id q : queue_ahead q -> queue_ahead (queue_delete q id).
Proof.
  intros H k. rewrite queue_delete_lookup. cbn.
  destruct (decide (k = id)); [by intros [? ?] | apply H].
Qed.

Lemma queue_ahead_retried id current q : queue_ahead q -> queue_ahead (retried id current q).
Proof.
  intros H. unfold retried, queue_get.
  destruct (q_recs q !! id) as [e|] eqn:He; cbn; [|done].
  assert (id < q_keygen q) by (apply H; eauto).
  intros k. unfold queue_put; cbn.
  destruct (Z.leb_spec (q_keygen q) id); [lia|].
  destruct (decide (k = id)) as [->|Hne]; [done|].
  rewrite lookup_insert_ne by done. apply H.
Qed.

(** A turn of the push loop keeps the generator ahead. *)
Lemma queue_ahead_push_item item c w r w' :
  push_item item c w = (r, w') -> queue_ahead (queue w) -> queue_ahead (queue w').
Proof.
  destruct item as [id e]. intros Hrun H.
  destruct (push_item_cases id e c w)
    as [[_ E] | [(_ & _ & E) | (req & _ & _ &
          [[_ E] | [(s & d & _ & _ & E) | (d & st & _ & E)]])]];
    rewrite E in Hrun; simplify_eq; cbn;
    first [ by apply queue_ahead_delete | by apply queue_ahead_retried ].
Qed.

(** [save] of a row without an [id] resolves when the generators of the
    sheet's store and of the queue point at free keys. *)
Lemma save_resolves sheet row w :
  includes sheet DATE_INDEXED_STORES = true ->
  row !! "id" = None ->
  recs (table w sheet) !! KNum (keygen (table w sheet)) = None ->
  q_recs (queue w) !! q_keygen (queue w) = None ->
  exists rec w', save sheet row w = (Ret rec, w').
Proof.
  intros Hd Hid Hfree Hq.
  destruct (date_indexed_store _ Hd) as [Hs Hkp].
  set (record := assign row (fresh_meta (clock (ticks w)))).
  assert (Hrid : record !! "id" = None).
  { destruct (fresh_meta_fields (clock (ticks w)) row) as (_ & _ & _ & Hsame).
    fold record in Hsame. rewrite Hsame; [done|].
    intros Hin. by apply (bool_decide_pack _) in Hin. }
  assert (Hauto : autoIncrement_of sheet = true).
  { unfold autoIncrement_of, keyPath_of in *.
    by destruct (String.eqb sheet "profile"). }
  unfold save. erewrite bind_run by reflexivity. fold record.
  erewrite bind_run.
  2:{ apply idb_write_run; [done|]. rewrite table_set_ticks.
      unfold store_write, extract_key. rewrite Hkp, Hrid, Hauto. cbn [andb].
      rewrite Hfree. rewrite bool_decide_eq_false_2 by (by intros [? ?]).
      reflexivity. }
  erewrite bind_run by (by apply _enqueue_run).
  match goal with
  | |- exists _ _, bind trigger_sync _ ?W = _ => destruct (trigger_sync_run W) as [tasks Ht]
  end.
  erewrite bind_run by exact Ht. by eexists _, _.
Qed.

(* -------------------------------------------------------------------- *)
(** *** When the match cannot win, and when a match is found *)

(** The keep-local test fails as soon as the match is synced, or carries a
    time stamp that is not after the stamp of the row. *)
Lemma local_wins_false m i now (obj0 : Obj) :
  prop m "_synced" = VBool true \/
  (exists t, prop m "_modified" = VNum t /\ t <= now) ->
  local_wins m (stamp_row i now obj0) = false.
Proof.
  intros [Hs | (t & Ht & Hle)]; unfold local_wins.
  - by rewrite Hs.
  - destruct (stamp_row_meta i now obj0) as (_ & _ & -> & _). rewrite Ht.
    apply andb_false_iff. right. simpl. apply Z.ltb_ge. exact Hle.
Qed.

Lemma find_is_Some {A} (f : A -> bool) (l : list A) x :
  x ∈ l -> f x = true -> is_Some (List.find f l).
Proof.
  intros Hx Hf. destruct (List.find f l) eqn:E; [eauto|].
  apply list_elem_of_In in Hx.
  pose proof (find_none _ _ E _ Hx) as Hn. congruence.
Qed.

(** On a date-indexed sheet, a stored record of the pulled row's date
    whose natural-key fields agree with the row's makes the merge find a
    match, which agrees with the row on the natural key. *)
Lemma findMatchingRecord_complete sheet obj w kd k r :
  includes sheet DATE_INDEXED_STORES = true ->
  truthy (prop obj "date") = true ->
  to_key (prop obj "date") = Some kd ->
  recs (table w sheet) !! k = Some r ->
  prop (stored (keyPath_of sheet) k r) "date" = prop obj "date" ->
  natural_key_matches sheet (stored (keyPath_of sheet) k r) obj = true ->
  exists m, _findMatchingRecord sheet obj w = (Ret (Some m), w) /\
            natural_key_matches sheet m obj = true.
Proof.
  intros Hd Ht Hkd Hr Hdate Hmatch.
  destruct (date_indexed_store _ Hd) as [Hs Hkp].
  assert (String.eqb sheet "profile" = false /\
          String.eqb sheet "habit_defs" || String.eqb sheet "goals" = false) as [Hp Hh].
  { unfold includes, DATE_INDEXED_STORES in Hd. cbn [existsb] in Hd.
    repeat (apply orb_true_iff in Hd as [Hd|Hd];
            [apply String.eqb_eq in Hd as ->; by split|]). done. }
  destruct (elem_of_index_getAll (keyPath_of sheet) (table w sheet) _ kd k r Hkd Hr Hdate)
    as (l & Hl & Hin).
  destruct (find_is_Some (fun cand => natural_key_matches sheet cand obj) l _ Hin Hmatch)
    as [m Hm].
  exists m. split.
  - unfold _findMatchingRecord. rewrite Hp, Hh, Ht, Hd. cbn [andb].
    erewrite bind_run by (by apply open_store_run).
    rewrite Hl. unfold lift. erewrite bind_run by reflexivity.
    by rewrite Hm.
  - by apply find_some in Hm as [_ ?].
Qed.

(* ==================================================================== *)
(** ** More about the sync cycle *)
(* ==================================================================== *)

Lemma push_item_queue id e c w r w' :
  push_item (id, e) c w = (r, w') ->
  exists c' go, r = Ret (c', go) /\
    ((queue w' = queue_delete (queue w) id /\ go = true /\
      ((pushed c' = pushed c + 1 /\ errors c' = errors c) \/
       (pushed c' = pushed c /\ errors c' = errors c + 1 /\
        MAX_RETRIES <= q_retries e))) \/
     (queue w' = retried id (q_retries e) (queue w) /\
      q_retries e < MAX_RETRIES /\
      pushed c' = pushed c /\ errors c' = errors c + 1)).
Proof.
  intros Hrun.
  destruct (push_item_cases id e c w)
    as [[? E] | [(? & _ & E) | (req & ? & _ &
          [[_ E] | [(s & d & _ & _ & E) | (d & st & _ & E)]])]];
    rewrite E in Hrun; simplify_eq; eexists _, _; (split; [reflexivity|]);
    cbn; auto 10.
Qed.

Lemma push_item_break id e c w c' w' :
  push_item (id, e) c w = (Ret (c', false), w') ->
  exists req, calls w' = calls w ++ [mkCall (Some id) req Failure].
Proof.
  intros Hrun.
  destruct (push_item_cases id e c w)
    as [[? E] | [(? & _ & E) | (req & ? & _ &
          [[Hgw E] | [(s & d & _ & _ & E) | (d & st & _ & E)]])]];
    rewrite E in Hrun; simplify_eq.
  exists req. cbn. by rewrite Hgw.
Qed.

Lemma same_payload_refl e : same_payload e e.
Proof. unfold same_payload. repeat split; lia. Qed.

Lemma same_payload_trans e1 e2 e3 :
  same_payload e1 e2 -> same_payload e2 e3 -> same_payload e1 e3.
Proof.
  unfold same_payload. intros (? & ? & ? & ? & ? & ?) (? & ? & ? & ? & ? & ?).
  repeat split; try congruence. lia.
Qed.

Lemma push_loop_queue items : forall c w r w',
  NoDup (items.*1) ->
  (forall id e, (id, e) ∈ items -> q_recs (queue w) !! id = Some e) ->
  push_loop items c w = (r, w') ->
  exists c' go, r = Ret (c', go) /\
    pushed c <= pushed c' /\ errors c <= errors c' /\
    (pushed c' - pushed c) + (errors c' - errors c) <= Z.of_nat (length items) /\
    (go = true ->
     (pushed c' - pushed c) + (errors c' - errors c) = Z.of_nat (length items)) /\
    (go = false -> exists c, c ∈ new_calls w w' /\ c_resp c = Failure) /\
    Z.of_nat (size (q_recs (queue w'))) + (pushed c' - pushed c)
      <= Z.of_nat (size (q_recs (queue w))) /\
    (forall k e', q_recs (queue w') !! k = Some e' ->
       exists e, q_recs (queue w) !! k = Some e /\ same_payload e e').
Proof.
  induction items as [|[id e] rest IH]; intros c w r w' Hnd Hin Hrun; simpl in *.
  - unfold ret in Hrun. simplify_eq. exists c, true.
    repeat split; try lia; try done.
    intros k e' ->. eexists; split; [done | apply same_payload_refl].
  - apply NoDup_cons in Hnd as [Hid Hnd].
    unfold bind in Hrun. destruct (push_item (id, e) c w) as [r1 w1] eqn:E.
    pose proof (push_item_frame _ _ _ _ _ E) as [_ (Hother & _ & (n1 & Hn1 & _) & _)].
    destruct (push_item_queue _ _ _ _ _ _ E) as (c1 & go1 & -> & Hq).
    assert (He : q_recs (queue w) !! id = Some e) by (apply Hin, list_elem_of_here).
    assert (Hrest : forall id' e', (id', e') ∈ rest ->
              q_recs (queue w1) !! id' = Some e').
    { intros id' e' Hx. cbn in Hother. rewrite Hother.
      - apply Hin. by apply list_elem_of_further.
      - intros Hk. apply list_elem_of_singleton in Hk as ->.
        apply Hid. apply list_elem_of_fmap. by exists (id, e'). }
    assert (Hstep :
      Z.of_nat (size (q_recs (queue w1))) + (pushed c1 - pushed c)
        <= Z.of_nat (size (q_recs (queue w))) /\
      pushed c <= pushed c1 /\ errors c <= errors c1 /\
      (pushed c1 - pushed c) + (errors c1 - errors c) = 1 /\
      (forall k e', q_recs (queue w1) !! k = Some e' ->
         exists e0, q_recs (queue w) !! k = Some e0 /\ same_payload e0 e')).
    { destruct Hq as [(Hq & _ & Hc) | (Hq & Hlt & Hp & Herr)]; rewrite Hq.
      - split; [|split; [|split; [|split]]]; try lia.
        + unfold queue_delete; cbn. rewrite map_size_delete, He.
          assert (0 < size (q_recs (queue w)))%nat.
          { apply Nat.neq_0_lt_0. intros Hz. apply map_size_empty_inv in Hz.
            rewrite Hz in He. by rewrite lookup_empty in He. }
          lia.
        + intros k e'. rewrite queue_delete_lookup.
          destruct (decide (k = id)); [done|]. intros ->.
          eexists; split; [done | apply same_payload_refl].
      - split; [|split; [|split; [|split]]]; try lia.
        + assert (size (q_recs (retried id (q_retries e) (queue w))) =
                  size (q_recs (queue w))) as ->; [|lia].
          unfold retried, queue_get. rewrite He. cbn.
          by rewrite map_size_insert, He.
        + intros k e'. rewrite retried_lookup.
          destruct (decide (k = id)) as [->|].
          * rewrite He. cbn. intros [= <-]. exists e. split; [done|].
            unfold same_payload, with_retries; cbn. repeat split; lia.
          * intros ->. eexists; split; [done | apply same_payload_refl]. }
    destruct Hstep as (Hsz & Hp & Herr & Hone & Hpay).
    cbn [snd fst] in Hrun. destruct go1.
    + destruct (IH _ _ _ _ Hnd Hrest Hrun)
        as (c' & go & -> & Hp2 & He2 & Hle & Heq & Hbrk & Hsz2 & Hpay2).
      exists c', go. split; [done|].
      pose proof (push_loop_frame _ _ _ _ _ Hrun) as (_ & _ & (n2 & Hn2 & _) & _).
      repeat split; try lia.
      * intros Hgo. specialize (Heq Hgo). lia.
      * intros Hgo. destruct (Hbrk Hgo) as (x & Hx & Hf). exists x. split; [|done].
        unfold new_calls in *. rewrite Hn2, Hn1 in *.
        rewrite <- app_assoc, drop_app_length.
        rewrite drop_app_length in Hx. apply elem_of_app; auto.
      * intros k e' Hk. destruct (Hpay2 _ _ Hk) as (e1 & Hk1 & Hs1).
        destruct (Hpay _ _ Hk1) as (e0 & Hk0 & Hs0).
        exists e0. split; [done|]. by eapply same_payload_trans.
    + unfold ret in Hrun. simplify_eq.
      exists c1, false. split; [done|].
      repeat split; try lia; try done.
      intros _. destruct (push_item_break _ _ _ _ _ _ E) as (req & Hc).
      exists (mkCall (Some id) req Failure). split; [|reflexivity].
      unfold new_calls. rewrite Hc, drop_app_length. apply list_elem_of_here.
Qed.

Lemma snapshot_length w : length (snapshot w) = size (q_recs (queue w)).
Proof. by rewrite snapshot_perm, length_map_to_list. Qed.

Lemma syncNow_inv w res w' :
  online w = true -> truthy (scriptUrl w) = true ->
  syncNow w = (Ret res, w') ->
  exists c go w1 pulled,
    push_loop (snapshot w) (mkCounters 0 0) w = (Ret (c, go), w1) /\
    res = mkResult (pushed c) pulled (errors c) /\
    pull_frame w1 w'.
Proof.
  intros Hon Hurl Hrun.
  destruct (push_loop_total (snapshot w) (mkCounters 0 0) w) as ([c go] & w1 & Hpush).
  destruct (syncNow_run w c go w1 Hon Hurl Hpush) as (pulled & w2 & Hs & Hf).
  rewrite Hs in Hrun. simplify_eq. by exists c, go, w1, pulled.
Qed.

(** X1 (syncNow, data.js 449-529): a cycle never rejects, whatever the
    gateway answers; offline, or with no script URL, it returns
    [{pushed: 0, pulled: 0, errors: 0}] and changes nothing (no request,
    no clock reading, no queue change). *)
Theorem syncNow_never_rejects w :
  exists res w',
    syncNow w = (Ret res, w') /\
    (online w = false \/ truthy (scriptUrl w) = false ->
     res = mkResult 0 0 0 /\ w' = w).
Proof.
  destruct (online w) eqn:Hon; [destruct (truthy (scriptUrl w)) eqn:Hurl|].
  - destruct (push_loop_total (snapshot w) (mkCounters 0 0) w) as ([c go] & w1 & Hpush).
    destruct (syncNow_run w c go w1 Hon Hurl Hpush) as (pulled & w2 & Hs & _).
    eexists _, _. split; [exact Hs|]. intros [?|?]; done.
  - exists (mkResult 0 0 0), w. split; [|done].
    unfold syncNow, bind, isOnline, reads, ret. by rewrite Hon, Hurl.
  - exists (mkResult 0 0 0), w. split; [|done].
    unfold syncNow, bind, isOnline, reads, ret. by rewrite Hon.
Qed.

(** X2 (syncNow, data.js 465-506): the counters of a cycle account for
    the queue entries it went through, each once: [pushed + errors] is at
    most the number of queued entries, and equal to it when no request of
    the cycle failed in the transport; every entry counted in [pushed] has
    left the queue. *)
Theorem syncNow_counts_each_entry_once w res w' :
  online w = true -> truthy (scriptUrl w) = true ->
  syncNow w = (Ret res, w') ->
  let before := Z.of_nat (size (q_recs (queue w))) in
  let after := Z.of_nat (size (q_recs (queue w'))) in
  0 <= r_pushed res /\ 0 <= r_errors res /\
  r_pushed res + r_errors res <= before /\
  after + r_pushed res <= before /\
  ((forall c, c ∈ new_calls w w' -> c_resp c <> Failure) ->
   r_pushed res + r_errors res = before).
Proof.
  intros Hon Hurl Hrun before after.
  destruct (syncNow_inv _ _ _ Hon Hurl Hrun) as (c & go & w1 & pulled & Hpush & -> & Hpf).
  destruct (push_loop_queue _ _ _ _ _ (snapshot_NoDup w)
              (fun id e H => proj1 (snapshot_elem_of w id e) H) Hpush)
    as (c' & go' & Heq & Hp & He & Hle & Hall & Hbrk & Hsz & _).
  simplify_eq. clear Hrun. cbn in *. rewrite snapshot_length in *.
  destruct Hpf as (Hq & (n2 & Hn2 & _) & _).
  subst before after. rewrite Hq.
  repeat split; try lia.
  intros Hok. enough (go' = true) as Hgo by (specialize (Hall Hgo); lia).
  destruct go'; [done|].
  destruct (Hbrk eq_refl) as (x & Hx & Hf).
  exfalso. apply (Hok x); [|done].
  pose proof (push_loop_frame _ _ _ _ _ Hpush) as (_ & _ & (n1 & Hn1 & _) & _).
  unfold new_calls in *. rewrite Hn2, Hn1, <- app_assoc, drop_app_length.
  rewrite Hn1, drop_app_length in Hx. apply elem_of_app; auto.
Qed.

(** X3 (syncNow, _removeFromQueue, _incrementRetries, data.js 449-529,
    720-753): a cycle never adds a queue entry and never rewrites one:
    whatever is queued afterwards was queued before under the same id,
    with the same sheet, action, data, row index and time stamp, and with
    at least as many retries. *)
Theorem syncNow_keeps_queued_payloads w res w' k e' :
  syncNow w = (Ret res, w') ->
  q_recs (queue w') !! k = Some e' ->
  exists e, q_recs (queue w) !! k = Some e /\ same_payload e e'.
Proof.
  intros Hrun Hk.
  destruct (online w) eqn:Hon; [destruct (truthy (scriptUrl w)) eqn:Hurl|].
  - destruct (syncNow_inv _ _ _ Hon Hurl Hrun) as (c & go & w1 & pulled & Hpush & -> & Hpf).
    destruct (push_loop_queue _ _ _ _ _ (snapshot_NoDup w)
                (fun id e H => proj1 (snapshot_elem_of w id e) H) Hpush)
      as (c' & go' & _ & _ & _ & _ & _ & _ & _ & Hpay).
    destruct Hpf as (Hq & _). rewrite Hq in Hk. by apply Hpay.
  - unfold syncNow, bind, isOnline, reads, ret in Hrun. rewrite Hon, Hurl in Hrun.
    cbn in Hrun. simplify_eq. eexists; split; [done | apply same_payload_refl].
  - unfold syncNow, bind, isOnline, reads, ret in Hrun. rewrite Hon in Hrun.
    cbn in Hrun. simplify_eq. eexists; split; [done | apply same_payload_refl].
Qed.



(* ==================================================================== *)
(** ** After an accepted push *)
(* ==================================================================== *)

Lemma table_insert sheet s w : table (set_stores <[sheet := s]> w) sheet = s.
Proof. unfold table. cbn. by rewrite lookup_insert_eq. Qed.

Lemma table_insert_ne sheet sheet' s w :
  sheet' <> sheet -> table (set_stores <[sheet := s]> w) sheet' = table w sheet'.
Proof. intros Hne. unfold table. cbn. by rewrite lookup_insert_ne. Qed.

Lemma table_set_queue f w sheet : table (set_queue f w) sheet = table w sheet.
Proof. reflexivity. Qed.

Lemma table_set_spawned f w sheet : table (set_spawned f w) sheet = table w sheet.
Proof. reflexivity. Qed.

Lemma table_sent who req w sheet : table (sent who req w) sheet = table w sheet.
Proof. reflexivity. Qed.

Lemma keyPath_not_synced sheet : keyPath_of sheet <> "_synced".
Proof. unfold keyPath_of. by destruct (String.eqb sheet "profile"). Qed.

Lemma _markSynced_run sheet data k r w :
  includes sheet DATA_STORES = true ->
  prop data "id" <> VUndef ->
  to_key (record_key sheet data) = Some k ->
  recs (table w sheet) !! k = Some r ->
  _markSynced sheet data w =
  (Ret tt,
   set_stores
     <[sheet := mkStore (bump (autoIncrement_of sheet) (keygen (table w sheet)) k)
                  (<[k := <["_synced" := VBool true]> (stored (keyPath_of sheet) k r)]>
                     (recs (table w sheet)))]> w).
Proof.
  intros Hs Hid Hk Hr. unfold _markSynced, strict_eq.
  rewrite bool_decide_eq_false_2 by done.
  unfold try_catch.
  erewrite bind_run by (rewrite (idb_get_run _ _ k) by done; rewrite Hr; reflexivity).
  cbn [fmap option_fmap option_map].
  erewrite bind_run.
  2:{ apply idb_write_run; [done|]. apply store_put_keyed.
      rewrite lookup_insert_ne by (apply not_eq_sym, keyPath_not_synced).
      unfold stored. by rewrite lookup_insert_eq. }
  reflexivity.
Qed.

(** X5 (syncNow, _markSynced, _removeFromQueue, data.js 483-492, 720-729,
    758-783): when the push of an append or update entry is accepted, the
    record stored under the entry's key gets [_synced: true], whatever it
    holds by then (its other fields, and every other record, stay as they
    are), and the entry leaves the queue. *)
Theorem accepted_push_marks_record_synced id e c w k r req data :
  q_retries e < MAX_RETRIES ->
  q_action e <> "delete" ->
  push_request e = Some req ->
  gateway (calls w) req = Json (VBool true) data ->
  includes (q_sheet e) DATA_STORES = true ->
  prop (q_data e) "id" <> VUndef ->
  to_key (record_key (q_sheet e) (q_data e)) = Some k ->
  recs (table w (q_sheet e)) !! k = Some r ->
  let kp := keyPath_of (q_sheet e) in
  exists w',
    push_item (id, e) c w = (Ret (mkCounters (pushed c + 1) (errors c), true), w') /\
    idb_get (q_sheet e) (key_val k) w' =
      (Ret (Some (<["_synced" := VBool true]> (stored kp k r))), w') /\
    (forall k', k' <> k ->
       recs (table w' (q_sheet e)) !! k' = recs (table w (q_sheet e)) !! k') /\
    q_recs (queue w') !! id = None.
Proof.
  intros Hr Hact Hreq Hgw Hs Hid Hk Hrec kp.
  unfold push_item; cbn [fst snd].
  destruct (Z.leb_spec MAX_RETRIES (q_retries e)); [lia|].
  unfold try_catch, push_attempt, bind at 1 2.
  rewrite _pushToSheets_request, Hreq, Hgw.
  unfold strict_eq. rewrite bool_decide_eq_true_2 by done.
  cbn [fst snd]. unfold bind at 1.
  rewrite (_markSynced_run _ _ k r) by done.
  unfold bind at 1. unfold _removeFromQueue at 1, modify at 1.
  unfold bind at 1.
  apply String.eqb_neq in Hact. rewrite Hact.
  unfold ret at 1. unfold bind, ret.
  eexists. split; [reflexivity|].
  split; [|split].
  - rewrite (idb_get_run _ _ k) by (done || apply key_val_to_key).
    rewrite table_set_queue, table_insert. cbn [recs].
    rewrite lookup_insert_eq. cbn [fmap option_fmap option_map].
    do 3 f_equal. apply stored_idem.
    rewrite lookup_insert_ne by (apply not_eq_sym, keyPath_not_synced).
    unfold stored. by rewrite lookup_insert_eq.
  - intros k' Hne. rewrite table_set_queue, table_insert. cbn [recs].
    by rewrite lookup_insert_ne.
  - cbn. by rewrite lookup_delete_eq.
Qed.

(* ==================================================================== *)
(** ** update *)
(* ==================================================================== *)

Lemma assign_lookup_l (a b : Obj) f v : b !! f = Some v -> assign a b !! f = Some v.
Proof. intros H. unfold assign. by apply lookup_union_Some_l. Qed.

Lemma assign_lookup_r (a b : Obj) f : b !! f = None -> assign a b !! f = a !! f.
Proof. intros H. unfold assign. by apply lookup_union_r. Qed.

Lemma update_run sheet key updates w k k' r :
  includes sheet DATA_STORES = true ->
  to_key key = Some k ->
  recs (table w sheet) !! k = Some r ->
  q_recs (queue w) !! q_keygen (queue w) = None ->
  let kp := keyPath_of sheet in
  let updated :=
    assign (assign (stored kp k r) updates)
           {[ "_synced" := VBool false; "_modified" := VNum (clock (ticks w)) ]} in
  updated !! kp = Some (key_val k') ->
  let s' := mkStore (bump (autoIncrement_of sheet) (keygen (table w sheet)) k')
                    (<[k' := updated]> (recs (table w sheet))) in
  let e := mkEntry sheet "update" updated
             (js_or (js_or (prop updated "_rowIndex") VNull) VNull)
             (clock (S (ticks w))) 0 in
  exists tasks,
    update sheet key updates w =
    (Ret (Some updated),
     set_spawned (fun _ => tasks)
       (set_queue (enqueued e)
          (set_ticks S (set_stores <[sheet := s']> (set_ticks S w))))).
Proof.
  intros Hs Hk Hr Hfresh kp updated Hdk s' e.
  unfold update.
  erewrite bind_run by (rewrite (idb_get_run _ _ k) by done; rewrite Hr; reflexivity).
  cbn [fmap option_fmap option_map].
  erewrite bind_run by reflexivity. fold kp. fold updated.
  erewrite bind_run.
  2:{ apply idb_write_run; [done|]. rewrite table_set_ticks.
      by apply store_put_keyed. }
  erewrite bind_run by (by apply _enqueue_run).
  destruct (trigger_sync_run
    (set_queue (enqueued e)
       (set_ticks S (set_stores <[sheet := s']> (set_ticks S w))))) as [tasks Ht].
  exists tasks. erewrite bind_run by exact Ht. reflexivity.
Qed.

Lemma keyPath_not_stamp sheet : keyPath_of sheet ∉ ["_synced"; "_modified"].
Proof.
  unfold keyPath_of. destruct (String.eqb sheet "profile");
    intros H; repeat (apply elem_of_cons in H as [H|H]; [done|]);
    by apply elem_of_nil in H.
Qed.

Lemma updated_fields (existing updates : Obj) now :
  let updated :=
    assign (assign existing updates)
           {[ "_synced" := VBool false; "_modified" := VNum now ]} in
  updated !! "_synced" = Some (VBool false) /\
  updated !! "_modified" = Some (VNum now) /\
  (forall f, f ∉ ["_synced"; "_modified"] ->
     updated !! f = match updates !! f with
                    | Some v => Some v
                    | None => existing !! f
                    end).
Proof.
  cbn zeta. split; [|split].
  - by apply assign_lookup_l.
  - apply assign_lookup_l. by rewrite lookup_insert_ne.
  - intros f Hf. rewrite assign_lookup_r.
    + destruct (updates !! f) as [v|] eqn:E.
      * by apply assign_lookup_l.
      * by apply assign_lookup_r.
    + rewrite lookup_insert_ne, lookup_singleton_ne; [done| |];
        intros <-; apply Hf; repeat constructor.
Qed.

(** X6 (update, data.js 257-294): an update of a stored record that does
    not touch the key field writes, under the same key, the record with
    the given fields replaced, [_synced: false] and a fresh [_modified];
    it resolves with that record, which is what the key reads back;
    every other record is as before; and exactly one [update] entry
    carrying the record is queued, with no retries. *)
Theorem update_overwrites_and_enqueues w sheet key existing updates :
  idb_get sheet key w = (Ret (Some existing), w) ->
  q_recs (queue w) !! q_keygen (queue w) = None ->
  updates !! keyPath_of sheet = None ->
  let now := clock (ticks w) in
  let qid := q_keygen (queue w) in
  exists updated w1 e,
    update sheet key updates w = (Ret (Some updated), w1) /\
    idb_get sheet key w1 = (Ret (Some updated), w1) /\
    (forall f v, updates !! f = Some v -> f ∉ ["_synced"; "_modified"] ->
                 updated !! f = Some v) /\
    (forall f, updates !! f = None -> f ∉ ["_synced"; "_modified"] ->
               updated !! f = existing !! f) /\
    prop updated "_synced" = VBool false /\
    prop updated "_modified" = VNum now /\
    (forall k k', to_key key = Some k -> k' <> k ->
       recs (table w1 sheet) !! k' = recs (table w sheet) !! k') /\
    q_recs (queue w1) = <[qid := e]> (q_recs (queue w)) /\
    q_sheet e = sheet /\ q_action e = "update" /\ q_data e = updated /\
    q_rowIndex e = js_or (prop updated "_rowIndex") VNull /\
    q_retries e = 0.
Proof.
  intros Hget Hfresh Hupd now qid.
  destruct (idb_get_inv _ _ _ _ _ Hget) as (_ & Hs & k & r & Hk & Hr & ->).
  set (kp := keyPath_of sheet).
  set (updated := assign (assign (stored kp k r) updates)
                    {[ "_synced" := VBool false; "_modified" := VNum now ]}).
  destruct (updated_fields (stored kp k r) updates now) as (Hsy & Hmo & Hrest).
  fold updated in Hsy, Hmo, Hrest.
  assert (Hdk : updated !! kp = Some (key_val k)).
  { rewrite Hrest by apply keyPath_not_stamp. fold kp in Hupd. rewrite Hupd.
    unfold stored. by rewrite lookup_insert_eq. }
  destruct (update_run sheet key updates w k k r Hs Hk Hr Hfresh Hdk) as [tasks Hrun].
  set (e := mkEntry sheet "update" updated
              (js_or (js_or (prop updated "_rowIndex") VNull) VNull)
              (clock (S (ticks w))) 0) in Hrun.
  eexists updated, _, e. split; [exact Hrun|].
  split; [|split; [|split; [|split; [|split; [|split]]]]].
  - rewrite (idb_get_run _ _ k) by done.
    rewrite table_set_spawned, table_set_queue, table_set_ticks, table_insert.
    cbn [recs]. rewrite lookup_insert_eq. cbn [fmap option_fmap option_map].
    do 3 f_equal. by apply stored_idem.
  - intros f v Hf Hn. rewrite Hrest by done. by rewrite Hf.
  - intros f Hf Hn. rewrite Hrest by done. by rewrite Hf.
  - unfold prop. by rewrite Hsy.
  - unfold prop. by rewrite Hmo.
  - intros k0 k' Hk0 Hne. rewrite Hk in Hk0. simplify_eq.
    rewrite table_set_spawned, table_set_queue, table_set_ticks, table_insert.
    cbn [recs]. by rewrite lookup_insert_ne.
  - repeat split; try reflexivity.
    unfold e. cbn [q_rowIndex]. unfold js_or.
    destruct (truthy (prop updated "_rowIndex")) eqn:E; [by rewrite E | done].
Qed.

(** X7 (update, delete, data.js 257-269, 304-316): on a key under which
    nothing is stored, [update] resolves with [null] and [delete] with
    [false], and neither changes anything: no write, no queue entry, no
    clock reading, no cycle launched. *)
Theorem update_delete_missing_record w sheet key k updates :
  includes sheet DATA_STORES = true ->
  to_key key = Some k ->
  recs (table w sheet) !! k = None ->
  update sheet key updates w = (Ret None, w) /\
  delete sheet key w = (Ret false, w).
Proof.
  intros Hs Hk Hr. split.
  - unfold update.
    erewrite bind_run by (rewrite (idb_get_run _ _ k) by done; rewrite Hr; reflexivity).
    reflexivity.
  - unfold delete.
    erewrite bind_run by (rewrite (idb_get_run _ _ k) by done; rewrite Hr; reflexivity).
    reflexivity.
Qed.

Lemma push_rowIndex_null e :
  truthy (q_rowIndex e) = false ->
  truthy (prop (q_data e) "_rowIndex") = false ->
  truthy (prop (q_data e) "_sheetRowIndex") = false ->
  push_rowIndex e = VNull.
Proof.
  intros H1 H2 H3. unfold push_rowIndex, js_or.
  rewrite H1, H2, H3. reflexivity.
Qed.

(** X8 (update, delete, _enqueue, _pushToSheets, data.js 257-339, 628-668,
    698-715): a record with no truthy [_rowIndex] and [_sheetRowIndex]
    (one made by [save] and never pulled, or one pulled from row position
    0) has no row to address: the entry that [update] queues for it is
    sent as an [update] request with [rowIndex: null], and the entry
    that [delete] queues as a [delete] request with [rowIndex: null]. *)
Theorem unplaced_record_is_sent_without_row_index w sheet key existing updates :
  idb_get sheet key w = (Ret (Some existing), w) ->
  q_recs (queue w) !! q_keygen (queue w) = None ->
  sheet <> "profile" ->
  truthy (prop existing "_rowIndex") = false ->
  truthy (prop existing "_sheetRowIndex") = false ->
  updates !! "id" = None ->
  updates !! "_rowIndex" = None ->
  updates !! "_sheetRowIndex" = None ->
  let qid := q_keygen (queue w) in
  (exists updated w1 e,
     update sheet key updates w = (Ret (Some updated), w1) /\
     q_recs (queue w1) !! qid = Some e /\
     push_request e =
       Some (Post "update" (BodyRow sheet VNull (objectToRowArray sheet updated)))) /\
  (exists w1 e,
     delete sheet key w = (Ret true, w1) /\
     q_recs (queue w1) !! qid = Some e /\
     push_request e = Some (Post "delete" (BodyIndex sheet VNull))).
Proof.
  intros Hget Hfresh Hnp Hri Hsri Hid Huri Husri qid.
  destruct (idb_get_inv _ _ _ _ _ Hget) as (_ & Hs & k & r & Hk & Hr & ->).
  apply String.eqb_neq in Hnp.
  assert (Hkp : keyPath_of sheet = "id") by (unfold keyPath_of; by rewrite Hnp).
  set (kp := keyPath_of sheet) in *.
  split.
  - set (updated := assign (assign (stored kp k r) updates)
                      {[ "_synced" := VBool false;
                         "_modified" := VNum (clock (ticks w)) ]}).
    destruct (updated_fields (stored kp k r) updates (clock (ticks w)))
      as (_ & _ & Hrest).
    fold updated in Hrest.
    assert (Hdk : updated !! kp = Some (key_val k)).
    { rewrite Hrest by apply keyPath_not_stamp. rewrite Hkp, Hid, <- Hkp.
      unfold stored. by rewrite lookup_insert_eq. }
    destruct (update_run sheet key updates w k k r Hs Hk Hr Hfresh Hdk) as [tasks Hrun].
    set (e := mkEntry sheet "update" updated
                (js_or (js_or (prop updated "_rowIndex") VNull) VNull)
                (clock (S (ticks w))) 0) in Hrun.
    assert (H1 : prop updated "_rowIndex" = prop (stored kp k r) "_rowIndex").
    { unfold prop. rewrite Hrest, Huri; [done|].
      intros H; repeat (apply elem_of_cons in H as [H|H]; [done|]);
        by apply elem_of_nil in H. }
    assert (H2 : prop updated "_sheetRowIndex" = prop (stored kp k r) "_sheetRowIndex").
    { unfold prop. rewrite Hrest, Husri; [done|].
      intros H; repeat (apply elem_of_cons in H as [H|H]; [done|]);
        by apply elem_of_nil in H. }
    eexists updated, _, e. split; [exact Hrun|]. split.
    + cbn. by rewrite lookup_insert_eq.
    + unfold push_request, e. cbn [q_action q_sheet q_data].
      change (String.eqb "update" "append") with false.
      change (String.eqb "update" "update") with true.
      cbv iota. rewrite Hnp. rewrite push_rowIndex_null; [done| | |].
      * cbn [q_rowIndex]. rewrite H1. unfold js_or. by rewrite Hri.
      * cbn [q_data]. by rewrite H1.
      * cbn [q_data]. by rewrite H2, Hsri.
  - set (deleted := soft_deleted (clock (ticks w)) (stored kp k r)).
    destruct (soft_deleted_fields (clock (ticks w)) (stored kp k r))
      as (_ & _ & _ & Hsame).
    fold deleted in Hsame.
    destruct (delete_run sheet key w k r Hs Hk Hr Hfresh) as [tasks Hrun].
    fold kp in Hrun. fold deleted in Hrun.
    set (e := mkEntry sheet "delete" deleted
                (js_or (js_or (prop deleted "_rowIndex") VNull) VNull)
                (clock (S (ticks w))) 0) in Hrun.
    assert (H1 : prop deleted "_rowIndex" = prop (stored kp k r) "_rowIndex").
    { unfold prop. rewrite Hsame; [done|].
      intros H; repeat (apply elem_of_cons in H as [H|H]; [done|]);
        by apply elem_of_nil in H. }
    assert (H2 : prop deleted "_sheetRowIndex" = prop (stored kp k r) "_sheetRowIndex").
    { unfold prop. rewrite Hsame; [done|].
      intros H; repeat (apply elem_of_cons in H as [H|H]; [done|]);
        by apply elem_of_nil in H. }
    eexists _, e. split; [exact Hrun|]. split.
    + cbn. by rewrite lookup_insert_eq.
    + unfold push_request, e. cbn [q_action q_sheet q_data].
      change (String.eqb "delete" "append") with false.
      change (String.eqb "delete" "update") with false.
      change (String.eqb "delete" "delete") with true.
      cbv iota. rewrite push_rowIndex_null; [done| | |].
      * cbn [q_rowIndex]. rewrite H1. unfold js_or. by rewrite Hri.
      * cbn [q_data]. by rewrite H1.
      * cbn [q_data]. by rewrite H2, Hsri.
Qed.

(* ==================================================================== *)
(** ** get *)
(* ==================================================================== *)

#[local] Instance read_only_refl : Reflexive read_only.
Proof. intros w. by repeat split. Qed.

#[local] Instance read_only_trans : Transitive read_only.
Proof.
  intros w1 w2 w3 (? & ? & ? & ? & ?) (? & ? & ? & ? & ?).
  repeat split; congruence.
Qed.

Lemma pull_if_stale_run sheet from to w :
  online w = true -> truthy (scriptUrl w) = true ->
  pull_if_stale sheet from to w =
  (Ret tt,
   if STALE_THRESHOLD_MS <?
        clock (ticks w) - default 0 (lastPull w !! pull_key sheet from to)
   then set_lastPull <[pull_key sheet from to := clock (S (ticks w))]>
          (set_ticks S
             (set_spawned (fun l => l ++ [TaskPull sheet from to]) (set_ticks S w)))
   else set_ticks S w).
Proof.
  intros Hon Hurl. unfold pull_if_stale, isOnline.
  erewrite bind_run by reflexivity.
  erewrite bind_run by reflexivity.
  rewrite Hon, Hurl. cbn [andb].
  erewrite bind_run by reflexivity.
  erewrite bind_run by reflexivity.
  fold (pull_key sheet from to). cbn [lastPull set_ticks].
  destruct (STALE_THRESHOLD_MS <? _); reflexivity.
Qed.



Lemma get_inv sheet options w res w' :
  get sheet options w = (Ret res, w') ->
  let from := js_or (js_or (o_date options) (o_from options)) VNull in
  let to := js_or (js_or (o_date options) (o_to options)) VNull in
  includes sheet DATA_STORES = true /\
  (exists raw,
     (if truthy from && truthy to && includes sheet DATE_INDEXED_STORES
      then index_getAll (keyPath_of sheet) (table w sheet) from to
      else inr (store_getAll (keyPath_of sheet) (table w sheet))) = inr raw /\
     res = apply_limit (o_limit options) (List.filter not_deleted raw)) /\
  pull_if_stale sheet from to w = (Ret tt, w').
Proof.
  intros Hrun from to.
  destruct (includes sheet DATA_STORES) eqn:Hs.
  2:{ unfold get, bind, open_store in Hrun. rewrite Hs in Hrun. by simplify_eq. }
  split; [done|].
  unfold get in Hrun.
  erewrite bind_run in Hrun by (by apply open_store_run).
  fold from in Hrun. fold to in Hrun.
  destruct (truthy from && truthy to && includes sheet DATE_INDEXED_STORES).
  - destruct (index_getAll _ _ _ _) as [e|raw]; [by simplify_eq|].
    erewrite bind_run in Hrun by reflexivity.
    destruct (pull_if_stale_total sheet from to w) as [w1 E].
    erewrite bind_run in Hrun by exact E. unfold ret in Hrun. simplify_eq.
    split; [by exists raw | done].
  - erewrite bind_run in Hrun by reflexivity.
    destruct (pull_if_stale_total sheet from to w) as [w1 E].
    erewrite bind_run in Hrun by exact E. unfold ret in Hrun. simplify_eq.
    split; [by eexists | done].
Qed.

Lemma key_leb_antisym a b : key_leb a b = true -> key_leb b a = true -> a = b.
Proof.
  destruct a as [x|s], b as [y|t]; cbn; try done.
  - intros H1 H2. apply Z.leb_le in H1, H2. f_equal. lia.
  - intros H1 H2. f_equal. by apply String.leb_antisym.
Qed.


(** X10 (get, data.js 165-190): on a date-indexed sheet, a [get] with a
    truthy [from] and [to] (or [date], which stands for both) resolves
    only with records whose [date] lies between them in key order; with
    [date], every record returned has exactly that [date]. *)
Theorem get_by_range_returns_records_in_range sheet options w res w' r :
  includes sheet DATE_INDEXED_STORES = true ->
  let from := js_or (js_or (o_date options) (o_from options)) VNull in
  let to := js_or (js_or (o_date options) (o_to options)) VNull in
  truthy from = true -> truthy to = true ->
  get sheet options w = (Ret res, w') ->
  r ∈ res ->
  in_range_of from to r /\
  (truthy (o_date options) = true -> prop r "date" = o_date options).
Proof.
  intros Hdi from to Hf Ht Hrun Hr.
  destruct (get_inv _ _ _ _ _ Hrun) as (_ & (raw & Hraw & ->) & _).
  fold from in Hraw. fold to in Hraw. rewrite Hf, Ht, Hdi in Hraw. cbn [andb] in Hraw.
  apply apply_limit_subset in Hr. apply list_elem_of_In, filter_In in Hr as [Hr _].
  apply list_elem_of_In in Hr.
  destruct (index_getAll_from_store _ _ _ _ _ _ Hraw Hr) as (k & r0 & _ & -> & Hin).
  split; [done|]. intros Hd.
  assert (from = o_date options) as Hfd
    by (unfold from, js_or; rewrite Hd; by rewrite Hd).
  assert (to = o_date options) as Htd
    by (unfold to, js_or; rewrite Hd; by rewrite Hd).
  rewrite Hfd, Htd in Hin. unfold in_range_of in Hin.
  destruct (to_key (o_date options)) as [l|] eqn:Hl; [|done].
  unfold in_range, index_key in Hin.
  destruct (to_key (prop _ "date")) as [d|] eqn:Hk; [|done].
  apply andb_true_iff in Hin as [H1 H2].
  rewrite (key_leb_antisym _ _ H1 H2) in Hl.
  apply to_key_val in Hl, Hk. congruence.
Qed.

(** X11 (get, data.js 192-202): the staleness gate.  Online and with a
    script URL, a [get] whose clock reading is more than
    STALE_THRESHOLD_MS past the time stamp of its range launches one
    background pull of that range and stamps the range with a second
    clock reading, taken at the launch and not when the pull ends; a
    [get] of the same range right after it, whose reading is within the
    threshold of that stamp, launches nothing. *)
Theorem get_pulls_once_per_window sheet options w res w1 res2 w2 :
  online w = true -> truthy (scriptUrl w) = true ->
  let from := js_or (js_or (o_date options) (o_from options)) VNull in
  let to := js_or (js_or (o_date options) (o_to options)) VNull in
  let key := pull_key sheet from to in
  STALE_THRESHOLD_MS < clock (ticks w) - default 0 (lastPull w !! key) ->
  get sheet options w = (Ret res, w1) ->
  get sheet options w1 = (Ret res2, w2) ->
  clock (ticks w1) - clock (S (ticks w)) <= STALE_THRESHOLD_MS ->
  spawned w1 = spawned w ++ [TaskPull sheet from to] /\
  lastPull w1 !! key = Some (clock (S (ticks w))) /\
  spawned w2 = spawned w1 /\
  lastPull w2 = lastPull w1.
Proof.
  intros Hon Hurl from to key Hstale Hrun1 Hrun2 Hfresh.
  destruct (get_inv _ _ _ _ _ Hrun1) as (_ & _ & Hp1).
  destruct (get_inv _ _ _ _ _ Hrun2) as (_ & _ & Hp2).
  fold from in Hp1, Hp2. fold to in Hp1, Hp2.
  rewrite pull_if_stale_run in Hp1 by done. fold key in Hp1.
  destruct (Z.ltb_spec STALE_THRESHOLD_MS
              (clock (ticks w) - default 0 (lastPull w !! key))) as [_|]; [|lia].
  simplify_eq.
  rewrite pull_if_stale_run in Hp2 by done. fold key in Hp2.
  cbn [lastPull set_lastPull ticks set_ticks set_spawned] in Hp2, Hfresh.
  rewrite lookup_insert_eq in Hp2. cbn [default] in Hp2. unfold id in Hp2.
  destruct (Z.ltb_spec STALE_THRESHOLD_MS
              (clock (S (S (ticks w))) - clock (S (ticks w)))) as [|_]; [lia|].
  simplify_eq. cbn. by rewrite lookup_insert_eq.
Qed.

(* ==================================================================== *)
(** ** save *)
(* ==================================================================== *)

#[local] Instance keeps_records_refl : Reflexive keeps_records.
Proof. by intros w sheet k r. Qed.

#[local] Instance keeps_records_trans : Transitive keeps_records.
Proof. intros w1 w2 w3 H1 H2 sheet k r H. by apply H2, H1. Qed.

Lemma keeps_records_same w w' : stores w' = stores w -> keeps_records w w'.
Proof. intros H sheet k r. unfold table. by rewrite H. Qed.

Lemma keeps_records_idb_add sheet r : preserves keeps_records (idb_add sheet r).
Proof.
  intros w res w' E. unfold idb_add in E.
  destruct (includes sheet DATA_STORES) eqn:Hs.
  2:{ unfold idb_write, bind, open_store in E. rewrite Hs in E.
      simplify_eq. reflexivity. }
  destruct (store_write (keyPath_of sheet) (autoIncrement_of sheet) true
              (table w sheet) r) as [e|[k s']] eqn:Hw.
  { unfold idb_write, bind in E. rewrite open_store_run in E by done.
    rewrite Hw in E. unfold lift, throw in E. simplify_eq. reflexivity. }
  rewrite (idb_write_run _ _ _ _ _ _ Hs Hw) in E. simplify_eq.
  destruct (store_add_inv _ _ _ _ _ _ Hw) as (Hfree & Hrecs & _).
  intros sheet' k' r' H. destruct (decide (sheet' = sheet)) as [->|Hne].
  - rewrite table_insert, Hrecs. rewrite lookup_insert_ne; [done|].
    intros <-. congruence.
  - by rewrite table_insert_ne.
Qed.

Lemma keeps_records_enqueue sheet action data rowIndex :
  preserves keeps_records (_enqueue sheet action data rowIndex).
Proof.
  intros w res w' E. apply keeps_records_same.
  destruct (q_recs (queue w) !! q_keygen (queue w)) eqn:Hq.
  - rewrite _enqueue_full in E by eauto. by simplify_eq.
  - rewrite _enqueue_run in E by done. by simplify_eq.
Qed.

Lemma keeps_records_trigger_sync : preserves keeps_records trigger_sync.
Proof.
  intros w res w' E. apply keeps_records_same.
  destruct (trigger_sync_run w) as [tasks Ht]. rewrite Ht in E. by simplify_eq.
Qed.

Lemma keeps_records_Date_now : preserves keeps_records Date_now.
Proof.
  intros w res w' E. apply keeps_records_same.
  unfold Date_now in E. by simplify_eq.
Qed.

(** X12 (save, data.js 217-247): [save] never replaces or removes a
    stored record, whatever its outcome; given a row whose key field
    names a key that is already in use, it rejects with ConstraintError
    and neither stores nor queues anything. *)
Theorem save_never_overwrites sheet row w r w' :
  save sheet row w = (r, w') ->
  (forall sheet' k r0, recs (table w sheet') !! k = Some r0 ->
                       recs (table w' sheet') !! k = Some r0) /\
  (forall k, includes sheet DATA_STORES = true ->
             row !! keyPath_of sheet = Some (key_val k) ->
             is_Some (recs (table w sheet) !! k) ->
             r = Throw ConstraintError /\ stores w' = stores w /\ queue w' = queue w).
Proof.
  intros Hrun. split.
  - revert w r w' Hrun. change (preserves keeps_records (save sheet row)).
    unfold save.
    apply preserves_bind; [apply _ | apply keeps_records_Date_now | intros now].
    apply preserves_bind; [apply _ | apply keeps_records_idb_add | intros id].
    apply preserves_bind; [apply _ | apply keeps_records_enqueue | intros _].
    apply preserves_bind; [apply _ | apply keeps_records_trigger_sync | intros _].
    apply preserves_ret; apply _.
  - intros k Hs Hk Hin. unfold save in Hrun.
    erewrite bind_run in Hrun by reflexivity.
    set (record := assign row (fresh_meta (clock (ticks w)))) in *.
    assert (Hrk : record !! keyPath_of sheet = Some (key_val k)).
    { destruct (fresh_meta_fields (clock (ticks w)) row) as (_ & _ & _ & Hsame).
      fold record in Hsame. rewrite Hsame; [done|].
      unfold keyPath_of. destruct (String.eqb sheet "profile");
        intros H; repeat (apply elem_of_cons in H as [H|H]; [done|]);
        by apply elem_of_nil in H. }
    unfold idb_add, idb_write in Hrun. unfold bind at 1 2 in Hrun.
    rewrite open_store_run in Hrun by done.
    rewrite table_set_ticks in Hrun.
    unfold store_write, extract_key in Hrun. rewrite Hrk, key_val_to_key in Hrun.
    assert (Hx : match key_val k with VUndef => KFailure | _ => KValid k end = KValid k)
      by (by destruct k).
    rewrite Hx in Hrun. cbn [andb] in Hrun.
    rewrite bool_decide_eq_true_2 in Hrun by done.
    cbn in Hrun. by simplify_eq.
Qed.

(* ==================================================================== *)
(** ** Pulled rows with and without a match *)
(* ==================================================================== *)

Lemma date_indexed_sheet sheet :
  includes sheet DATE_INDEXED_STORES = true ->
  String.eqb sheet "profile" = false /\
  String.eqb sheet "habit_defs" || String.eqb sheet "goals" = false /\
  autoIncrement_of sheet = true /\
  exists cols keys,
    lookup_table sheet COLUMNS = Some cols /\
    lookup_table sheet naturalKeys = Some keys /\
    Forall (fun k => k ∈ cols) keys /\
    "date" ∈ cols /\ "id" ∉ cols.
Proof.
  intros Hd. unfold includes, DATE_INDEXED_STORES in Hd. cbn [existsb] in Hd.
  repeat (apply orb_true_iff in Hd as [Hd|Hd];
          [apply String.eqb_eq in Hd as ->;
           split; [done|]; split; [done|]; split; [done|];
           eexists _, _; split; [reflexivity|]; split; [reflexivity|];
           split; [|split]; apply (bool_decide_unpack _); by vm_compute|]).
  done.
Qed.

Lemma fill_columns_other cols : forall i arr (obj : Obj) c,
  c ∉ cols -> fill_columns cols i arr obj !! c = obj !! c.
Proof.
  induction cols as [|c0 cs IH]; intros i arr obj c Hc; cbn; [done|].
  rewrite IH by (intros ?; apply Hc; by apply list_elem_of_further).
  apply lookup_insert_ne. intros ->. apply Hc, list_elem_of_here.
Qed.

Lemma merge_row_unmatched w sheet i rowArr obj0 :
  rowArrayToObject sheet rowArr = Some obj0 ->
  let obj := stamp_row i (clock (ticks w)) obj0 in
  _findMatchingRecord sheet obj w = (Ret None, w) ->
  merge_row sheet i rowArr w =
    ((if String.eqb sheet "profile" || String.eqb sheet "habit_defs"
         || String.eqb sheet "goals"
      then idb_put sheet obj else idb_add sheet obj) ;;; ret true) (set_ticks S w).
Proof.
  intros Hrow obj Hfind. unfold merge_row. rewrite Hrow.
  erewrite bind_run by reflexivity. fold obj.
  destruct (findMatchingRecord_reads _ _ _ _ _ Hfind) as [_ Hany].
  erewrite bind_run by (by apply Hany).
  reflexivity.
Qed.

Lemma merge_row_find_throws w sheet i rowArr obj0 e w0 :
  rowArrayToObject sheet rowArr = Some obj0 ->
  let obj := stamp_row i (clock (ticks w)) obj0 in
  _findMatchingRecord sheet obj w = (Throw e, w0) ->
  merge_row sheet i rowArr w = (Throw e, set_ticks S w).
Proof.
  intros Hrow obj Hfind. unfold merge_row. rewrite Hrow.
  erewrite bind_run by reflexivity. fold obj.
  destruct (findMatchingRecord_reads _ _ _ _ _ Hfind) as [-> Hany].
  unfold bind. by rewrite (Hany (set_ticks S w)).
Qed.


Lemma decoded_row_column sheet cols rowArr obj0 i now c :
  lookup_table sheet COLUMNS = Some cols ->
  rowArrayToObject sheet rowArr = Some obj0 ->
  c ∈ cols ->
  stamp_row i now obj0 !! c = obj0 !! c /\ is_Some (obj0 !! c) /\
  c ∉ meta_fields.
Proof.
  intros Hcols Hrow Hc.
  destruct (columns_plain _ _ _ Hcols Hc) as [Hplain _].
  split; [by apply stamp_row_lookup|]. split; [|done].
  unfold rowArrayToObject in Hrow. rewrite Hcols in Hrow. simplify_eq.
  by apply fill_columns_dom.
Qed.


Lemma findMatchingRecord_date_valid sheet obj w x w' :
  includes sheet DATE_INDEXED_STORES = true ->
  truthy (prop obj "date") = true ->
  _findMatchingRecord sheet obj w = (Ret x, w') ->
  is_Some (to_key (prop obj "date")).
Proof.
  intros Hd Ht Hf.
  destruct (date_indexed_store _ Hd) as [Hs Hkp].
  destruct (date_indexed_sheet _ Hd) as (Hp & Hh & _).
  unfold _findMatchingRecord in Hf. rewrite Hp, Hh, Ht, Hd in Hf. cbn [andb] in Hf.
  erewrite bind_run in Hf by (by apply open_store_run).
  unfold index_getAll in Hf.
  destruct (to_key (prop obj "date")); [eauto|].
  unfold lift, bind, throw in Hf. by simplify_eq.
Qed.

Lemma merge_row_wrote w sheet cols i rowArr obj0 w1 :
  includes sheet DATE_INDEXED_STORES = true ->
  lookup_table sheet COLUMNS = Some cols ->
  rowArrayToObject sheet rowArr = Some obj0 ->
  merge_row sheet i rowArr w = (Ret true, w1) ->
  (truthy (prop obj0 "date") = true -> is_Some (to_key (prop obj0 "date"))) /\
  exists k r, recs (table w1 sheet) !! k = Some r /\
    forall c, c ∈ cols -> prop (stored (keyPath_of sheet) k r) c = prop obj0 c.
Proof.
  intros Hd Hcols Hrow Hrun.
  destruct (date_indexed_store _ Hd) as [Hs Hkp].
  destruct (date_indexed_sheet _ Hd)
    as (Hp & Hh & Hauto & cols' & keys & Hcols' & _ & _ & Hdate & Hid).
  rewrite Hcols in Hcols'. injection Hcols' as <-.
  set (obj := stamp_row i (clock (ticks w)) obj0).
  assert (Hobjc : forall c, c ∈ cols -> prop obj c = prop obj0 c /\ c <> "id"
                                         /\ c <> "_rowIndex" /\ is_Some (obj !! c)).
  { intros c Hc.
    destruct (decoded_row_column _ _ _ _ i (clock (ticks w)) c Hcols Hrow Hc)
      as (Hsame & Hsome & Hplain).
    fold obj in Hsame. split; [unfold prop; by rewrite Hsame|].
    split; [by intros ->|]. split; [|by rewrite Hsame].
    intros ->. apply Hplain. apply (bool_decide_unpack _); by vm_compute. }
  destruct (_findMatchingRecord sheet obj w) as [[[m|]|e] w0] eqn:Hf;
    pose proof (findMatchingRecord_reads _ _ _ _ _ Hf) as [-> _].
  - split.
    { intros Ht. destruct (Hobjc "date" Hdate) as (Hdd & _).
      rewrite <- Hdd. eapply findMatchingRecord_date_valid; [done| |exact Hf].
      by rewrite Hdd. }
    destruct (local_wins m obj) eqn:Hlw.
    { rewrite (merge_row_matched _ _ _ _ _ _ Hrow Hf) in Hrun.
      fold obj in Hrun. rewrite Hlw in Hrun. by simplify_eq. }
    destruct (merge_row_remote_wins _ _ _ _ _ _ Hrow Hf Hlw)
      as (k & w' & Hrun' & _ & _ & Hget & _).
    rewrite Hrun' in Hrun. simplify_eq.
    destruct (idb_get_inv _ _ _ _ _ Hget) as (_ & _ & k0 & r & _ & Hr & Hm).
    exists k0, r. split; [done|]. intros c Hc. rewrite <- Hm.
    destruct (Hobjc c Hc) as (Hsame & Hnid & Hnri & [v Hv]).
    rewrite <- Hsame. fold obj.
    rewrite (merged_record_lookup m obj c v Hnid Hnri Hv).
    unfold prop. by rewrite Hv.
  - split.
    { intros Ht. destruct (Hobjc "date" Hdate) as (Hdd & _).
      rewrite <- Hdd. eapply findMatchingRecord_date_valid; [done| |exact Hf].
      by rewrite Hdd. }
    rewrite (merge_row_unmatched _ _ _ _ _ Hrow Hf) in Hrun. fold obj in Hrun.
    apply orb_false_iff in Hh as [Hh1 Hh2]. rewrite Hp, Hh1, Hh2 in Hrun.
    cbn [orb] in Hrun.
    destruct (store_write (keyPath_of sheet) (autoIncrement_of sheet) true
                (table (set_ticks S w) sheet) obj) as [e|[k s']] eqn:Hw.
    { unfold idb_add, idb_write in Hrun. unfold bind at 1 2 3 in Hrun.
      rewrite open_store_run in Hrun by done. rewrite Hw in Hrun.
      unfold lift, throw in Hrun. by simplify_eq. }
    unfold idb_add in Hrun.
    erewrite bind_run in Hrun by (by apply idb_write_run).
    unfold ret in Hrun. simplify_eq.
    destruct (store_add_inv _ _ _ _ _ _ Hw) as (_ & Hrecs & _).
    exists k, (stored (keyPath_of sheet) k obj). split.
    + rewrite table_insert, Hrecs. by rewrite lookup_insert_eq.
    + intros c Hc. destruct (Hobjc c Hc) as (Hsame & Hnid & _).
      rewrite <- Hsame. unfold stored, prop. rewrite Hkp.
      by rewrite !lookup_insert_ne.
  - rewrite (merge_row_find_throws _ _ _ _ _ _ _ Hrow Hf) in Hrun. by simplify_eq.
Qed.

Lemma key_field_matches_same (cand obj : Obj) k :
  prop cand k = prop obj k -> key_field_matches cand obj k = true.
Proof. intros H. unfold key_field_matches. rewrite H. apply String.eqb_refl. Qed.

(** X14 (_pullFromSheets, _findMatchingRecord, data.js 548-615, 813-877):
    pulling a dated row again adds no record.  On a date-indexed sheet,
    once the merge of a row with a non-empty date has written, a later
    merge of the same row (at any position) finds a match by natural
    key, and leaves the store with the same keys: it either keeps the
    local record or overwrites the matched one. *)
Theorem repull_adds_no_record w sheet i j rowArr obj0 w1 :
  includes sheet DATE_INDEXED_STORES = true ->
  rowArrayToObject sheet rowArr = Some obj0 ->
  truthy (prop obj0 "date") = true ->
  merge_row sheet i rowArr w = (Ret true, w1) ->
  exists counted w2,
    merge_row sheet j rowArr w1 = (Ret counted, w2) /\
    dom (recs (table w2 sheet)) = dom (recs (table w1 sheet)) /\
    queue w2 = queue w1.
Proof.
  intros Hd Hrow Ht Hrun.
  destruct (date_indexed_store _ Hd) as [Hs Hkp].
  destruct (date_indexed_sheet _ Hd)
    as (Hp & Hh & Hauto & cols & keys & Hcols & Hkeys & Hsub & Hdate & Hid).
  destruct (merge_row_wrote _ _ _ _ _ _ _ Hd Hcols Hrow Hrun)
    as (Hvalid & k & r & Hr & Hsame).
  destruct (Hvalid Ht) as [kd Hkd].
  set (obj := stamp_row j (clock (ticks w1)) obj0).
  assert (Hobjc : forall c, c ∈ cols -> prop obj c = prop obj0 c).
  { intros c Hc.
    destruct (decoded_row_column _ _ _ _ j (clock (ticks w1)) c Hcols Hrow Hc)
      as (Hc1 & _). fold obj in Hc1. unfold prop. by rewrite Hc1. }
  assert (Hmatch : natural_key_matches sheet (stored (keyPath_of sheet) k r) obj = true).
  { unfold natural_key_matches. rewrite Hkeys. cbn [default].
    apply forallb_forall. intros c Hc. apply key_field_matches_same.
    rewrite Forall_forall in Hsub. apply list_elem_of_In in Hc.
    rewrite Hsame, Hobjc by auto. done. }
  destruct (findMatchingRecord_complete sheet obj w1 kd k r) as (m & Hf & _); try done.
  { by rewrite Hobjc. }
  { by rewrite Hobjc. }
  { by rewrite Hsame, Hobjc. }
  destruct (local_wins m obj) eqn:Hlw.
  - exists false, (set_ticks S w1). split; [|done].
    rewrite (merge_row_matched _ _ _ _ _ _ Hrow Hf). fold obj. by rewrite Hlw.
  - destruct (merge_row_remote_wins _ _ _ _ _ _ Hrow Hf Hlw)
      as (k' & w2 & Hrun2 & _ & Hin & Hget & Hother & Hq & _).
    exists true, w2. split; [done|]. split; [|done].
    destruct (idb_get_inv _ _ _ _ _ Hget) as (_ & _ & k0 & r0 & Hk0 & Hr0 & _).
    rewrite key_val_to_key in Hk0. simplify_eq.
    apply set_eq. intros x. rewrite !elem_of_dom.
    destruct (decide (x = k0)) as [->|Hne].
    + split; intros _; [done | by rewrite Hr0].
    + by rewrite Hother.
Qed.

(* ==================================================================== *)
(** ** The profile *)
(* ==================================================================== *)

#[local] Instance entry_le_total : Total entry_le.
Proof.
  intros [a ?] [b ?]. unfold entry_le; cbn.
  destruct a as [x|s], b as [y|t]; cbn; auto.
  - destruct (Z.leb_spec x y), (Z.leb_spec y x); auto; lia.
  - apply String.leb_total.
Qed.

Lemma saveProfile_run key value w k :
  to_key key = Some k ->
  q_recs (queue w) !! q_keygen (queue w) = None ->
  let record : Obj :=
    {[ "key" := key; "value" := value; "_synced" := VBool false;
       "_modified" := VNum (clock (ticks w)); "_deleted" := VBool false ]} in
  let s' := mkStore (keygen (table w "profile"))
                    (<[k := record]> (recs (table w "profile"))) in
  let e := mkEntry "profile" "update" record VNull (clock (S (ticks w))) 0 in
  exists tasks,
    saveProfile key value w =
    (Ret record,
     set_spawned (fun _ => tasks)
       (set_queue (enqueued e)
          (set_ticks S (set_stores <["profile" := s']> (set_ticks S w))))).
Proof.
  intros Hk Hfresh record s' e. unfold saveProfile.
  erewrite bind_run by reflexivity. fold record.
  assert (Hrk : record !! "key" = Some (key_val k)).
  { unfold record. rewrite lookup_insert_eq. by rewrite (to_key_val _ _ Hk). }
  erewrite bind_run.
  2:{ apply idb_write_run; [done|]. rewrite table_set_ticks.
      apply (store_put_keyed "key" false _ _ k Hrk). }
  assert (Hb : bump false (keygen (table w "profile")) k = keygen (table w "profile"))
    by (by destruct k).
  rewrite Hb. fold s'.
  erewrite bind_run by (by apply _enqueue_run).
  destruct (trigger_sync_run
    (set_queue (enqueued e)
       (set_ticks S (set_stores <["profile" := s']> (set_ticks S w))))) as [tasks Ht].
  exists tasks. erewrite bind_run by exact Ht. reflexivity.
Qed.







Lemma _markSynced_without_id sheet data w :
  prop data "id" = VUndef -> _markSynced sheet data w = (Ret tt, w).
Proof.
  intros H. unfold _markSynced, strict_eq. by rewrite H.
Qed.

(** X16 (saveProfile, _pushToSheets, _markSynced, data.js 386-413,
    628-668, 758-783): a profile record never gets [_synced: true] from
    a push.  The entry [saveProfile] queues carries a record without
    [id], it is sent as a [write] of the one row [key, value], and when
    that request is accepted the entry leaves the queue while
    [_markSynced] returns at its [data.id === undefined] test: the
    object stores are exactly as before the push, and the record still
    reads back with [_synced: false]. *)
Theorem profile_record_is_never_marked_synced w key k value :
  to_key key = Some k ->
  q_recs (queue w) !! q_keygen (queue w) = None ->
  let qid := q_keygen (queue w) in
  exists rec w1 e,
    saveProfile key value w = (Ret rec, w1) /\
    q_recs (queue w1) !! qid = Some e /\
    push_request e =
      Some (Post "write" (BodyRows "profile" [objectToRowArray "profile" rec])) /\
    idb_get "profile" key w1 = (Ret (Some rec), w1) /\
    prop rec "_synced" = VBool false /\
    (forall c data,
       gateway (calls w1)
         (Post "write" (BodyRows "profile" [objectToRowArray "profile" rec])) =
         Json (VBool true) data ->
       exists w2,
         push_item (qid, e) c w1 =
           (Ret (mkCounters (pushed c + 1) (errors c), true), w2) /\
         q_recs (queue w2) !! qid = None /\
         stores w2 = stores w1 /\
         idb_get "profile" key w2 = (Ret (Some rec), w2)).
Proof.
  intros Hk Hfresh qid.
  destruct (saveProfile_run key value w k Hk Hfresh) as [tasks Hrun].
  set (rec := ({[ "key" := key; "value" := value; "_synced" := VBool false;
                  "_modified" := VNum (clock (ticks w));
                  "_deleted" := VBool false ]} : Obj)) in *.
  set (e := mkEntry "profile" "update" rec VNull (clock (S (ticks w))) 0) in *.
  match type of Hrun with _ = (_, ?W) => set (w1 := W) in * end.
  assert (Hrk : rec !! "key" = Some (key_val k)).
  { unfold rec. rewrite lookup_insert_eq. by rewrite (to_key_val _ _ Hk). }
  assert (Hget : forall w2, stores w2 = stores w1 ->
            idb_get "profile" key w2 = (Ret (Some rec), w2)).
  { intros w2 Hst. rewrite (idb_get_run _ _ k) by done.
    unfold table. rewrite Hst. fold (table w1 "profile").
    unfold w1. rewrite table_set_spawned, table_set_queue, table_set_ticks, table_insert.
    cbn [recs]. rewrite lookup_insert_eq. cbn [fmap option_fmap option_map].
    do 3 f_equal. by apply (stored_idem "key"). }
  assert (Hreq : push_request e =
            Some (Post "write" (BodyRows "profile" [objectToRowArray "profile" rec])))
    by reflexivity.
  eexists rec, w1, e. split; [exact Hrun|].
  split; [unfold w1; cbn; by rewrite lookup_insert_eq|].
  split; [done|]. split; [by apply Hget|].
  split.
  { unfold prop, rec. rewrite !lookup_insert_ne by done. by rewrite lookup_insert_eq. }
  intros c data Hgw.
  assert (Hnoid : prop (q_data e) "id" = VUndef) by reflexivity.
  eexists. split; [|split; [|split]].
  - unfold push_item; cbn [fst snd].
    change (MAX_RETRIES <=? q_retries e) with false. cbv iota.
    unfold try_catch, push_attempt, bind at 1 2.
    rewrite _pushToSheets_request, Hreq, Hgw.
    unfold strict_eq. rewrite bool_decide_eq_true_2 by done.
    cbn [fst snd]. unfold bind at 1.
    rewrite (_markSynced_without_id _ _ _ Hnoid).
    unfold bind at 1. unfold _removeFromQueue at 1, modify at 1.
    unfold bind at 1.
    change (String.eqb (q_action (qid, e).2) "delete") with false. cbv iota.
    unfold ret at 1. unfold bind, ret. reflexivity.
  - cbn. by rewrite lookup_delete_eq.
  - reflexivity.
  - by apply Hget.
Qed.

(* ==================================================================== *)
(** ** More about the row codec *)
(* ==================================================================== *)

Lemma columns_nodup sheet cols :
  lookup_table sheet COLUMNS = Some cols -> NoDup cols.
Proof.
  intros Hcols. unfold COLUMNS in Hcols. cbn [lookup_table] in Hcols.
  repeat match type of Hcols with
         | (if String.eqb ?k sheet then _ else _) = _ =>
             destruct (String.eqb_spec k sheet) as [<-|_];
             [ injection Hcols as <-; apply (bool_decide_unpack _); by vm_compute |]
         end.
  done.
Qed.

Lemma fill_columns_cell cols : forall i arr (obj : Obj) j c,
  NoDup cols -> cols !! j = Some c ->
  fill_columns cols i arr obj !! c = Some (default VNull (arr !! (i + j)%nat)).
Proof.
  induction cols as [|c0 cs IH]; intros i arr obj j c Hnd Hj; [done|].
  apply NoDup_cons in Hnd as [Hc0 Hnd]. cbn [fill_columns].
  destruct j as [|j]; cbn in Hj.
  - simplify_eq. rewrite fill_columns_other by done.
    rewrite lookup_insert_eq, Nat.add_0_r. by destruct (arr !! i).
  - rewrite (IH (S i) arr _ j c Hnd Hj). do 3 f_equal. lia.
Qed.


(** X18 (objectToRowArray after rowArrayToObject, data.js 75-92):
    encoding a decoded row gives the row cut or padded to the number of
    columns, with every [null] or [undefined] cell (and every padding
    cell) replaced by the empty string; so a row of the right length
    without [null] or [undefined] cells comes back as it was. *)
Theorem row_decode_then_encode sheet cols arr obj :
  lookup_table sheet COLUMNS = Some cols ->
  rowArrayToObject sheet arr = Some obj ->
  let blank := fun v => if present v then v else VStr "" in
  let n := length cols in
  objectToRowArray sheet obj =
    blank <$> (take n arr ++ replicate (n - length arr) VNull) /\
  (length arr = n -> Forall (fun v => present v = true) arr ->
   objectToRowArray sheet obj = arr).
Proof.
  intros Hcols Hrow blank n.
  assert (Hcell : forall j c, cols !! j = Some c ->
                     obj !! c = Some (default VNull (arr !! j))).
  { unfold rowArrayToObject in Hrow. rewrite Hcols in Hrow. injection Hrow as <-.
    intros j c Hj.
    by rewrite (fill_columns_cell cols 0 arr ∅ j c (columns_nodup _ _ Hcols) Hj). }
  assert (Hgen : objectToRowArray sheet obj =
                 blank <$> (take n arr ++ replicate (n - length arr) VNull)).
  { unfold objectToRowArray. rewrite Hcols.
    apply list_eq. intros j. rewrite list_lookup_fmap.
    change (map ?f cols) with (f <$> cols). rewrite list_lookup_fmap.
    destruct (cols !! j) as [c|] eqn:Hj; cbn.
    - assert (j < n)%nat by (by apply lookup_lt_Some in Hj).
      unfold prop. rewrite (Hcell j c Hj). cbn [default].
      destruct (decide (j < length arr)%nat) as [Hlt|Hge].
      + rewrite lookup_app_l by (rewrite length_take; lia).
        rewrite lookup_take_lt by lia.
        destruct (arr !! j) as [v|] eqn:Hv; [done|].
        apply lookup_ge_None in Hv. lia.
      + rewrite lookup_app_r by (rewrite length_take; lia).
        rewrite length_take.
        rewrite (lookup_ge_None_2 arr j) by lia.
        rewrite lookup_replicate_2 by lia. done.
    - apply lookup_ge_None in Hj. fold n in Hj.
      rewrite (lookup_ge_None_2 (take n arr ++ _)); [done|].
      rewrite length_app, length_take, length_replicate. lia. }
  split; [exact Hgen|].
  intros Hlen Hall. rewrite Hgen, Hlen, Nat.sub_diag. cbn [replicate].
  rewrite app_nil_r, <- Hlen, firstn_all.
  clear -Hall. induction Hall as [|v l Hv _ IH]; [done|].
  cbn. unfold blank at 1. rewrite Hv. by rewrite IH.
Qed.

(* ==================================================================== *)
(** ** A pull phase that fails *)
(* ==================================================================== *)

Lemma pull_phase_unreachable pullStores today : forall pulled w,
  truthy (scriptUrl w) = true ->
  (forall log sheet from to, gateway log (Read sheet from to) = Failure) ->
  exists w',
    pull_phase pullStores today pulled w = (Ret pulled, w') /\
    stores w' = stores w /\ queue w' = queue w /\ ticks w' = ticks w /\
    scriptUrl w' = scriptUrl w /\
    (c_req <$> drop (length (calls w)) (calls w')) =
      (fun sheet => Read sheet (url_param (VStr today)) (url_param (VStr today)))
        <$> pullStores /\
    Forall (fun c => c_resp c = Failure) (drop (length (calls w)) (calls w')).
Proof.
  induction pullStores as [|sheet rest IH]; intros pulled w Hurl Hgw.
  - exists w. cbn. rewrite drop_all. by repeat split.
  - cbn [pull_phase].
    set (req := Read sheet (url_param (VStr today)) (url_param (VStr today))).
    assert (Hpull : _pullFromSheets sheet (VStr today) (VStr today) w =
                    (Throw NetworkError, sent None req w)).
    { unfold _pullFromSheets. erewrite bind_run by reflexivity.
      rewrite Hurl. cbn [negb]. unfold bind, fetch, sent. cbv zeta.
      unfold req. by rewrite !(Hgw (calls w)). }
    destruct (IH pulled (sent None req w)) as (w' & Hrun & Hst & Hq & Ht & Hu & Hreqs & Hfail);
      [done | done |].
    destruct (pull_frame_pull_phase rest today pulled _ _ _ Hrun)
      as (_ & (new & Hnew & _) & _).
    assert (Hd1 : drop (length (calls (sent None req w))) (calls w') = new).
    { rewrite Hnew. apply drop_app_length. }
    rewrite Hd1 in Hreqs, Hfail.
    assert (Hd0 : drop (length (calls w)) (calls w') =
                  mkCall None req (gateway (calls w) req) :: new).
    { rewrite Hnew. unfold sent. cbn [calls set_calls].
      rewrite <- app_assoc. apply drop_app_length. }
    exists w'. split.
    { unfold bind at 1, try_catch, bind at 1. rewrite Hpull. exact Hrun. }
    rewrite Hd0. repeat split; try done.
    + rewrite fmap_cons. cbn [c_req]. by rewrite Hreqs.
    + constructor; [|done]. cbn [c_resp]. unfold req. apply Hgw.
Qed.

(** X19 (syncNow, _pullFromSheets, data.js 508-520, 548-558): a pull
    phase that cannot reach the gateway changes nothing and aborts
    nothing.  When every read fails in the transport, the cycle still
    resolves, with the counters of its push loop and [pulled = 0]; the
    object stores and the queue are as the push loop left them; and a
    read of today's rows was attempted for each of the ten date-indexed
    sheets, in order, every failure swallowed. *)
Theorem syncNow_swallows_pull_failures w c go w1 :
  online w = true -> truthy (scriptUrl w) = true ->
  (forall log sheet from to, gateway log (Read sheet from to) = Failure) ->
  push_loop (snapshot w) (mkCounters 0 0) w = (Ret (c, go), w1) ->
  let today := iso_date (clock (ticks w1)) in
  exists w',
    syncNow w = (Ret (mkResult (pushed c) 0 (errors c)), w') /\
    stores w' = stores w1 /\ queue w' = queue w1 /\
    (c_req <$> drop (length (calls w1)) (calls w')) =
      (fun sheet => Read sheet (url_param (VStr today)) (url_param (VStr today)))
        <$> DATE_INDEXED_STORES /\
    Forall (fun c => c_resp c = Failure) (drop (length (calls w1)) (calls w')).
Proof.
  intros Hon Hurl Hgw Hpush today.
  assert (Hurl1 : truthy (scriptUrl (set_ticks S w1)) = true).
  { pose proof (push_loop_frame _ _ _ _ _ Hpush) as (_ & _ & _ & _ & Hu).
    cbn. by rewrite Hu. }
  destruct (pull_phase_unreachable DATE_INDEXED_STORES today 0 (set_ticks S w1) Hurl1 Hgw)
    as (w' & Hrun & Hst & Hq & _ & _ & Hreqs & Hfail).
  exists w'. split; [|by repeat split].
  unfold syncNow.
  erewrite bind_run by reflexivity.
  erewrite bind_run by reflexivity.
  rewrite Hon, Hurl. cbn [negb orb].
  erewrite bind_run; [| unfold push_phase; erewrite bind_run by reflexivity;
                        fold (snapshot w); exact Hpush ].
  erewrite bind_run; [| unfold _today; erewrite bind_run by reflexivity;
                        reflexivity ].
  fold today. erewrite bind_run by exact Hrun. reflexivity.
Qed.

End Engine.

(* ====================================================================== *)
(** ** Worked instances *)
(* ====================================================================== *)

Module Instances.
Import Examples.

(** Closing a goal by evaluation. *)
Ltac computed := vm_compute; first [exact eq_refl | exact I | done].

(** A run that resolves, with its result and the world it leaves. *)
Ltac resolved m res w' E :=
  let H := fresh "H" in
  assert (H : match fst m with Ret _ => true | Throw _ => false end = true)
    by (vm_compute; exact eq_refl);
  destruct m as [[res|?] w'] eqn:E; [clear H | discriminate H].

(** The pair a run returns, from its result alone. *)
Ltac run_is := etrans; [apply surjective_pairing | f_equal; computed].

Lemma row_codec_roundtrip_witness :
  exists obj',
    rowArrayToObject "water" (objectToRowArray "water" (water 1 250)) = Some obj' /\
    forall c, c ∈ ["date"; "time"; "amount_ml"] -> prop obj' c = prop (water 1 250) c.
Proof.
  apply (row_codec_roundtrip "water" ["date"; "time"; "amount_ml"] (water 1 250)).
  - reflexivity.
  - intros c Hc.
    repeat (apply elem_of_cons in Hc as [->|Hc]; [split; vm_compute; discriminate|]).
    by apply elem_of_nil in Hc.
Defined.

(** Under [gw_flaky] entry 1 of [three_pending] is rejected, entry 2 meets
    the lost connection and entry 3 is never sent. *)
Lemma syncNow_halts_on_network_fault_witness :
  let w1 := (push_loop gw_flaky [(1, append_water 1 0)] (mkCounters 0 0) three_pending).2 in
  exists res w' pulls,
    syncNow no_number ex_clock ex_date gw_flaky three_pending = (Ret res, w') /\
    r_errors res = 1 + 1 /\ r_pushed res = 0 /\
    (exists e', q_recs (queue w') !! 2 = Some e' /\
                q_retries e' = 0 + 1 /\
                q_sheet e' = "water" /\ q_action e' = "append" /\
                q_data e' = water 2 250 /\ q_rowIndex e' = VNull /\
                q_timestamp e' = 100) /\
    (forall x, x ∈ [(3, append_water 3 0)] -> q_recs (queue w') !! x.1 = Some x.2) /\
    calls w' = calls w1 ++ mkCall (Some 2) (append_request 2) Failure :: pulls /\
    Forall (fun c => c_item c = None) pulls /\
    (forall x c, x ∈ [(3, append_water 3 0)] ->
                 c ∈ drop (length (calls three_pending)) (calls w') ->
                 c_item c <> Some x.1).
Proof.
  intros w1.
  apply (syncNow_halts_on_network_fault no_number ex_clock ex_date gw_flaky
           three_pending [(1, append_water 1 0)] 2 (append_water 2 0)
           [(3, append_water 3 0)] (mkCounters 0 1) w1 (append_request 2));
    computed.
Defined.

(** Under [gw_accepts] the three appends go out in the order 1, 2, 3. *)
Lemma syncNow_pushes_in_id_order_witness :
  let run := syncNow no_number ex_clock ex_date gw_accepts three_pending in
  drop (length (calls three_pending)) (calls run.2) !! 0%nat = Some (accepted 1) /\
  drop (length (calls three_pending)) (calls run.2) !! 2%nat = Some (accepted 3) /\
  (0 < 2)%nat.
Proof.
  intros run.
  split; [computed|]. split; [computed|].
  apply (syncNow_pushes_in_id_order no_number ex_clock ex_date gw_accepts
           three_pending run.1 run.2 0 2 (accepted 1) (accepted 3) 1 3);
    computed.
Defined.

(** An entry with [retries = 3] is dropped unsent; an entry that
    [gw_rejects] turns down in three cycles is dropped by the fourth. *)
Lemma retry_exhaustion_witness :
  let cycle := next_world no_number ex_clock ex_date gw_rejects in
  (push_loop gw_accepts (snapshot one_exhausted) (mkCounters 0 0) one_exhausted =
   push_loop gw_accepts [(2, append_water 2 0)] (mkCounters 0 (0 + 1))
     (set_queue (fun q => queue_delete q 1) one_exhausted) /\
   exists res w',
     syncNow no_number ex_clock ex_date gw_accepts one_exhausted = (Ret res, w') /\
     q_recs (queue w') !! 1 = None /\
     (forall c, c ∈ drop (length (calls one_exhausted)) (calls w') -> c_item c <> Some 1)) /\
  (q_recs (queue (cycle (cycle (cycle one_pending)))) !! 1 =
     Some (with_retries 3 (append_water 1 0)) /\
   q_recs (queue (cycle (cycle (cycle (cycle one_pending))))) !! 1 = None /\
   (forall c, c ∈ drop (length (calls (cycle (cycle (cycle one_pending)))))
                       (calls (cycle (cycle (cycle (cycle one_pending))))) ->
              c_item c <> Some 1)).
Proof.
  intros cycle. split.
  - apply (proj1 (retry_exhaustion no_number ex_clock ex_date gw_accepts)
             one_exhausted [] 1 (append_water 1 3) [(2, append_water 2 0)]
             (mkCounters 0 0) one_exhausted);
      computed.
  - apply (proj2 (retry_exhaustion no_number ex_clock ex_date gw_rejects)
             one_pending 1 (append_water 1 0));
      [computed | computed | computed | computed | | | |].
    + exists [], (append_water 1 0), [], (mkCounters 0 0), one_pending.
      repeat split; computed.
    + exists [], (append_water 1 1), [], (mkCounters 0 0), (cycle one_pending).
      repeat split; computed.
    + exists [], (append_water 1 2), [], (mkCounters 0 0), (cycle (cycle one_pending)).
      repeat split; computed.
    + exists [], (append_water 1 3), [], (mkCounters 0 0),
        (cycle (cycle (cycle one_pending))).
      split; computed.
Defined.

(** Under [gw_rejects] entry 1 stays queued with one retry and entry 2 is
    sent in the same cycle. *)
Lemma syncNow_continues_after_rejection_witness :
  let w2 := set_queue (retried 1 0) (sent gw_rejects (Some 1) (append_request 1) three_pending) in
  push_loop gw_rejects (snapshot three_pending) (mkCounters 0 0) three_pending =
    push_loop gw_rejects [(2, append_water 2 0); (3, append_water 3 0)]
      (mkCounters 0 (0 + 1)) w2 /\
  exists e',
    q_retries e' = 0 + 1 /\
    q_sheet e' = "water" /\ q_action e' = "append" /\
    q_data e' = water 1 250 /\ q_rowIndex e' = VNull /\
    q_timestamp e' = 100 /\
    q_recs (queue w2) !! 1 = Some e' /\
  exists res w',
    syncNow no_number ex_clock ex_date gw_rejects three_pending = (Ret res, w') /\
    q_recs (queue w') !! 1 = Some e' /\
    0 + 1 <= r_errors res /\
    (forall id2 e2 post' req2,
       [(2, append_water 2 0); (3, append_water 3 0)] = (id2, e2) :: post' ->
       q_retries e2 < MAX_RETRIES ->
       push_request e2 = Some req2 ->
       mkCall (Some id2) req2 (gw_rejects (calls w2) req2) ∈ calls w').
Proof.
  apply (syncNow_continues_after_rejection no_number ex_clock ex_date gw_rejects
           three_pending [] 1 (append_water 1 0)
           [(2, append_water 2 0); (3, append_water 3 0)]
           (mkCounters 0 0) three_pending (append_request 1) (VBool false) None);
    computed.
Defined.

(** The local copy is unsynced and stamped 1000; the merge happens at 500. *)
Lemma merge_keeps_newer_unsynced_local_witness :
  let w := health_world (health 70 1000 false false) in
  let obj := stamp_row 0 (ex_clock 0) pulled_obj in
  exists w',
    merge_row no_number ex_clock "health" 0 pulled_row w = (Ret false, w') /\
    stores w' = stores w /\ queue w' = queue w /\
    _findMatchingRecord "health" obj w' = (Ret (Some (health 70 1000 false false)), w') /\
    pull_rows no_number ex_clock "health" [pulled_row] 0 0 w =
    pull_rows no_number ex_clock "health" [] 1 0 w'.
Proof.
  apply (merge_keeps_newer_unsynced_local no_number ex_clock
           (health_world (health 70 1000 false false)) "health" 0%nat pulled_row
           pulled_obj (health 70 1000 false false) 1000 [] 0);
    computed.
Defined.





(** A new water record is saved into [three_stored] and read back by
    its date. *)
Lemma save_then_get_by_date_witness :
  let saved := save ex_clock "water" new_water three_stored in
  let saved_record := match saved.1 with Ret r => r | Throw _ => ∅ end in
  prop saved_record "id" = VNum 4 /\
  prop saved_record "amount_ml" = VNum 500 /\
  prop saved_record "_synced" = VBool false /\
  (exists res w2,
      get no_number ex_clock "water"
        (mkOptions VUndef VUndef (VStr "2026-02-12") VUndef) saved.2 = (Ret res, w2) /\
      saved_record ∈ res) /\
  size (q_recs (queue saved.2)) = 1%nat.
Proof.
  intros saved saved_record.
  destruct (save_then_get_by_date no_number ex_clock three_stored "water" new_water
              saved_record saved.2)
    as (_ & _ & Hsynced & _ & Hget & (e & _ & Hq & _));
    [computed | by (intros _; eexists; vm_compute) | computed |].
  split; [computed|]. split; [computed|]. split; [exact Hsynced|].
  split; [exact Hget|]. rewrite Hq. computed.
Defined.

(** Under [gw_flaky] two of the three entries of [three_pending] are
    gone through, none is pushed. *)
Lemma syncNow_counts_each_entry_once_witness :
  exists res w',
    syncNow no_number ex_clock ex_date gw_flaky three_pending = (Ret res, w') /\
    let before := Z.of_nat (size (q_recs (queue three_pending))) in
    let after := Z.of_nat (size (q_recs (queue w'))) in
    0 <= r_pushed res /\ 0 <= r_errors res /\
    r_pushed res + r_errors res <= before /\
    after + r_pushed res <= before /\
    ((forall c, c ∈ new_calls three_pending w' -> c_resp c <> Failure) ->
     r_pushed res + r_errors res = before).
Proof.
  resolved (syncNow no_number ex_clock ex_date gw_flaky three_pending) res w' E.
  exists res, w'. split; [reflexivity|].
  apply (syncNow_counts_each_entry_once no_number ex_clock ex_date gw_flaky
           three_pending res w'); [computed | computed | exact E].
Defined.

(** After a cycle under [gw_rejects] the one entry of [one_pending] is
    queued with one retry; before, it was queued with the same payload. *)
Lemma syncNow_keeps_queued_payloads_witness :
  let run := syncNow no_number ex_clock ex_date gw_rejects one_pending in
  q_recs (queue run.2) !! 1 = Some (with_retries 1 (append_water 1 0)) /\
  exists e, q_recs (queue one_pending) !! 1 = Some e /\
            same_payload e (with_retries 1 (append_water 1 0)).
Proof.
  intros run. split; [computed|].
  apply (syncNow_keeps_queued_payloads no_number ex_clock ex_date gw_rejects
           one_pending (mkResult 0 0 1) run.2 1 (with_retries 1 (append_water 1 0)));
    [run_is | computed].
Defined.


(** Entry 1 of [three_pending] is accepted: record 1 reads back flagged
    synced and the entry is gone. *)
Lemma accepted_push_marks_record_synced_witness :
  let e := append_water 1 0 in
  let kp := keyPath_of (q_sheet e) in
  exists w',
    push_item gw_accepts (1, e) (mkCounters 0 0) three_pending =
      (Ret (mkCounters (pushed (mkCounters 0 0) + 1) (errors (mkCounters 0 0)), true), w') /\
    idb_get (q_sheet e) (key_val (KNum 1)) w' =
      (Ret (Some (<["_synced" := VBool true]> (stored kp (KNum 1) (water 1 250)))), w') /\
    (forall k', k' <> KNum 1 ->
       recs (table w' (q_sheet e)) !! k' = recs (table three_pending (q_sheet e)) !! k') /\
    q_recs (queue w') !! 1 = None.
Proof.
  intros e kp.
  apply (accepted_push_marks_record_synced gw_accepts 1 e (mkCounters 0 0)
           three_pending (KNum 1) (water 1 250) (append_request 1) None);
    computed.
Defined.

(** The amount of water record 2 of [three_stored] is changed. *)
Lemma update_overwrites_and_enqueues_witness :
  let w := three_stored in
  let sheet := "water" in
  let key := VNum 2 in
  let existing := water 2 250 in
  let updates := more_water in
  let now := ex_clock (ticks w) in
  let qid := q_keygen (queue w) in
  exists updated w1 e,
    update ex_clock sheet key updates w = (Ret (Some updated), w1) /\
    idb_get sheet key w1 = (Ret (Some updated), w1) /\
    (forall f v, updates !! f = Some v -> f ∉ ["_synced"; "_modified"] ->
                 updated !! f = Some v) /\
    (forall f, updates !! f = None -> f ∉ ["_synced"; "_modified"] ->
               updated !! f = existing !! f) /\
    prop updated "_synced" = VBool false /\
    prop updated "_modified" = VNum now /\
    (forall k k', to_key key = Some k -> k' <> k ->
       recs (table w1 sheet) !! k' = recs (table w sheet) !! k') /\
    q_recs (queue w1) = <[qid := e]> (q_recs (queue w)) /\
    q_sheet e = sheet /\ q_action e = "update" /\ q_data e = updated /\
    q_rowIndex e = js_or (prop updated "_rowIndex") VNull /\
    q_retries e = 0.
Proof.
  intros w sheet key existing updates now qid.
  apply (update_overwrites_and_enqueues ex_clock w sheet key existing updates).
  - rewrite (idb_get_run sheet key (KNum 2)) by computed.
    apply (f_equal (fun x => (Ret x, w))). computed.
  - computed.
  - computed.
Defined.

(** Nothing is stored under key 9 of [three_stored]. *)
Lemma update_delete_missing_record_witness :
  update ex_clock "water" (VNum 9) more_water three_stored = (Ret None, three_stored) /\
  delete ex_clock "water" (VNum 9) three_stored = (Ret false, three_stored).
Proof.
  apply (update_delete_missing_record ex_clock three_stored "water" (VNum 9) (KNum 9));
    computed.
Defined.

(** Water record 2 of [three_stored] was saved locally and never pulled. *)
Lemma unplaced_record_is_sent_without_row_index_witness :
  let w := three_stored in
  let sheet := "water" in
  let key := VNum 2 in
  let updates := more_water in
  let qid := q_keygen (queue w) in
  (exists updated w1 e,
     update ex_clock sheet key updates w = (Ret (Some updated), w1) /\
     q_recs (queue w1) !! qid = Some e /\
     push_request e =
       Some (Post "update" (BodyRow sheet VNull (objectToRowArray sheet updated)))) /\
  (exists w1 e,
     delete ex_clock sheet key w = (Ret true, w1) /\
     q_recs (queue w1) !! qid = Some e /\
     push_request e = Some (Post "delete" (BodyIndex sheet VNull))).
Proof.
  intros w sheet key updates qid.
  apply (unplaced_record_is_sent_without_row_index ex_clock w sheet key
           (water 2 250) updates); [| computed ..].
  rewrite (idb_get_run sheet key (KNum 2)) by computed.
  apply (f_equal (fun x => (Ret x, w))). computed.
Defined.


(** The three water records of 2026-02-12 are what a [get] of that day
    returns. *)
Lemma get_by_range_returns_records_in_range_witness :
  let options := mkOptions VUndef VUndef (VStr "2026-02-12") VUndef in
  let from := js_or (js_or (o_date options) (o_from options)) VNull in
  let to := js_or (js_or (o_date options) (o_to options)) VNull in
  exists res w',
    get no_number ex_clock "water" options three_stored = (Ret res, w') /\
    length res = 3%nat /\
    forall r, r ∈ res ->
      in_range_of from to r /\
      (truthy (o_date options) = true -> prop r "date" = o_date options).
Proof.
  intros options from to.
  assert (Hlen : length (match (get no_number ex_clock "water" options three_stored).1 with
                         | Ret l => l
                         | Throw _ => []
                         end) = 3%nat) by computed.
  resolved (get no_number ex_clock "water" options three_stored) res w' E.
  exists res, w'. split; [reflexivity|]. split; [exact Hlen|].
  intros r Hr.
  apply (get_by_range_returns_records_in_range no_number ex_clock "water" options
           three_stored res w' r); [computed | computed | computed | exact E | exact Hr].
Defined.

(** Two reads of the water sheet in a row, the first one long after the
    last pull. *)
Lemma get_pulls_once_per_window_witness :
  let options := mkOptions VUndef VUndef VUndef VUndef in
  let from := js_or (js_or (o_date options) (o_from options)) VNull in
  let to := js_or (js_or (o_date options) (o_to options)) VNull in
  let key := pull_key "water" from to in
  let w1 := (get no_number late_clock "water" options empty_world).2 in
  let w2 := (get no_number late_clock "water" options w1).2 in
  spawned w1 = spawned empty_world ++ [TaskPull "water" from to] /\
  lastPull w1 !! key = Some (late_clock (S (ticks empty_world))) /\
  spawned w2 = spawned w1 /\
  lastPull w2 = lastPull w1.
Proof.
  intros options from to key w1 w2.
  apply (get_pulls_once_per_window no_number late_clock "water" options
           empty_world [] w1 [] w2);
    [computed | computed | computed | run_is | run_is | computed].
Defined.

(** A row that names key 2 of [three_stored], which is in use: [save]
    rejects and the three records stay. *)
Lemma save_never_overwrites_witness :
  let run := save ex_clock "water" (water 2 900) three_stored in
  (forall sheet' k r0, recs (table three_stored sheet') !! k = Some r0 ->
                       recs (table run.2 sheet') !! k = Some r0) /\
  run.1 = Throw ConstraintError /\
  stores run.2 = stores three_stored /\ queue run.2 = queue three_stored.
Proof.
  intros run.
  destruct (save_never_overwrites ex_clock "water" (water 2 900) three_stored
              run.1 run.2 (surjective_pairing run)) as [Hkeep Hused].
  split; [exact Hkeep|].
  apply (Hused (KNum 2)); [computed | computed |].
  apply (bool_decide_unpack _). computed.
Defined.


(** The same row is pulled twice into an empty [health] store. *)
Lemma repull_adds_no_record_witness :
  let w1 := (merge_row no_number ex_clock "health" 0 pulled_row empty_world).2 in
  exists counted w2,
    merge_row no_number ex_clock "health" 3 pulled_row w1 = (Ret counted, w2) /\
    dom (recs (table w2 "health")) = dom (recs (table w1 "health")) /\
    queue w2 = queue w1.
Proof.
  intros w1.
  apply (repull_adds_no_record no_number ex_clock empty_world "health" 0%nat 3%nat
           pulled_row pulled_obj w1); [computed | computed | computed | run_is].
Defined.


(** The height is saved and its entry is accepted by [gw_accepts]. *)
Lemma profile_record_is_never_marked_synced_witness :
  let w := empty_world in
  let key := VStr "height" in
  let qid := q_keygen (queue w) in
  exists rec w1 e,
    saveProfile ex_clock key (VNum 180) w = (Ret rec, w1) /\
    q_recs (queue w1) !! qid = Some e /\
    push_request e =
      Some (Post "write" (BodyRows "profile" [objectToRowArray "profile" rec])) /\
    idb_get "profile" key w1 = (Ret (Some rec), w1) /\
    prop rec "_synced" = VBool false /\
    (forall c data,
       gw_accepts (calls w1)
         (Post "write" (BodyRows "profile" [objectToRowArray "profile" rec])) =
         Json (VBool true) data ->
       exists w2,
         push_item gw_accepts (qid, e) c w1 =
           (Ret (mkCounters (pushed c + 1) (errors c), true), w2) /\
         q_recs (queue w2) !! qid = None /\
         stores w2 = stores w1 /\
         idb_get "profile" key w2 = (Ret (Some rec), w2)).
Proof.
  intros w key qid.
  apply (profile_record_is_never_marked_synced ex_clock gw_accepts w key
           (KStr "height") (VNum 180)); computed.
Defined.

(** The pulled [health] row has two of the eight cells. *)
Lemma row_decode_then_encode_witness :
  let blank := fun v => if present v then v else VStr "" in
  let n := length health_columns in
  objectToRowArray "health" pulled_obj =
    blank <$> (take n pulled_row ++ replicate (n - length pulled_row) VNull) /\
  (length pulled_row = n -> Forall (fun v => present v = true) pulled_row ->
   objectToRowArray "health" pulled_obj = pulled_row).
Proof.
  intros blank n.
  apply (row_decode_then_encode "health" health_columns pulled_row pulled_obj);
    computed.
Defined.

(** Under [gw_reads_fail] the three appends are pushed and every pull
    fails. *)
Lemma syncNow_swallows_pull_failures_witness :
  let w := three_pending in
  let w1 := (push_loop gw_reads_fail (snapshot w) (mkCounters 0 0) w).2 in
  let c := mkCounters 3 0 in
  let today := ex_date (ex_clock (ticks w1)) in
  exists w',
    syncNow no_number ex_clock ex_date gw_reads_fail w =
      (Ret (mkResult (pushed c) 0 (errors c)), w') /\
    stores w' = stores w1 /\ queue w' = queue w1 /\
    (c_req <$> drop (length (calls w1)) (calls w')) =
      (fun sheet => Read sheet (url_param (VStr today)) (url_param (VStr today)))
        <$> DATE_INDEXED_STORES /\
    Forall (fun c => c_resp c = Failure) (drop (length (calls w1)) (calls w')).
Proof.
  intros w w1 c today.
  apply (syncNow_swallows_pull_failures no_number ex_clock ex_date gw_reads_fail
           w c true w1); [computed | computed | by intros | run_is].
Defined.

End Instances.
